(** * Cache & Aggregation Engine of the context-engine service

    A shallow embedding of [src/core/cache_manager.py] (the bounded recency
    cache [LRUCache] and the tiered [CacheManager]) and of
    [src/core/context_builder.py] (the dimension aggregator [ContextBuilder]),
    followed by the properties of the specification, each settled against the
    embedded code.

    Conventions of the embedding.
    - Python [str] is [string]; [str.encode()] is the identity on the bytes of
      the string (a [string] is read as its UTF-8 encoding).
    - Python [int] is [Z]; lengths are [nat] and are injected where compared.
    - Python [float] scores are read twice.  In [ContextBuilder] they are
      exact rationals [Q]: every score of the source is a quotient of small
      integers, and the properties stated there are about the arithmetic shape
      of the scores.  In [Binary64] they are IEEE 754 binary64 numbers with
      rounded operations, the arithmetic the interpreter executes: the
      composite score and its completeness threshold are settled there.
    - [datetime] is a number of seconds [Z]; the clock reading [datetime.now()]
      is an explicit argument [now] of every operation that reads the clock.
    - An [OrderedDict] is an association list, oldest entry first.
    - Raising is a [result]: [Ok v] or [Raise e]. *)

From Stdlib Require Import ZArith QArith Qminmax Lqa List String Ascii Bool Lia Arith.
From Stdlib Require Floats Uint63.
Import ListNotations.

Local Open Scope string_scope.
Local Open Scope Z_scope.
Local Open Scope list_scope.

Set Warnings "-inexact-float".

(* ====================================================================== *)
(** * Strings *)
(* ====================================================================== *)

Module Str.

(** Python truthiness of a [str]: non-empty. *)
Definition truthy (s : string) : bool :=
  match s with
  | EmptyString => false
  | String _ _ => true
  end.

(** [c in s] for a one-character needle. *)
Fixpoint mem_char (c : ascii) (s : string) : bool :=
  match s with
  | EmptyString => false
  | String a r => if Ascii.eqb a c then true else mem_char c r
  end.

Definition colon : ascii := ":"%char.

(** [s in l] for a list of strings. *)
Fixpoint mem (s : string) (l : list string) : bool :=
  match l with
  | [] => false
  | x :: r => if String.eqb s x then true else mem s r
  end.

(** [str.upper()] on the ASCII range (bytes outside [a-z] are kept). *)
Definition upper_char (c : ascii) : ascii :=
  let n := nat_of_ascii c in
  if (andb (Nat.leb 97 n) (Nat.leb n 122)) then ascii_of_nat (n - 32) else c.

Fixpoint upper (s : string) : string :=
  match s with
  | EmptyString => EmptyString
  | String c r => String (upper_char c) (upper r)
  end.

End Str.

(* ====================================================================== *)
(** * hashlib.md5 (RFC 1321) *)
(* ====================================================================== *)

Module MD5.

Definition modulus : Z := 4294967296.

Definition add32 (a b : Z) : Z := (a + b) mod modulus.
Definition not32 (a : Z) : Z := Z.lxor a 4294967295.
Definition rotl32 (x n : Z) : Z :=
  Z.lor (Z.shiftl x n mod modulus) (Z.shiftr x (32 - n)).

Definition shifts : list Z :=
  [7; 12; 17; 22; 7; 12; 17; 22; 7; 12; 17; 22; 7; 12; 17; 22;
   5; 9; 14; 20; 5; 9; 14; 20; 5; 9; 14; 20; 5; 9; 14; 20;
   4; 11; 16; 23; 4; 11; 16; 23; 4; 11; 16; 23; 4; 11; 16; 23;
   6; 10; 15; 21; 6; 10; 15; 21; 6; 10; 15; 21; 6; 10; 15; 21].

Definition sines : list Z :=
  [3614090360; 3905402710; 606105819; 3250441966;
   4118548399; 1200080426; 2821735955; 4249261313;
   1770035416; 2336552879; 4294925233; 2304563134;
   1804603682; 4254626195; 2792965006; 1236535329;
   4129170786; 3225465664; 643717713; 3921069994;
   3593408605; 38016083; 3634488961; 3889429448;
   568446438; 3275163606; 4107603335; 1163531501;
   2850285829; 4243563512; 1735328473; 2368359562;
   4294588738; 2272392833; 1839030562; 4259657740;
   2763975236; 1272893353; 4139469664; 3200236656;
   681279174; 3936430074; 3572445317; 76029189;
   3654602809; 3873151461; 530742520; 3299628645;
   4096336452; 1126891415; 2878612391; 4237533241;
   1700485571; 2399980690; 4293915773; 2240044497;
   1873313359; 4264355552; 2734768916; 1309151649;
   4149444226; 3174756917; 718787259; 3951481745].

Definition state : Type := (Z * Z * Z * Z)%type.

Definition init : state := (1732584193, 4023233417, 2562383102, 271733878).

Definition bytes_of_string (s : string) : list Z :=
  map (fun c => Z.of_nat (nat_of_ascii c)) (list_ascii_of_string s).

(** Little-endian bytes of the low [8 * n] bits of [x]. *)
Fixpoint le_bytes (n : nat) (x : Z) : list Z :=
  match n with
  | O => []
  | S n' => (x mod 256) :: le_bytes n' (x / 256)
  end.

Fixpoint le_word (bs : list Z) : Z :=
  match bs with
  | [] => 0
  | b :: r => b + 256 * le_word r
  end.

Definition pad (msg : list Z) : list Z :=
  let len := Z.of_nat (List.length msg) in
  msg ++ [128] ++ repeat 0 (Z.to_nat ((55 - len) mod 64)) ++ le_bytes 8 (8 * len).

Fixpoint chunks (size : nat) (count : nat) (l : list Z) : list (list Z) :=
  match count with
  | O => []
  | S n => firstn size l :: chunks size n (skipn size l)
  end.

Definition words_of_block (block : list Z) : list Z :=
  map le_word (chunks 4 16 block).

Definition step (M : list Z) (st : state) (i : nat) : state :=
  let '(a, b, c, d) := st in
  let iz := Z.of_nat i in
  let '(f, g) :=
    if iz <? 16 then (Z.lor (Z.land b c) (Z.land (not32 b) d), iz)
    else if iz <? 32 then
      (Z.lor (Z.land d b) (Z.land (not32 d) c), (5 * iz + 1) mod 16)
    else if iz <? 48 then (Z.lxor b (Z.lxor c d), (3 * iz + 5) mod 16)
    else (Z.lxor c (Z.lor b (not32 d)), (7 * iz) mod 16) in
  let f' := add32 (add32 (add32 f a) (nth i sines 0)) (nth (Z.to_nat g) M 0) in
  (d, add32 b (rotl32 f' (nth i shifts 0)), b, c).

Definition process_block (st : state) (block : list Z) : state :=
  let M := words_of_block block in
  let '(a, b, c, d) := st in
  let '(a', b', c', d') := fold_left (step M) (seq 0 64) st in
  (add32 a a', add32 b b', add32 c c', add32 d d').

Definition digest_state (msg : list Z) : state :=
  let padded := pad msg in
  fold_left process_block (chunks 64 (List.length padded / 64) padded) init.

Definition hex_digit (n : Z) : ascii :=
  nth (Z.to_nat n)
      (list_ascii_of_string "0123456789abcdef") "0"%char.

Definition hex_byte (b : Z) (rest : string) : string :=
  String (hex_digit (b / 16)) (String (hex_digit (b mod 16)) rest).

Definition hex_word (w : Z) (rest : string) : string :=
  hex_byte (w mod 256)
    (hex_byte ((w / 256) mod 256)
       (hex_byte ((w / 65536) mod 256)
          (hex_byte ((w / 16777216) mod 256) rest))).

Definition hex_state (st : state) : string :=
  let '(a, b, c, d) := st in
  hex_word a (hex_word b (hex_word c (hex_word d EmptyString))).

(** [hashlib.md5(s.encode()).hexdigest()] *)
Definition hexdigest (s : string) : string :=
  hex_state (digest_state (bytes_of_string s)).

End MD5.

(* ====================================================================== *)
(** * Results of fallible code *)
(* ====================================================================== *)

Inductive result (E A : Type) : Type :=
| Ok (a : A)
| Raise (e : E).

Arguments Ok {E A} a.
Arguments Raise {E A} e.

Definition bind {E A B : Type} (m : result E A) (k : A -> result E B)
  : result E B :=
  match m with
  | Ok a => k a
  | Raise e => Raise e
  end.

Notation "x <- m ;; k" := (bind m (fun x => k))
  (at level 61, m at next level, right associativity).

Definition datetime : Type := Z.

(* ====================================================================== *)
(** * collections.OrderedDict *)
(* ====================================================================== *)

Module OrderedDict.

Section Ops.
Context {A : Type}.

Definition t : Type := list (string * A).

Definition keys (d : t) : list string := map fst d.

(** [d[k]] *)
Fixpoint getitem (k : string) (d : t) : option A :=
  match d with
  | [] => None
  | (k', a) :: r => if String.eqb k k' then Some a else getitem k r
  end.

(** [k in d] *)
Definition contains (k : string) (d : t) : bool :=
  match getitem k d with
  | Some _ => true
  | None => false
  end.

(** [del d[k]] *)
Fixpoint delitem (k : string) (d : t) : t :=
  match d with
  | [] => []
  | (k', a) :: r =>
      if String.eqb k k' then delitem k r else (k', a) :: delitem k r
  end.

(** [d[k] = a]: an existing key keeps its position, a new key goes last. *)
Fixpoint setitem (k : string) (a : A) (d : t) : t :=
  match d with
  | [] => [(k, a)]
  | (k', a') :: r =>
      if String.eqb k k' then (k, a) :: r else (k', a') :: setitem k a r
  end.

(** [d.move_to_end(k)]; both call sites of the source hold the key, so the
    [KeyError] of a missing key is not reachable and is modelled as a no-op. *)
Definition move_to_end (k : string) (d : t) : t :=
  match getitem k d with
  | Some a => delitem k d ++ [(k, a)]
  | None => d
  end.

(** [next(iter(d))] *)
Definition first_key (d : t) : option string :=
  match d with
  | [] => None
  | (k, _) :: _ => Some k
  end.

(** The keys of a dictionary are pairwise distinct. *)
Definition wf (d : t) : Prop := NoDup (keys d).
End Ops.

Arguments t A : clear implicits.

End OrderedDict.

(* ====================================================================== *)
(** * [CacheEntry] *)
(* ====================================================================== *)

Module CacheEntry.

Record t (V : Type) : Type := make {
  key : string;
  value : V;
  created_at : datetime;
  expires_at : datetime;
  hit_count : Z;
  last_accessed : option datetime;
  case_status : string
}.

Arguments make {V}.
Arguments key {V}.
Arguments value {V}.
Arguments created_at {V}.
Arguments expires_at {V}.
Arguments hit_count {V}.
Arguments last_accessed {V}.
Arguments case_status {V}.

(** [datetime.now() >= self.expires_at] *)
Definition is_expired {V} (now : datetime) (e : t V) : bool :=
  expires_at e <=? now.

Definition increment_hits {V} (now : datetime) (e : t V) : t V :=
  make (key e) (value e) (created_at e) (expires_at e)
       (hit_count e + 1) (Some now) (case_status e).

End CacheEntry.

(* ====================================================================== *)
(** * [LRUCache]: the fast in-process tier *)
(* ====================================================================== *)

Module LRUCache.

Record t (V : Type) : Type := make {
  max_size : Z;
  default_ttl : Z;
  cache : OrderedDict.t (CacheEntry.t V)
}.

Arguments make {V}.
Arguments max_size {V}.
Arguments default_ttl {V}.
Arguments cache {V}.

Record Stats : Type := make_stats {
  size : Z;
  stats_max_size : Z;
  utilization : Q;
  total_hits : Z;
  expired_entries : Z;
  default_ttl_seconds : Z
}.

Section Ops.
Context {V : Type}.

(** [LRUCache(max_size, default_ttl)] *)
Definition init (max_size default_ttl : Z) : t V :=
  make max_size default_ttl [].

Definition with_cache (c : t V) (d : OrderedDict.t (CacheEntry.t V)) : t V :=
  make (max_size c) (default_ttl c) d.

Definition len (c : t V) : Z := Z.of_nat (List.length (cache c)).

Definition get (c : t V) (key : string) (now : datetime) : option V * t V :=
  match OrderedDict.getitem key (cache c) with
  | None => (None, c)
  | Some entry =>
      if CacheEntry.is_expired now entry then
        (None, with_cache c (OrderedDict.delitem key (cache c)))
      else
        let moved := OrderedDict.move_to_end key (cache c) in
        let entry' := CacheEntry.increment_hits now entry in
        (Some (CacheEntry.value entry),
         with_cache c (OrderedDict.setitem key entry' moved))
  end.

(** [ttl or self.default_ttl] *)
Definition ttl_or_default (c : t V) (ttl : option Z) : Z :=
  match ttl with
  | Some n => if n =? 0 then default_ttl c else n
  | None => default_ttl c
  end.

Definition set (c : t V) (key : string) (value : V) (ttl : option Z)
    (case_status : string) (now : datetime) : t V :=
  let ttl := ttl_or_default c ttl in
  let entry := CacheEntry.make key value now (now + ttl) 0 None case_status in
  let d := OrderedDict.setitem key entry (cache c) in
  let d := OrderedDict.move_to_end key d in
  if Z.of_nat (List.length d) >? max_size c then
    match OrderedDict.first_key d with
    | Some oldest_key => with_cache c (OrderedDict.delitem oldest_key d)
    | None => with_cache c d
    end
  else with_cache c d.

Definition delete (c : t V) (key : string) : bool * t V :=
  if OrderedDict.contains key (cache c) then
    (true, with_cache c (OrderedDict.delitem key (cache c)))
  else (false, c).

Definition clear (c : t V) : Z * t V := (len c, with_cache c []).

Definition get_stats (c : t V) (now : datetime) : Stats :=
  let entries := map snd (cache c) in
  make_stats
    (len c)
    (max_size c)
    (if max_size c >? 0 then (inject_Z (len c) / inject_Z (max_size c))%Q
     else 0%Q)
    (fold_right Z.add 0 (map CacheEntry.hit_count entries))
    (Z.of_nat (List.length (filter (CacheEntry.is_expired now) entries)))
    (default_ttl c).
End Ops.

End LRUCache.

(* ====================================================================== *)
(** * [CacheManager]: the tiered cache *)
(* ====================================================================== *)

Module CacheManager.

Definition MEMORY_TTL : Z := 600.
Definition ACTIVE_CASE_TTL : Z := 3600.
Definition CLOSED_CASE_TTL : Z := 86400.

(** [self.stats] *)
Record Stats : Type := make_stats {
  memory_hits : Z;
  memory_misses : Z;
  redis_hits : Z;
  redis_misses : Z;
  db_hits : Z;
  db_misses : Z;
  total_sets : Z;
  total_deletes : Z
}.

Definition zero_stats : Stats := make_stats 0 0 0 0 0 0 0 0.

Definition incr_memory_hits (s : Stats) : Stats :=
  make_stats (memory_hits s + 1) (memory_misses s) (redis_hits s)
    (redis_misses s) (db_hits s) (db_misses s) (total_sets s) (total_deletes s).
Definition incr_memory_misses (s : Stats) : Stats :=
  make_stats (memory_hits s) (memory_misses s + 1) (redis_hits s)
    (redis_misses s) (db_hits s) (db_misses s) (total_sets s) (total_deletes s).
Definition incr_redis_hits (s : Stats) : Stats :=
  make_stats (memory_hits s) (memory_misses s) (redis_hits s + 1)
    (redis_misses s) (db_hits s) (db_misses s) (total_sets s) (total_deletes s).
Definition incr_redis_misses (s : Stats) : Stats :=
  make_stats (memory_hits s) (memory_misses s) (redis_hits s)
    (redis_misses s + 1) (db_hits s) (db_misses s) (total_sets s) (total_deletes s).
Definition incr_db_hits (s : Stats) : Stats :=
  make_stats (memory_hits s) (memory_misses s) (redis_hits s)
    (redis_misses s) (db_hits s + 1) (db_misses s) (total_sets s) (total_deletes s).
Definition incr_db_misses (s : Stats) : Stats :=
  make_stats (memory_hits s) (memory_misses s) (redis_hits s)
    (redis_misses s) (db_hits s) (db_misses s + 1) (total_sets s) (total_deletes s).
Definition incr_total_sets (s : Stats) : Stats :=
  make_stats (memory_hits s) (memory_misses s) (redis_hits s)
    (redis_misses s) (db_hits s) (db_misses s) (total_sets s + 1) (total_deletes s).
Definition add_total_deletes (n : Z) (s : Stats) : Stats :=
  make_stats (memory_hits s) (memory_misses s) (redis_hits s)
    (redis_misses s) (db_hits s) (db_misses s) (total_sets s) (total_deletes s + n).

(** The two service clients are opaque handles; the manager only tests
    them against [None]. *)
Inductive Client : Type := client_handle.

Record t (V : Type) : Type := make {
  supabase_client : option Client;
  redis_client : option Client;
  enable_memory_cache : bool;
  enable_redis_cache : bool;
  enable_db_cache : bool;
  memory_cache : option (LRUCache.t V);
  stats : Stats
}.

Arguments make {V}.
Arguments supabase_client {V}.
Arguments redis_client {V}.
Arguments enable_memory_cache {V}.
Arguments enable_redis_cache {V}.
Arguments enable_db_cache {V}.
Arguments memory_cache {V}.
Arguments stats {V}.

Definition is_not_None {A} (o : option A) : bool :=
  match o with Some _ => true | None => false end.

(** [key_parts = [client_id, case_id, scope]]; a truthy [dimension] is
    appended. *)
Definition key_parts (client_id case_id scope : string)
    (dimension : option string) : list string :=
  [client_id; case_id; scope] ++
  match dimension with
  | Some d => if Str.truthy d then [d] else []
  | None => []
  end.

Definition _generate_cache_key (client_id case_id scope : string)
    (dimension : option string) : string :=
  let key_string :=
    String.concat ":" (key_parts client_id case_id scope dimension) in
  let key_hash := MD5.hexdigest key_string in
  ("context:" ++ client_id ++ ":" ++ case_id ++ ":" ++ scope ++ ":"
     ++ substring 0 8 key_hash)%string.

(** The dictionary returned by [get_stats]: the counters, the statistics of
    the memory tier when it is enabled, and the hit rates. *)
Record Report : Type := make_report {
  counters : Stats;
  memory_cache_stats : option LRUCache.Stats;
  memory_hit_rate : Q;
  redis_hit_rate : Q;
  db_hit_rate : Q;
  overall_hit_rate : Q
}.

(** [hits / total if total > 0 else 0.0] *)
Definition rate (hits total : Z) : Q :=
  if total >? 0 then (inject_Z hits / inject_Z total)%Q else 0%Q.

Section Ops.
Context {V : Type}.

(** [CacheManager.__init__] *)
Definition init (supabase_client redis_client : option Client)
    (enable_memory_cache enable_redis_cache enable_db_cache : bool) : t V :=
  make supabase_client redis_client
    enable_memory_cache
    (enable_redis_cache && is_not_None redis_client)
    (enable_db_cache && is_not_None supabase_client)
    (if enable_memory_cache then Some (LRUCache.init 1000 MEMORY_TTL)
     else None)
    zero_stats.

Definition with_memory (m : t V) (mc : option (LRUCache.t V)) : t V :=
  make (supabase_client m) (redis_client m) (enable_memory_cache m)
    (enable_redis_cache m) (enable_db_cache m) mc (stats m).

Definition with_stats (m : t V) (s : Stats) : t V :=
  make (supabase_client m) (redis_client m) (enable_memory_cache m)
    (enable_redis_cache m) (enable_db_cache m) (memory_cache m) s.

(** [self.enable_memory_cache and self.memory_cache] *)
Definition memory_tier (m : t V) : option (LRUCache.t V) :=
  if enable_memory_cache m then memory_cache m else None.

(** ** Tier 2 and tier 3: the placeholders of the source. *)

Definition _get_from_redis (m : t V) (key : string) : option V := None.
Definition _set_in_redis (m : t V) (key : string) (value : V) (ttl : Z)
  : t V := m.
Definition _delete_from_redis (m : t V) (key : string) : bool * t V :=
  (false, m).

Definition _get_from_database (m : t V) (key : string) : option V := None.
Definition _set_in_database (m : t V) (key : string) (value : V)
    (case_id case_status : string) : t V := m.
Definition _delete_from_database (m : t V) (key : string) : bool * t V :=
  (false, m).

(** Write [value] into the memory tier when that tier is enabled. *)
Definition memory_set (m : t V) (cache_key : string) (value : V)
    (case_status : string) (now : datetime) : t V :=
  match memory_tier m with
  | Some mc =>
      with_memory m
        (Some (LRUCache.set mc cache_key value (Some MEMORY_TTL)
                 case_status now))
  | None => m
  end.

(** Tier 3 of [get]. *)
Definition get_tier3 (m : t V) (cache_key : string) (now : datetime)
  : option V * t V :=
  if enable_db_cache m then
    match _get_from_database m cache_key with
    | Some value =>
        let m := with_stats m (incr_db_hits (stats m)) in
        let m := if enable_redis_cache m
                 then _set_in_redis m cache_key value ACTIVE_CASE_TTL
                 else m in
        let m := memory_set m cache_key value "active" now in
        (Some value, m)
    | None => (None, with_stats m (incr_db_misses (stats m)))
    end
  else (None, m).

(** Tier 2 of [get], falling through to tier 3. *)
Definition get_tier2 (m : t V) (cache_key : string) (now : datetime)
  : option V * t V :=
  if enable_redis_cache m then
    match _get_from_redis m cache_key with
    | Some value =>
        let m := with_stats m (incr_redis_hits (stats m)) in
        let m := memory_set m cache_key value "active" now in
        (Some value, m)
    | None =>
        get_tier3 (with_stats m (incr_redis_misses (stats m))) cache_key now
    end
  else get_tier3 m cache_key now.

Definition get (m : t V) (client_id case_id scope : string)
    (dimension : option string) (now : datetime) : option V * t V :=
  let cache_key := _generate_cache_key client_id case_id scope dimension in
  match memory_tier m with
  | Some mc =>
      let '(value, mc') := LRUCache.get mc cache_key now in
      let m := with_memory m (Some mc') in
      match value with
      | Some v => (Some v, with_stats m (incr_memory_hits (stats m)))
      | None =>
          get_tier2 (with_stats m (incr_memory_misses (stats m)))
            cache_key now
      end
  | None => get_tier2 m cache_key now
  end.

Definition set (m : t V) (client_id case_id scope : string) (value : V)
    (case_status : string) (dimension : option string) (now : datetime)
  : t V :=
  let cache_key := _generate_cache_key client_id case_id scope dimension in
  let redis_db_ttl :=
    if String.eqb case_status "active" then ACTIVE_CASE_TTL
    else CLOSED_CASE_TTL in
  let m := memory_set m cache_key value case_status now in
  let m := if enable_redis_cache m
           then _set_in_redis m cache_key value redis_db_ttl else m in
  let m := if enable_db_cache m
           then _set_in_database m cache_key value case_id case_status
           else m in
  with_stats m (incr_total_sets (stats m)).

(** The body shared by both branches of [delete]: remove [cache_key] from
    every enabled tier, counting the removals. *)
Definition delete_key (acc : Z * t V) (cache_key : string) : Z * t V :=
  let '(deleted_count, m) := acc in
  let '(deleted_count, m) :=
    match memory_tier m with
    | Some mc =>
        let '(removed, mc') := LRUCache.delete mc cache_key in
        (if removed then deleted_count + 1 else deleted_count,
         with_memory m (Some mc'))
    | None => (deleted_count, m)
    end in
  let '(deleted_count, m) :=
    if enable_redis_cache m then
      let '(removed, m') := _delete_from_redis m cache_key in
      (if removed then deleted_count + 1 else deleted_count, m')
    else (deleted_count, m) in
  if enable_db_cache m then
    let '(removed, m') := _delete_from_database m cache_key in
    (if removed then deleted_count + 1 else deleted_count, m')
  else (deleted_count, m).

Definition known_scopes : list string :=
  ["minimal"; "standard"; "comprehensive"].

Definition delete (m : t V) (client_id case_id : string)
    (scope dimension : option string) : Z * t V :=
  let '(deleted_count, m) :=
    match scope with
    | Some s =>
        if Str.truthy s then
          delete_key (0, m) (_generate_cache_key client_id case_id s dimension)
        else
          fold_left
            (fun acc scope_name =>
               delete_key acc
                 (_generate_cache_key client_id case_id scope_name dimension))
            known_scopes (0, m)
    | None =>
        fold_left
          (fun acc scope_name =>
             delete_key acc
               (_generate_cache_key client_id case_id scope_name dimension))
          known_scopes (0, m)
    end in
  (deleted_count, with_stats m (add_total_deletes deleted_count (stats m))).

Definition invalidate_case (m : t V) (client_id case_id : string)
  : Z * t V :=
  delete m client_id case_id None None.

Definition reset_stats (m : t V) : t V := with_stats m zero_stats.
Definition get_stats (m : t V) (now : datetime) : Report :=
  let stats := stats m in
  let memory_cache_stats :=
    match memory_tier m with
    | Some mc => Some (LRUCache.get_stats mc now)
    | None => None
    end in
  let total_memory_ops := memory_hits stats + memory_misses stats in
  let total_redis_ops := redis_hits stats + redis_misses stats in
  let total_db_ops := db_hits stats + db_misses stats in
  let total_hits := memory_hits stats + redis_hits stats + db_hits stats in
  let total_ops := total_memory_ops + total_redis_ops + total_db_ops in
  make_report stats memory_cache_stats
    (rate (memory_hits stats) total_memory_ops)
    (rate (redis_hits stats) total_redis_ops)
    (rate (db_hits stats) total_db_ops)
    (rate total_hits total_ops).

End Ops.

(** The factory function [create_cache_manager]. *)
Definition create_cache_manager {V : Type}
    (supabase_client redis_client : option Client)
    (enable_memory_cache enable_redis_cache enable_db_cache : bool) : t V :=
  init supabase_client redis_client enable_memory_cache enable_redis_cache
    enable_db_cache.

End CacheManager.

(* ====================================================================== *)
(** * Dimension models ([src/models/dimensions.py])

    Of every model the attributes read by the aggregator are kept; the
    elements of the lists carry their identifying attributes only. *)
(* ====================================================================== *)

Record Party : Type := { party_name : string; party_role : string }.
Record Judge : Type := { judge_name : string; judge_court : string }.
Record Attorney : Type := { attorney_name : string }.
Record Witness : Type := { witness_name : string; witness_type : string }.
Record CauseOfAction : Type := { cause_name : string; cause_description : string }.
Record Citation : Type := { citation_text : string; citation_type : string }.
Record TimelineEvent : Type := { event_date : datetime; event_type : string }.
Record Deadline : Type := { deadline_date : datetime; deadline_type : string }.
Record LegalTheory : Type := { theory_name : string; theory_description : string }.
Record PrecedentAnalysis : Type := { precedent_case_name : string; precedent_citation : string }.

Module WhoContext.
Record t : Type := make {
  case_id : string;
  case_name : string;
  parties : list Party;
  judges : list Judge;
  attorneys : list Attorney;
  witnesses : list Witness
}.
End WhoContext.

Module WhatContext.
Record t : Type := make {
  case_id : string;
  case_name : string;
  causes_of_action : list CauseOfAction;
  legal_issues : list string;
  statutes : list Citation;
  case_citations : list Citation
}.
End WhatContext.

Module WhereContext.
Record t : Type := make {
  case_id : string;
  case_name : string;
  primary_jurisdiction : string;
  court : string;
  venue : string
}.
End WhereContext.

(** [filing_date: datetime] is a required field of the model: a
    [WhenContext] always carries one. *)
Module WhenContext.
Record t : Type := make {
  case_id : string;
  case_name : string;
  filing_date : datetime;
  timeline : list TimelineEvent;
  upcoming_deadlines : list Deadline;
  past_deadlines : list Deadline
}.
End WhenContext.

Module WhyContext.
Record t : Type := make {
  case_id : string;
  case_name : string;
  legal_theories : list LegalTheory;
  supporting_precedents : list PrecedentAnalysis;
  opposing_precedents : list PrecedentAnalysis
}.
End WhyContext.

(** Exceptions raised by the modelled code.  The last two are raised objects
    whose class derives from [BaseException] but not from [Exception]:
    [asyncio.CancelledError], and any other such class.  ([KeyboardInterrupt]
    and [SystemExit], which stop the event loop itself, are outside the
    model.) *)
Inductive Exn : Type :=
| InvalidScope (scope : string)               (* ValueError *)
| InvalidDimensionNames (invalid : list string) (* ValueError *)
| InvalidDimension (name : string)            (* ValueError *)
| AttributeError
| ValidationError (field : string)            (* pydantic *)
| AnalyzerError (message : string)            (* raised by a collaborator *)
| CancelledError                              (* asyncio; not an Exception *)
| OtherBaseException (name : string).         (* not an Exception *)

(** [isinstance(e, Exception)] *)
Definition is_Exception (e : Exn) : bool :=
  match e with
  | CancelledError => false
  | OtherBaseException _ => false
  | _ => true
  end.

(** The values a dimension result takes ([Any] in the source): one of the
    five typed contexts, or an exception object that the fan-out kept as the
    result of its dimension. *)
Inductive DimensionContext : Type :=
| Who (c : WhoContext.t)
| What (c : WhatContext.t)
| Where (c : WhereContext.t)
| When (c : WhenContext.t)
| Why (c : WhyContext.t)
| Raised (e : Exn).

(** [hasattr(context, 'case_name')] *)
Definition has_case_name (c : DimensionContext) : bool :=
  match c with
  | Raised _ => false
  | _ => true
  end.

(** [context.case_name]; an exception object has no such attribute, and the
    only reader of the attribute guards it with [hasattr]: the empty name
    stands for the missing attribute. *)
Definition context_case_name (c : DimensionContext) : string :=
  match c with
  | Who c => WhoContext.case_name c
  | What c => WhatContext.case_name c
  | Where c => WhereContext.case_name c
  | When c => WhenContext.case_name c
  | Why c => WhyContext.case_name c
  | Raised _ => ""
  end.

(** [bool(d)] for a [datetime]: the class defines neither [__bool__] nor
    [__len__], every instance is truthy. *)
Definition bool_datetime (d : datetime) : bool := true.

(** [Field(ge=0.0, le=1.0)] *)
Definition in_unit_interval (x : Q) : bool :=
  Qle_bool 0 x && Qle_bool x 1.

Module ContextResponse.
Record t : Type := make {
  query_id : string;
  case_id : string;
  case_name : string;
  who : option WhoContext.t;
  what : option WhatContext.t;
  where_ : option WhereContext.t;
  when : option WhenContext.t;
  why : option WhyContext.t;
  context_score : Q;
  is_complete : bool;
  cached : bool;
  execution_time_ms : Z;
  timestamp : datetime
}.

(** The validating constructor [ContextResponse(...)]. *)
Definition new (query_id case_id case_name : string)
    (who : option WhoContext.t) (what : option WhatContext.t)
    (where_ : option WhereContext.t) (when : option WhenContext.t)
    (why : option WhyContext.t) (context_score : Q)
    (is_complete cached : bool) (execution_time_ms : Z)
    (timestamp : datetime) : result Exn t :=
  if in_unit_interval context_score then
    Ok (make query_id case_id case_name who what where_ when why
          context_score is_complete cached execution_time_ms timestamp)
  else Raise (ValidationError "context_score").

Definition set_cached (r : t) (b : bool) : t :=
  make (query_id r) (case_id r) (case_name r) (who r) (what r) (where_ r)
    (when r) (why r) (context_score r) (is_complete r) b
    (execution_time_ms r) (timestamp r).

(** [get_dimension_count] *)
Definition populated {A} (o : option A) : Z :=
  match o with Some _ => 1 | None => 0 end.

Definition get_dimension_count (r : t) : Z :=
  populated (who r) + populated (what r) + populated (where_ r)
  + populated (when r) + populated (why r).
End ContextResponse.

Module DimensionQualityMetrics.
Record t : Type := make {
  dimension_name : string;
  completeness_score : Q;
  data_points : Z;
  confidence_avg : Q;
  is_sufficient : bool
}.

(** The validating constructor: both scores are constrained to [[0,1]], and
    the validator of [is_sufficient] recomputes it from the completeness
    score. *)
Definition new (dimension_name : string) (completeness_score : Q)
    (data_points : Z) (confidence_avg : Q) (is_sufficient : bool)
  : result Exn t :=
  if negb (in_unit_interval completeness_score) then
    Raise (ValidationError "completeness_score")
  else if negb (in_unit_interval confidence_avg) then
    Raise (ValidationError "confidence_avg")
  else
    Ok (make dimension_name completeness_score data_points confidence_avg
          (Qle_bool (85 # 100) completeness_score)).
End DimensionQualityMetrics.

(* ====================================================================== *)
(** * [ContextBuilder]: the dimension aggregator *)
(* ====================================================================== *)

Module ContextBuilder.

Definition COMPLETENESS_THRESHOLD : Q := 85 # 100.

(** The class attribute [SCOPES], in its definition order. *)
Definition SCOPES : list (string * list string) :=
  [("minimal", ["WHO"; "WHERE"]);
   ("standard", ["WHO"; "WHAT"; "WHERE"; "WHEN"]);
   ("comprehensive", ["WHO"; "WHAT"; "WHERE"; "WHEN"; "WHY"])].

Definition valid_dimensions : list string :=
  ["WHO"; "WHAT"; "WHERE"; "WHEN"; "WHY"].

Fixpoint lookup {A} (k : string) (d : list (string * A)) : option A :=
  match d with
  | [] => None
  | (k', a) :: r => if String.eqb k k' then Some a else lookup k r
  end.

(** The five analyzers are collaborators.  Within one request each of them
    is awaited at most once; its outcome for [(client_id, case_id)] is a
    typed context or a raised exception. *)
Record Analyzers : Type := {
  who_analyzer : string -> string -> result Exn WhoContext.t;
  what_analyzer : string -> string -> result Exn WhatContext.t;
  where_analyzer : string -> string -> result Exn WhereContext.t;
  when_analyzer : string -> string -> result Exn WhenContext.t;
  why_analyzer : string -> string -> result Exn WhyContext.t
}.

(** The cached value is [context.model_dump()], from which
    [ContextResponse( **cached )] rebuilds the response: the cache of the
    builder holds responses. *)
Definition Cached : Type := ContextResponse.t.

(** The state a request runs in: the shared cache manager and the log of
    analyzer invocations (the analyzer I/O performed so far). *)
Record World : Type := make_world {
  cache_manager : CacheManager.t Cached;
  analyzer_calls : list string
}.

(** The values a request draws from its environment: the clock when the
    request starts and when the response is built, and the fresh [uuid4] of
    the response. *)
Record Env : Type := {
  now_start : datetime;
  now_end : datetime;
  fresh_uuid : string
}.

(** ** [_determine_dimensions] *)

(** [set(include_dimensions) - valid_dimensions] *)
Definition invalid_dimensions (include_dimensions : list string) : list string :=
  nodup string_dec
    (filter (fun d => negb (Str.mem d valid_dimensions)) include_dimensions).

Definition _determine_dimensions (scope : string)
    (include_dimensions : option (list string)) : result Exn (list string) :=
  let by_scope :=
    match lookup scope SCOPES with
    | Some dims => Ok dims
    | None => Raise (InvalidScope scope)
    end in
  match include_dimensions with
  | Some (d :: r) =>
      match invalid_dimensions (d :: r) with
      | [] => Ok (d :: r)
      | invalid => Raise (InvalidDimensionNames invalid)
      end
  | Some [] => by_scope
  | None => by_scope
  end.

(** ** [_build_dimensions_parallel] *)

(** [analyzer.analyze(client_id, case_id)] for the analyzer of a dimension
    name (one of the five): its typed context, seen as [Any]. *)
Definition wrap {A} (inj : A -> DimensionContext) (r : result Exn A)
  : result Exn DimensionContext :=
  match r with
  | Ok c => Ok (inj c)
  | Raise e => Raise e
  end.

Definition analyze (az : Analyzers) (name client_id case_id : string)
  : result Exn DimensionContext :=
  if String.eqb name "WHO" then wrap Who (who_analyzer az client_id case_id)
  else if String.eqb name "WHAT" then
    wrap What (what_analyzer az client_id case_id)
  else if String.eqb name "WHERE" then
    wrap Where (where_analyzer az client_id case_id)
  else if String.eqb name "WHEN" then
    wrap When (when_analyzer az client_id case_id)
  else wrap Why (why_analyzer az client_id case_id).

(** One gathered task ([return_exceptions=True]): a returned context is
    kept; a raised object that is an instance of [Exception] is logged and
    recorded as [None]; any other raised object is itself kept as the result
    of the dimension ([results[name] = result]). *)
Definition task (az : Analyzers) (client_id case_id name : string)
  : option DimensionContext :=
  match analyze az name client_id case_id with
  | Ok c => Some c
  | Raise e => if is_Exception e then None else Some (Raised e)
  end.

(** The keys of [tasks]: the five names in their fixed order, each kept
    when it occurs in [dimensions]. *)
Definition task_names (dimensions : list string) : list string :=
  filter (fun name => Str.mem name dimensions) valid_dimensions.

Definition _build_dimensions_parallel (az : Analyzers) (w : World)
    (client_id case_id : string) (dimensions : list string)
  : list (string * option DimensionContext) * World :=
  let names := task_names dimensions in
  (map (fun name => (name, task az client_id case_id name)) names,
   make_world (cache_manager w) (analyzer_calls w ++ names)).

(** ** [_score_dimension] *)

Definition count (n : nat) : Z := Z.of_nat n.

Definition _score_dimension (dimension_name : string)
    (context : option DimensionContext) : result Exn Q :=
  match context with
  | None => Ok 0%Q
  | Some context =>
      if String.eqb dimension_name "WHO" then
        match context with
        | Who c =>
            let data_points :=
              count (List.length (WhoContext.parties c))
              + count (List.length (WhoContext.judges c))
              + count (List.length (WhoContext.attorneys c))
              + count (List.length (WhoContext.witnesses c)) in
            Ok (Qmin 1 (inject_Z data_points / 10))%Q
        | _ => Raise AttributeError
        end
      else if String.eqb dimension_name "WHAT" then
        match context with
        | What c =>
            let data_points :=
              count (List.length (WhatContext.causes_of_action c))
              + count (List.length (WhatContext.legal_issues c))
              + count (List.length (WhatContext.statutes c))
              + count (List.length (WhatContext.case_citations c)) in
            Ok (Qmin 1 (inject_Z data_points / 10))%Q
        | _ => Raise AttributeError
        end
      else if String.eqb dimension_name "WHERE" then
        match context with
        | Where c =>
            let has_jurisdiction := Str.truthy (WhereContext.primary_jurisdiction c) in
            let has_court := Str.truthy (WhereContext.court c) in
            let has_venue := Str.truthy (WhereContext.venue c) in
            Ok (inject_Z (Z.b2z has_jurisdiction + Z.b2z has_court
                          + Z.b2z has_venue) / 3)%Q
        | _ => Raise AttributeError
        end
      else if String.eqb dimension_name "WHEN" then
        match context with
        | When c =>
            let data_points :=
              count (List.length (WhenContext.timeline c))
              + count (List.length (WhenContext.upcoming_deadlines c))
              + count (List.length (WhenContext.past_deadlines c)) in
            let has_filing_date := bool_datetime (WhenContext.filing_date c) in
            let time_score := Qmin 1 (inject_Z data_points / 10) in
            Ok (time_score + (if has_filing_date then 3 # 10 else 0))%Q
        | _ => Raise AttributeError
        end
      else if String.eqb dimension_name "WHY" then
        match context with
        | Why c =>
            let data_points :=
              count (List.length (WhyContext.legal_theories c))
              + count (List.length (WhyContext.supporting_precedents c))
              + count (List.length (WhyContext.opposing_precedents c)) in
            Ok (Qmin 1 (inject_Z data_points / 10))%Q
        | _ => Raise AttributeError
        end
      else Ok (1 # 2)%Q
  end.

(** ** [_count_data_points] *)

Definition _count_data_points (dimension_name : string)
    (context : option DimensionContext) : result Exn Z :=
  match context with
  | None => Ok 0
  | Some context =>
      if String.eqb dimension_name "WHO" then
        match context with
        | Who c =>
            Ok (count (List.length (WhoContext.parties c))
                + count (List.length (WhoContext.judges c))
                + count (List.length (WhoContext.attorneys c))
                + count (List.length (WhoContext.witnesses c)))
        | _ => Raise AttributeError
        end
      else if String.eqb dimension_name "WHAT" then
        match context with
        | What c =>
            Ok (count (List.length (WhatContext.causes_of_action c))
                + count (List.length (WhatContext.legal_issues c))
                + count (List.length (WhatContext.statutes c))
                + count (List.length (WhatContext.case_citations c)))
        | _ => Raise AttributeError
        end
      else if String.eqb dimension_name "WHERE" then
        match context with
        | Where c =>
            Ok (if Str.truthy (WhereContext.primary_jurisdiction c)
                   && Str.truthy (WhereContext.court c)
                   && Str.truthy (WhereContext.venue c)
                then 3 else 0)
        | _ => Raise AttributeError
        end
      else if String.eqb dimension_name "WHEN" then
        match context with
        | When c =>
            Ok (count (List.length (WhenContext.timeline c))
                + count (List.length (WhenContext.upcoming_deadlines c))
                + count (List.length (WhenContext.past_deadlines c)))
        | _ => Raise AttributeError
        end
      else if String.eqb dimension_name "WHY" then
        match context with
        | Why c =>
            Ok (count (List.length (WhyContext.legal_theories c))
                + count (List.length (WhyContext.supporting_precedents c))
                + count (List.length (WhyContext.opposing_precedents c)))
        | _ => Raise AttributeError
        end
      else Ok 0
  end.

(** ** [_calculate_context_score] *)

Definition is_not_None {A} (o : option A) : bool :=
  match o with Some _ => true | None => false end.

(** The list [dimension_scores] built by the loop over the items. *)
Fixpoint dimension_scores (dimension_results : list (string * option DimensionContext))
  : result Exn (list Q) :=
  match dimension_results with
  | [] => Ok []
  | (dimension_name, context) :: rest =>
      score <- match context with
               | None => Ok 0%Q
               | Some _ => _score_dimension dimension_name context
               end ;;
      scores <- dimension_scores rest ;;
      Ok (score :: scores)
  end.

(** [sum(xs)] *)
Definition sum (xs : list Q) : Q := fold_left Qplus xs 0%Q.

Definition _calculate_context_score
    (dimension_results : list (string * option DimensionContext))
  : result Exn Q :=
  let total_dimensions := count (List.length dimension_results) in
  if total_dimensions =? 0 then Ok 0%Q
  else
    let successful_dimensions :=
      count (List.length
               (filter (fun item => is_not_None (snd item)) dimension_results)) in
    scores <- dimension_scores dimension_results ;;
    let avg_score := (sum scores / inject_Z (count (List.length scores)))%Q in
    let completeness_ratio :=
      (inject_Z successful_dimensions / inject_Z total_dimensions)%Q in
    let final_score := (avg_score * completeness_ratio)%Q in
    Ok (Qmin 1 (Qmax 0 final_score)).

(** ** [_get_case_name] *)

Definition placeholder_name (case_id : string) : string :=
  ("Case " ++ case_id)%string.

Fixpoint _get_case_name
    (dimension_results : list (string * option DimensionContext))
    (case_id : string) : string :=
  match dimension_results with
  | [] => placeholder_name case_id
  | (_, None) :: rest => _get_case_name rest case_id
  | (_, Some context) :: rest =>
      let name := context_case_name context in
      if has_case_name context
         && (Str.truthy name && negb (String.eqb name (placeholder_name case_id)))
      then name
      else _get_case_name rest case_id
  end.

(** ** Cache access of the builder *)

Definition with_cache_manager (w : World) (cm : CacheManager.t Cached) : World :=
  make_world cm (analyzer_calls w).

Definition _check_cache (w : World) (client_id case_id scope : string)
    (now : datetime) : option ContextResponse.t * World :=
  let '(cached_data, cm) :=
    CacheManager.get (cache_manager w) client_id case_id scope None now in
  (cached_data, with_cache_manager w cm).

Definition _cache_context (w : World) (client_id case_id scope : string)
    (context : ContextResponse.t) (now : datetime) : World :=
  let case_status := "active" in
  with_cache_manager w
    (CacheManager.set (cache_manager w) client_id case_id scope context
       case_status None now).

(** ** [build_context] *)

(** [dimension_results.get(name)], passed to the typed field of the
    response. *)
Definition get_result (name : string)
    (dimension_results : list (string * option DimensionContext))
  : option DimensionContext :=
  match lookup name dimension_results with
  | Some r => r
  | None => None
  end.

Definition as_who (c : option DimensionContext) : result Exn (option WhoContext.t) :=
  match c with
  | None => Ok None
  | Some (Who c) => Ok (Some c)
  | Some _ => Raise (ValidationError "who")
  end.
Definition as_what (c : option DimensionContext) : result Exn (option WhatContext.t) :=
  match c with
  | None => Ok None
  | Some (What c) => Ok (Some c)
  | Some _ => Raise (ValidationError "what")
  end.
Definition as_where (c : option DimensionContext) : result Exn (option WhereContext.t) :=
  match c with
  | None => Ok None
  | Some (Where c) => Ok (Some c)
  | Some _ => Raise (ValidationError "where")
  end.
Definition as_when (c : option DimensionContext) : result Exn (option WhenContext.t) :=
  match c with
  | None => Ok None
  | Some (When c) => Ok (Some c)
  | Some _ => Raise (ValidationError "when")
  end.
Definition as_why (c : option DimensionContext) : result Exn (option WhyContext.t) :=
  match c with
  | None => Ok None
  | Some (Why c) => Ok (Some c)
  | Some _ => Raise (ValidationError "why")
  end.

(** The response built from the collected results. *)
Definition make_response (env : Env) (case_id : string)
    (dimension_results : list (string * option DimensionContext))
  : result Exn ContextResponse.t :=
  let who_context := get_result "WHO" dimension_results in
  let what_context := get_result "WHAT" dimension_results in
  let where_context := get_result "WHERE" dimension_results in
  let when_context := get_result "WHEN" dimension_results in
  let why_context := get_result "WHY" dimension_results in
  context_score <- _calculate_context_score dimension_results ;;
  let is_complete := Qle_bool COMPLETENESS_THRESHOLD context_score in
  let execution_time_ms := (now_end env - now_start env) * 1000 in
  let case_name := _get_case_name dimension_results case_id in
  who <- as_who who_context ;;
  what <- as_what what_context ;;
  where_ <- as_where where_context ;;
  when <- as_when when_context ;;
  why <- as_why why_context ;;
  ContextResponse.new (fresh_uuid env) case_id case_name who what where_ when
    why context_score is_complete false execution_time_ms (now_end env).

Definition build_context (az : Analyzers) (w : World) (env : Env)
    (client_id case_id scope : string)
    (include_dimensions : option (list string)) (use_cache : bool)
  : result Exn ContextResponse.t * World :=
  let '(cached_context, w) :=
    if use_cache then _check_cache w client_id case_id scope (now_start env)
    else (None, w) in
  match cached_context with
  | Some cached_context => (Ok (ContextResponse.set_cached cached_context true), w)
  | None =>
      match _determine_dimensions scope include_dimensions with
      | Raise e => (Raise e, w)
      | Ok dimensions_to_build =>
          let '(dimension_results, w) :=
            _build_dimensions_parallel az w client_id case_id
              dimensions_to_build in
          match make_response env case_id dimension_results with
          | Raise e => (Raise e, w)
          | Ok context_response =>
              let w :=
                if ContextResponse.is_complete context_response && use_cache
                then _cache_context w client_id case_id scope context_response
                       (now_end env)
                else w in
              (Ok context_response, w)
          end
      end
  end.

(** ** [get_dimension_quality] and [refresh_dimension] *)

Definition log_call (w : World) (name : string) : World :=
  make_world (cache_manager w) (analyzer_calls w ++ [name]).

Definition get_dimension_quality (az : Analyzers) (w : World)
    (client_id case_id dimension_name : string)
  : result Exn DimensionQualityMetrics.t * World :=
  let dimension_name := Str.upper dimension_name in
  if negb (Str.mem dimension_name valid_dimensions) then
    (Raise (InvalidDimension dimension_name), w)
  else
    let w := log_call w dimension_name in
    (context <- analyze az dimension_name client_id case_id ;;
     score <- _score_dimension dimension_name (Some context) ;;
     data_points <- _count_data_points dimension_name (Some context) ;;
     DimensionQualityMetrics.new dimension_name score data_points (9 # 10)
       (Qle_bool COMPLETENESS_THRESHOLD score),
     w).

Definition refresh_dimension (az : Analyzers) (w : World)
    (client_id case_id dimension_name : string)
  : result Exn DimensionContext * World :=
  let dimension_name := Str.upper dimension_name in
  if negb (Str.mem dimension_name valid_dimensions) then
    (Raise (InvalidDimension dimension_name), w)
  else
    (analyze az dimension_name client_id case_id, log_call w dimension_name).

End ContextBuilder.

(* ====================================================================== *)
(** * The aggregator in double precision

    The scores of the source are Python [float]s: IEEE 754 binary64 numbers
    whose operations round to nearest, ties to even.  [ContextBuilder] above
    reads the arithmetic of the scores in exact rationals; this module reads
    the same methods in binary64, the arithmetic the interpreter executes.
    The two readings differ where a rounding error reaches a comparison:
    the mean of [0.7], [1.0], [0.6 + 0.3] and [0.8] is [17/20] in the
    rationals and [0.8499999999999999] in binary64, below the completeness
    threshold.  Everything that involves no score (dimension selection, the
    fan-out, the display name) is shared with [ContextBuilder]. *)
(* ====================================================================== *)

Module Binary64.
Import PrimFloat.
Import ContextBuilder.

(** [float(n)] for an [int] of the source.  The integers converted are sums
    of list lengths and counts of dimensions, which lie far below [2^53]:
    there the conversion is exact.  (The primitive conversion is the
    correctly rounded one on [0 <= n < 2^63].) *)
Definition of_int (n : Z) : float := of_uint63 (Uint63.of_Z n).

(** [min(1.0, x)]: the builtin keeps its first argument unless the second
    compares smaller. *)
Definition min_1 (x : float) : float :=
  if (x <? 1)%float then x else 1%float.

(** [max(0.0, x)]: the builtin keeps its first argument unless the second
    compares greater. *)
Definition max_0 (x : float) : float :=
  if (0 <? x)%float then x else 0%float.

(** [Field(ge=0.0, le=1.0)] *)
Definition in_unit_interval (x : float) : bool :=
  (0 <=? x)%float && (x <=? 1)%float.

Module ContextResponse.
Record t : Type := make {
  query_id : string;
  case_id : string;
  case_name : string;
  who : option WhoContext.t;
  what : option WhatContext.t;
  where_ : option WhereContext.t;
  when : option WhenContext.t;
  why : option WhyContext.t;
  context_score : float;
  is_complete : bool;
  cached : bool;
  execution_time_ms : Z;
  timestamp : datetime
}.

(** The validating constructor [ContextResponse(...)]. *)
Definition new (query_id case_id case_name : string)
    (who : option WhoContext.t) (what : option WhatContext.t)
    (where_ : option WhereContext.t) (when : option WhenContext.t)
    (why : option WhyContext.t) (context_score : float)
    (is_complete cached : bool) (execution_time_ms : Z)
    (timestamp : datetime) : result Exn t :=
  if in_unit_interval context_score then
    Ok (make query_id case_id case_name who what where_ when why
          context_score is_complete cached execution_time_ms timestamp)
  else Raise (ValidationError "context_score").

Definition set_cached (r : t) (b : bool) : t :=
  make (query_id r) (case_id r) (case_name r) (who r) (what r) (where_ r)
    (when r) (why r) (context_score r) (is_complete r) b
    (execution_time_ms r) (timestamp r).
End ContextResponse.

Definition COMPLETENESS_THRESHOLD : float := 0.85%float.

(** The cache of the builder holds responses. *)
Definition Cached : Type := ContextResponse.t.

Record World : Type := make_world {
  cache_manager : CacheManager.t Cached;
  analyzer_calls : list string
}.

(** ** [_build_dimensions_parallel] *)

Definition _build_dimensions_parallel (az : Analyzers) (w : World)
    (client_id case_id : string) (dimensions : list string)
  : list (string * option DimensionContext) * World :=
  let names := task_names dimensions in
  (map (fun name => (name, task az client_id case_id name)) names,
   make_world (cache_manager w) (analyzer_calls w ++ names)).

(** ** [_score_dimension] *)

Definition _score_dimension (dimension_name : string)
    (context : option DimensionContext) : result Exn float :=
  match context with
  | None => Ok 0%float
  | Some context =>
      if String.eqb dimension_name "WHO" then
        match context with
        | Who c =>
            let data_points :=
              count (List.length (WhoContext.parties c))
              + count (List.length (WhoContext.judges c))
              + count (List.length (WhoContext.attorneys c))
              + count (List.length (WhoContext.witnesses c)) in
            Ok (min_1 (of_int data_points / 10))
        | _ => Raise AttributeError
        end
      else if String.eqb dimension_name "WHAT" then
        match context with
        | What c =>
            let data_points :=
              count (List.length (WhatContext.causes_of_action c))
              + count (List.length (WhatContext.legal_issues c))
              + count (List.length (WhatContext.statutes c))
              + count (List.length (WhatContext.case_citations c)) in
            Ok (min_1 (of_int data_points / 10))
        | _ => Raise AttributeError
        end
      else if String.eqb dimension_name "WHERE" then
        match context with
        | Where c =>
            let has_jurisdiction := Str.truthy (WhereContext.primary_jurisdiction c) in
            let has_court := Str.truthy (WhereContext.court c) in
            let has_venue := Str.truthy (WhereContext.venue c) in
            Ok (of_int (Z.b2z has_jurisdiction + Z.b2z has_court
                        + Z.b2z has_venue) / 3)%float
        | _ => Raise AttributeError
        end
      else if String.eqb dimension_name "WHEN" then
        match context with
        | When c =>
            let data_points :=
              count (List.length (WhenContext.timeline c))
              + count (List.length (WhenContext.upcoming_deadlines c))
              + count (List.length (WhenContext.past_deadlines c)) in
            let has_filing_date := bool_datetime (WhenContext.filing_date c) in
            let time_score := min_1 (of_int data_points / 10) in
            Ok (time_score + (if has_filing_date then 0.3 else 0))%float
        | _ => Raise AttributeError
        end
      else if String.eqb dimension_name "WHY" then
        match context with
        | Why c =>
            let data_points :=
              count (List.length (WhyContext.legal_theories c))
              + count (List.length (WhyContext.supporting_precedents c))
              + count (List.length (WhyContext.opposing_precedents c)) in
            Ok (min_1 (of_int data_points / 10))
        | _ => Raise AttributeError
        end
      else Ok 0.5%float
  end.

(** ** [_calculate_context_score] *)

(** The list [dimension_scores] built by the loop over the items. *)
Fixpoint dimension_scores (dimension_results : list (string * option DimensionContext))
  : result Exn (list float) :=
  match dimension_results with
  | [] => Ok []
  | (dimension_name, context) :: rest =>
      score <- match context with
               | None => Ok 0%float
               | Some _ => _score_dimension dimension_name context
               end ;;
      scores <- dimension_scores rest ;;
      Ok (score :: scores)
  end.

(** [sum(xs)]: the items are added from left to right, each addition
    rounded, as CPython does up to version 3.11.  (From 3.12 on [sum]
    carries a correction term for the rounding errors of the additions.) *)
Definition sum (xs : list float) : float := fold_left add xs 0%float.

Definition _calculate_context_score
    (dimension_results : list (string * option DimensionContext))
  : result Exn float :=
  let total_dimensions := count (List.length dimension_results) in
  if total_dimensions =? 0 then Ok 0%float
  else
    let successful_dimensions :=
      count (List.length
               (filter (fun item => is_not_None (snd item)) dimension_results)) in
    scores <- dimension_scores dimension_results ;;
    let avg_score := (sum scores / of_int (count (List.length scores)))%float in
    let completeness_ratio :=
      (of_int successful_dimensions / of_int total_dimensions)%float in
    let final_score := (avg_score * completeness_ratio)%float in
    Ok (min_1 (max_0 final_score)).

(** ** Cache access of the builder *)

Definition with_cache_manager (w : World) (cm : CacheManager.t Cached) : World :=
  make_world cm (analyzer_calls w).

Definition _check_cache (w : World) (client_id case_id scope : string)
    (now : datetime) : option ContextResponse.t * World :=
  let '(cached_data, cm) :=
    CacheManager.get (cache_manager w) client_id case_id scope None now in
  (cached_data, with_cache_manager w cm).

Definition _cache_context (w : World) (client_id case_id scope : string)
    (context : ContextResponse.t) (now : datetime) : World :=
  let case_status := "active" in
  with_cache_manager w
    (CacheManager.set (cache_manager w) client_id case_id scope context
       case_status None now).

(** ** [build_context] *)

(** The response built from the collected results. *)
Definition make_response (env : Env) (case_id : string)
    (dimension_results : list (string * option DimensionContext))
  : result Exn ContextResponse.t :=
  let who_context := get_result "WHO" dimension_results in
  let what_context := get_result "WHAT" dimension_results in
  let where_context := get_result "WHERE" dimension_results in
  let when_context := get_result "WHEN" dimension_results in
  let why_context := get_result "WHY" dimension_results in
  context_score <- _calculate_context_score dimension_results ;;
  let is_complete := (COMPLETENESS_THRESHOLD <=? context_score)%float in
  let execution_time_ms := (now_end env - now_start env) * 1000 in
  let case_name := _get_case_name dimension_results case_id in
  who <- as_who who_context ;;
  what <- as_what what_context ;;
  where_ <- as_where where_context ;;
  when <- as_when when_context ;;
  why <- as_why why_context ;;
  ContextResponse.new (fresh_uuid env) case_id case_name who what where_ when
    why context_score is_complete false execution_time_ms (now_end env).

Definition build_context (az : Analyzers) (w : World) (env : Env)
    (client_id case_id scope : string)
    (include_dimensions : option (list string)) (use_cache : bool)
  : result Exn ContextResponse.t * World :=
  let '(cached_context, w) :=
    if use_cache then _check_cache w client_id case_id scope (now_start env)
    else (None, w) in
  match cached_context with
  | Some cached_context => (Ok (ContextResponse.set_cached cached_context true), w)
  | None =>
      match _determine_dimensions scope include_dimensions with
      | Raise e => (Raise e, w)
      | Ok dimensions_to_build =>
          let '(dimension_results, w) :=
            _build_dimensions_parallel az w client_id case_id
              dimensions_to_build in
          match make_response env case_id dimension_results with
          | Raise e => (Raise e, w)
          | Ok context_response =>
              let w :=
                if ContextResponse.is_complete context_response && use_cache
                then _cache_context w client_id case_id scope context_response
                       (now_end env)
                else w in
              (Ok context_response, w)
          end
      end
  end.

End Binary64.

(* ====================================================================== *)
(** * Methods of the WHEN model *)
(* ====================================================================== *)

Module WhenContextMethods.

(** [timedelta.days] of a difference of [seconds]: the floor of the
    quotient by the length of a day. *)
Definition days (seconds : Z) : Z := seconds / 86400.

(** [calculate_case_age] *)
Definition calculate_case_age (c : WhenContext.t) (now : datetime) : Z :=
  if bool_datetime (WhenContext.filing_date c) then
    let age := days (now - WhenContext.filing_date c) in
    Z.max 0 age
  else 0.

(** [min(ds, key=lambda d: d.deadline_date)] on a non-empty list: the first
    deadline whose date is minimal. *)
Fixpoint earliest (best : Deadline) (rest : list Deadline) : Deadline :=
  match rest with
  | [] => best
  | d :: r =>
      if deadline_date d <? deadline_date best then earliest d r
      else earliest best r
  end.

(** [get_next_deadline] *)
Definition get_next_deadline (c : WhenContext.t) : option Deadline :=
  match WhenContext.upcoming_deadlines c with
  | [] => None
  | d :: r => Some (earliest d r)
  end.

End WhenContextMethods.

(* ====================================================================== *)
(** * Analyzers ([src/core/dimension_analyzer.py]) *)
(* ====================================================================== *)

Module DimensionAnalyzer.

(** [sum(confidence_scores) / len(confidence_scores) if confidence_scores
    else 0.0] *)
Definition average (confidence_scores : list Q) : Q :=
  match confidence_scores with
  | [] => 0%Q
  | _ =>
      (ContextBuilder.sum confidence_scores
       / inject_Z (Z.of_nat (List.length confidence_scores)))%Q
  end.

(** [calculate_quality_score]; [dimension_name] is the upper-cased class
    name of the analyzer without its [Analyzer] suffix. *)
Definition calculate_quality_score (dimension_name : string) (data_points : Z)
    (confidence_scores : list Q) : result Exn DimensionQualityMetrics.t :=
  let completeness := Qmin 1 (inject_Z data_points / 10)%Q in
  let avg_confidence := average confidence_scores in
  DimensionQualityMetrics.new dimension_name completeness data_points
    avg_confidence (Qle_bool (85 # 100) completeness).

End DimensionAnalyzer.

Module WhenAnalyzer.

(** A column of the case row returned by the relational store: the key may
    be missing, hold [None], hold a value that the body of [analyze] or the
    validation of the model rejects, or hold a value they accept.  For the
    filing date, which is subtracted from the clock before the model sees
    it, the accepted values are the naive [datetime] objects (an ISO string
    is rejected by the subtraction). *)
Inductive Cell (A : Type) : Type :=
| Absent
| Null
| Malformed
| Value (a : A).

Arguments Absent {A}.
Arguments Null {A}.
Arguments Malformed {A}.
Arguments Value {A} a.

(** The columns of the case row that [analyze] reads. *)
Record CaseData : Type := {
  row_filing_date : Cell datetime;
  row_case_name : Cell string;
  row_incident_date : Cell datetime;
  row_discovery_cutoff : Cell datetime;
  row_motion_deadline : Cell datetime;
  row_trial_date : Cell datetime;
  row_statute_of_limitations : Cell datetime
}.

Definition empty_row : CaseData :=
  {| row_filing_date := Absent; row_case_name := Absent;
     row_incident_date := Absent; row_discovery_cutoff := Absent;
     row_motion_deadline := Absent; row_trial_date := Absent;
     row_statute_of_limitations := Absent |}.

(** An [Optional[datetime]] field of the model accepts a missing key
    ([.get] gives [None]), [None] and a valid value. *)
Definition optional_date (c : Cell datetime) : bool :=
  match c with
  | Malformed => false
  | _ => true
  end.

(** The five optional date columns pass the validation of the model. *)
Definition optional_dates_valid (row : CaseData) : bool :=
  optional_date (row_incident_date row)
  && optional_date (row_discovery_cutoff row)
  && optional_date (row_motion_deadline row)
  && optional_date (row_trial_date row)
  && optional_date (row_statute_of_limitations row).

(** [_query_case_dates]: any failure of the query, and an empty answer, give
    the empty row. *)
Definition _query_case_dates (answer : result Exn (option CaseData)) : CaseData :=
  match answer with
  | Ok (Some row) => row
  | Ok None => empty_row
  | Raise _ => empty_row
  end.

(** The two placeholders of the source. *)
Definition _build_timeline (client_id case_id : string) : list TimelineEvent := [].
Definition _get_deadlines (client_id case_id : string) : list Deadline := [].

(** [_calculate_urgency] *)
Definition _calculate_urgency (upcoming_deadlines : list Deadline)
    (case_age : Z) (now : datetime) : Q :=
  match upcoming_deadlines with
  | [] => (3 # 10)%Q
  | _ =>
      let within (n : Z) (d : Deadline) :=
        WhenContextMethods.days (deadline_date d - now) <=? n in
      match filter (within 7) upcoming_deadlines with
      | _ :: _ => 1%Q
      | [] =>
          match filter (within 30) upcoming_deadlines with
          | _ :: _ => (7 # 10)%Q
          | [] => (1 # 2)%Q
          end
      end
  end.

(** The context returned when the body of [analyze] raises. *)
Definition fallback (case_id : string) (now : datetime) : WhenContext.t :=
  WhenContext.make case_id (ContextBuilder.placeholder_name case_id) now [] [] [].

(** [analyze]: the context built from the case row; a column that makes the
    body raise (a null or rejected filing date or case name, a rejected
    optional date) gives the fallback context.  The analyzer itself never
    raises. *)
Definition analyze (answer : result Exn (option CaseData))
    (client_id case_id : string) (now : datetime) : WhenContext.t :=
  let case_data := _query_case_dates answer in
  let timeline := _build_timeline client_id case_id in
  let deadlines := _get_deadlines client_id case_id in
  let upcoming := filter (fun d => now <? deadline_date d) deadlines in
  let past := filter (fun d => deadline_date d <=? now) deadlines in
  match row_filing_date case_data with
  | Null => fallback case_id now
  | Malformed => fallback case_id now
  | filing_cell =>
      let filing_date :=
        match filing_cell with Value d => d | _ => now end in
      match row_case_name case_data with
      | Null => fallback case_id now
      | Malformed => fallback case_id now
      | name_cell =>
          let case_name :=
            match name_cell with
            | Value s => s
            | _ => ContextBuilder.placeholder_name case_id
            end in
          if optional_dates_valid case_data
          then WhenContext.make case_id case_name filing_date timeline
                 upcoming past
          else fallback case_id now
      end
  end.

End WhenAnalyzer.

(* ====================================================================== *)
(** * The cache warm-up route ([src/api/routes/cache.py]) *)
(* ====================================================================== *)

Module CacheRoutes.

(** The [results] dictionary of [warmup_cache]. *)
Record Results : Type := make_results {
  total_cases : Z;
  successful : Z;
  failed : Z;
  errors : OrderedDict.t Exn
}.

(** One iteration of the loop: the context of [case_id] is built with
    [use_cache=False]; an exception is recorded under the case id. *)
Definition warmup_step (az : ContextBuilder.Analyzers) (client_id scope : string)
    (acc : Results * ContextBuilder.World) (request : string * ContextBuilder.Env)
  : Results * ContextBuilder.World :=
  let '(results, w) := acc in
  let '(case_id, env) := request in
  let '(outcome, w) :=
    ContextBuilder.build_context az w env client_id case_id scope None false in
  match outcome with
  | Ok _ =>
      (make_results (total_cases results) (successful results + 1)
         (failed results) (errors results), w)
  | Raise e =>
      (make_results (total_cases results) (successful results)
         (failed results + 1) (OrderedDict.setitem case_id e (errors results)),
       w)
  end.

(** [warmup_cache]: every case id comes with the environment of its
    build. *)
Definition warmup_cache (az : ContextBuilder.Analyzers) (w : ContextBuilder.World)
    (client_id : string) (case_ids : list (string * ContextBuilder.Env))
    (scope : string) : Results * ContextBuilder.World :=
  fold_left (warmup_step az client_id scope) case_ids
    (make_results (Z.of_nat (List.length case_ids)) 0 0 [], w).

End CacheRoutes.

(* ====================================================================== *)
(** * Sample data and specification-side definitions *)
(* ====================================================================== *)

Import ContextBuilder.

(** The number of timeline and deadline data points of a WHEN context. *)
Definition when_data_points (c : WhenContext.t) : Z :=
  count (List.length (WhenContext.timeline c))
  + count (List.length (WhenContext.upcoming_deadlines c))
  + count (List.length (WhenContext.past_deadlines c)).

Definition ten_events : list TimelineEvent :=
  repeat {| event_date := 0; event_type := "hearing" |} 10.

Definition saturated_when : WhenContext.t :=
  WhenContext.make "case-1" "Case case-1" 1704067200 ten_events [] [].

Definition steady_analyzers : Analyzers :=
  {| who_analyzer := fun _ case_id =>
       Ok (WhoContext.make case_id "Acme v. Bolt" [] [] [] []);
     what_analyzer := fun _ case_id =>
       Ok (WhatContext.make case_id "Acme v. Bolt" [] [] [] []);
     where_analyzer := fun _ case_id =>
       Ok (WhereContext.make case_id "Acme v. Bolt" "Federal" "District Court" "Boston");
     when_analyzer := fun _ _ => Ok saturated_when;
     why_analyzer := fun _ case_id =>
       Ok (WhyContext.make case_id "Acme v. Bolt" [] [] []) |}.

Definition fresh_world : World :=
  make_world (CacheManager.init None None true false false) [].

(** ** The composite score in the words of the specification *)

(** Two results agree: the same exception, or equal rationals. *)
Definition result_eq (a b : result Exn Q) : Prop :=
  match a, b with
  | Ok x, Ok y => (x == y)%Q
  | Raise e, Raise e' => e = e'
  | _, _ => False
  end.

(** The number of requested dimensions. *)
Definition requested (d : list (string * option DimensionContext)) : Z :=
  Z.of_nat (List.length d).

(** The number of successful dimensions. *)
Fixpoint successful (d : list (string * option DimensionContext)) : Z :=
  match d with
  | [] => 0
  | (_, Some _) :: r => 1 + successful r
  | (_, None) :: r => successful r
  end.

(** The per-dimension scores, an absent dimension counting as [0.0]. *)
Fixpoint spec_scores (d : list (string * option DimensionContext))
  : result Exn (list Q) :=
  match d with
  | [] => Ok []
  | (name, context) :: r =>
      match _score_dimension name context, spec_scores r with
      | Ok q, Ok qs => Ok (q :: qs)
      | Raise e, _ => Raise e
      | Ok _, Raise e => Raise e
      end
  end.

Definition total (qs : list Q) : Q := fold_right Qplus 0%Q qs.

(** Clamping to [[0,1]]. *)
Definition clamp01 (q : Q) : Q := Qmax 0 (Qmin 1 q).

(** (mean of the per-dimension scores) x (successful / requested), clamped;
    [0.0] for an empty request. *)
Definition spec_composite_score (d : list (string * option DimensionContext))
  : result Exn Q :=
  match d with
  | [] => Ok 0%Q
  | _ =>
      match spec_scores d with
      | Ok qs =>
          Ok (clamp01 ((total qs / inject_Z (requested d))
                       * (inject_Z (successful d) / inject_Z (requested d))))%Q
      | Raise e => Raise e
      end
  end.

(** A result whose context has the type of its dimension name, as every
    result of the fan-out has. *)
Definition agrees (name : string) (c : DimensionContext) : bool :=
  if String.eqb name "WHO" then match c with Who _ => true | _ => false end
  else if String.eqb name "WHAT" then match c with What _ => true | _ => false end
  else if String.eqb name "WHERE" then match c with Where _ => true | _ => false end
  else if String.eqb name "WHEN" then match c with When _ => true | _ => false end
  else if String.eqb name "WHY" then match c with Why _ => true | _ => false end
  else true.

Definition well_typed (d : list (string * option DimensionContext)) : Prop :=
  forall name c, In (name, Some c) d -> agrees name c = true.

(** Whatever the analyzers of the listed dimensions raise for this tenant
    and case is an instance of [Exception]. *)
Definition raise_exceptions_only (az : Analyzers) (client_id case_id : string)
    (names : list string) : Prop :=
  forall name e, In name names ->
    analyze az name client_id case_id = Raise e -> is_Exception e = true.

(** A request that is not served from the cache. *)
Definition cache_miss (w : World) (env : Env) (client_id case_id scope : string)
    (use_cache : bool) : Prop :=
  use_cache = false \/
  fst (_check_cache w client_id case_id scope (now_start env)) = None.

(** The world in which the fan-out of a request starts. *)
Definition after_cache_check (w : World) (env : Env)
    (client_id case_id scope : string) (use_cache : bool) : World :=
  if use_cache then snd (_check_cache w client_id case_id scope (now_start env))
  else w.

Definition mixed_results : list (string * option DimensionContext) :=
  [("WHO", Some (Who (WhoContext.make "case-1" "Acme v. Bolt" [] [] [] [])));
   ("WHAT", None);
   ("WHEN", Some (When saturated_when))].

(** ** Typed view of a five-dimension fan-out *)

Definition to_option {A} (r : result Exn A) : option A :=
  match r with
  | Ok a => Some a
  | Raise _ => None
  end.

(** The result the fan-out records for the outcome of a typed analyzer. *)
Definition gathered {A} (inj : A -> DimensionContext) (r : result Exn A)
  : option DimensionContext :=
  match r with
  | Ok a => Some (inj a)
  | Raise e => if is_Exception e then None else Some (Raised e)
  end.


(** The score of a typed result, [0] for an absent one. *)
Definition score_or_zero (name : string) (o : option DimensionContext) : Q :=
  match _score_dimension name o with
  | Ok q => q
  | Raise _ => 0%Q
  end.

(** The dimension of a response, by name. *)
Definition dimension_of (r : ContextResponse.t) (name : string)
  : option DimensionContext :=
  if String.eqb name "WHO" then option_map Who (ContextResponse.who r)
  else if String.eqb name "WHAT" then option_map What (ContextResponse.what r)
  else if String.eqb name "WHERE" then option_map Where (ContextResponse.where_ r)
  else if String.eqb name "WHEN" then option_map When (ContextResponse.when r)
  else if String.eqb name "WHY" then option_map Why (ContextResponse.why r)
  else None.

(** Analyzers of which the WHY analyzer raises. *)
Definition why_fails : Analyzers :=
  {| who_analyzer := who_analyzer steady_analyzers;
     what_analyzer := what_analyzer steady_analyzers;
     where_analyzer := where_analyzer steady_analyzers;
     when_analyzer := when_analyzer steady_analyzers;
     why_analyzer := fun _ _ => Raise (AnalyzerError "graph service unreachable") |}.

(** Analyzers of which the WHY analyzer is cancelled. *)
Definition why_cancelled : Analyzers :=
  {| who_analyzer := who_analyzer steady_analyzers;
     what_analyzer := what_analyzer steady_analyzers;
     where_analyzer := where_analyzer steady_analyzers;
     when_analyzer := when_analyzer steady_analyzers;
     why_analyzer := fun _ _ => Raise CancelledError |}.

Definition sample_env : Env :=
  {| now_start := 1000; now_end := 1002; fresh_uuid := "q-1" |}.

(** ** Recency order of the fast tier *)

(** The keys of a dictionary without [k]. *)
Definition without (k : string) (ks : list string) : list string :=
  filter (fun x => negb (String.eqb k x)) ks.

(** Touching [k] makes it the most recently used key: it moves to the end
    of the recency order, the other keys keep their relative order. *)
Definition touch (k : string) (ks : list string) : list string :=
  without k ks ++ [k].

(** The recency order of a cache, least recently used key first. *)
Definition recency {V} (c : LRUCache.t V) : list string :=
  OrderedDict.keys (LRUCache.cache c).

(** One call of [LRUCache.set]. *)
Record Write (V : Type) : Type := make_write {
  write_key : string;
  write_value : V;
  write_ttl : option Z;
  write_status : string;
  write_now : datetime
}.

Arguments make_write {V}.
Arguments write_key {V}.
Arguments write_value {V}.
Arguments write_ttl {V}.
Arguments write_status {V}.
Arguments write_now {V}.

Definition apply_write {V} (c : LRUCache.t V) (x : Write V) : LRUCache.t V :=
  LRUCache.set c (write_key x) (write_value x) (write_ttl x) (write_status x)
    (write_now x).

(** A sequence of [set] calls with no read in between. *)
Definition set_many {V} (c : LRUCache.t V) (ws : list (Write V)) : LRUCache.t V :=
  fold_left apply_write ws c.

Definition write_keys {V} (ws : list (Write V)) : list string :=
  map write_key ws.

(** Capacity 3: insert A, B, C; read A; insert D. *)
Definition scenario_abcd {V} (a b c d : V) (now : datetime) : LRUCache.t V :=
  let c0 := LRUCache.init 3 60 in
  let c1 := LRUCache.set c0 "A" a None "active" now in
  let c2 := LRUCache.set c1 "B" b None "active" now in
  let c3 := LRUCache.set c2 "C" c None "active" now in
  let c4 := snd (LRUCache.get c3 "A" now) in
  LRUCache.set c4 "D" d None "active" now.

Definition four_writes : list (Write string) :=
  [make_write "k1" "v1" None "active" 10;
   make_write "k2" "v2" (Some 30) "active" 11;
   make_write "k3" "v3" None "closed" 12;
   make_write "k4" "v4" None "active" 13].

(** The keys of the cache are pairwise distinct. *)
Definition wf_cache {V} (c : LRUCache.t V) : Prop :=
  OrderedDict.wf (LRUCache.cache c).

(** A cache holding one entry written at time 100 with a TTL of one second. *)
Definition short_lived : LRUCache.t string :=
  LRUCache.set (LRUCache.init 3 60) "A" "va" (Some 1) "active" 100.

Definition short_lived_entry : CacheEntry.t string :=
  CacheEntry.make "A" "va" 100 101 0 None "active".

(** ** Views of the tiered cache *)

(** The entry of the memory tier removed (when present). *)
Definition purge {V} (key : string) (mc : LRUCache.t V) : LRUCache.t V :=
  LRUCache.with_cache mc (OrderedDict.delitem key (LRUCache.cache mc)).

(** The key of a scope, for one tenant, case and dimension. *)
Definition scope_key (client_id case_id : string) (dimension : option string)
    (scope : string) : string :=
  CacheManager._generate_cache_key client_id case_id scope dimension.

(** The memory tier holds no entry under [key]. *)
Definition memory_lacks {V} (m : CacheManager.t V) (key : string) : Prop :=
  match CacheManager.memory_tier m with
  | Some mc => OrderedDict.contains key (LRUCache.cache mc) = false
  | None => True
  end.

(** The number of entries of the memory tier ([0] when it is disabled). *)
Definition memory_size {V} (m : CacheManager.t V) : Z :=
  match CacheManager.memory_tier m with
  | Some mc => LRUCache.len mc
  | None => 0
  end.

(** The memory tier, when enabled, has distinct keys and room for the
    three scopes of a case. *)
Definition manager_ok {V} (m : CacheManager.t V) : Prop :=
  match CacheManager.memory_tier m with
  | Some mc => wf_cache mc /\ 3 <= LRUCache.max_size mc
  | None => True
  end.

(** Entries written for the three scopes of one case, one after the other. *)
Definition write_three_scopes {V} (m : CacheManager.t V)
    (client_id case_id : string) (v1 v2 v3 : V) (st1 st2 st3 : string)
    (t1 t2 t3 : datetime) : CacheManager.t V :=
  let m := CacheManager.set m client_id case_id "minimal" v1 st1 None t1 in
  let m := CacheManager.set m client_id case_id "standard" v2 st2 None t2 in
  CacheManager.set m client_id case_id "comprehensive" v3 st3 None t3.

Definition memory_only : CacheManager.t string :=
  CacheManager.init None None true false false.

(** ** Client errors of a build request *)

(** The request names an unknown scope (no explicit dimension list being
    supplied) or lists a dimension outside the five legal names. *)
Definition request_invalid (scope : string)
    (include_dimensions : option (list string)) : Prop :=
  match include_dimensions with
  | Some (d :: r) => exists x, In x (d :: r) /\ ~ In x valid_dimensions
  | _ => ~ In scope (map fst SCOPES)
  end.

(** The client error names the offending scope, or the offending dimension
    names (each once). *)
Definition describes (e : Exn) (scope : string)
    (include_dimensions : option (list string)) : Prop :=
  match include_dimensions with
  | Some (d :: r) =>
      exists invalid,
        e = InvalidDimensionNames invalid /\ invalid <> [] /\
        forall x, In x invalid <-> In x (d :: r) /\ ~ In x valid_dimensions
  | _ => e = InvalidScope scope
  end.

Definition cached_response : ContextResponse.t :=
  ContextResponse.make "q-0" "case-1" "Acme v. Bolt" None None None None None
    (9 # 10) true false 12 990.

(** A world whose memory tier holds a composite for the comprehensive scope
    of the sample case. *)
Definition warm_world : World :=
  _cache_context fresh_world "client-1" "case-1" "comprehensive"
    cached_response 990.


(** ** Runs of cache operations *)

(** One call on the fast tier. *)
Inductive LRUOp (V : Type) : Type :=
| LGet (key : string) (now : datetime)
| LSet (key : string) (value : V) (ttl : option Z) (case_status : string)
       (now : datetime)
| LDelete (key : string)
| LClear.

Arguments LGet {V}.
Arguments LSet {V}.
Arguments LDelete {V}.
Arguments LClear {V}.

Definition lru_step {V} (c : LRUCache.t V) (op : LRUOp V) : LRUCache.t V :=
  match op with
  | LGet key now => snd (LRUCache.get c key now)
  | LSet key value ttl case_status now =>
      LRUCache.set c key value ttl case_status now
  | LDelete key => snd (LRUCache.delete c key)
  | LClear => snd (LRUCache.clear c)
  end.

Definition lru_run {V} (c : LRUCache.t V) (ops : list (LRUOp V)) : LRUCache.t V :=
  fold_left lru_step ops c.

(** One call on the cache manager. *)
Inductive ManagerOp (V : Type) : Type :=
| MGet (client_id case_id scope : string) (dimension : option string)
       (now : datetime)
| MSet (client_id case_id scope : string) (value : V) (case_status : string)
       (dimension : option string) (now : datetime)
| MDelete (client_id case_id : string) (scope dimension : option string)
| MInvalidate (client_id case_id : string)
| MReset.

Arguments MGet {V}.
Arguments MSet {V}.
Arguments MDelete {V}.
Arguments MInvalidate {V}.
Arguments MReset {V}.

Definition manager_step {V} (m : CacheManager.t V) (op : ManagerOp V)
  : CacheManager.t V :=
  match op with
  | MGet client_id case_id scope dimension now =>
      snd (CacheManager.get m client_id case_id scope dimension now)
  | MSet client_id case_id scope value case_status dimension now =>
      CacheManager.set m client_id case_id scope value case_status dimension now
  | MDelete client_id case_id scope dimension =>
      snd (CacheManager.delete m client_id case_id scope dimension)
  | MInvalidate client_id case_id =>
      snd (CacheManager.invalidate_case m client_id case_id)
  | MReset => CacheManager.reset_stats m
  end.

Definition manager_run {V} (m : CacheManager.t V) (ops : list (ManagerOp V))
  : CacheManager.t V :=
  fold_left manager_step ops m.

(** A call on the fast tier that only reads. *)
Definition lru_read {V} (op : LRUOp V) : Prop :=
  match op with
  | LGet _ _ => True
  | _ => False
  end.

(** A call that only reads and, when it reads the key [k], does so before
    [deadline]. *)
Definition lru_read_before {V} (k : string) (deadline : datetime)
    (op : LRUOp V) : Prop :=
  match op with
  | LGet k' now => k' = k -> now < deadline
  | _ => False
  end.

(** The entry of [k], when the cache holds one, carries [v] and expires at
    [expiry]. *)
Definition entry_is {V} (c : LRUCache.t V) (k : string) (v : V)
    (expiry : datetime) : Prop :=
  forall e, OrderedDict.getitem k (LRUCache.cache c) = Some e ->
            CacheEntry.value e = v /\ CacheEntry.expires_at e = expiry.

(** A call on the cache manager that only reads: a lookup or a reset of the
    statistics. *)
Definition manager_read {V} (op : ManagerOp V) : Prop :=
  match op with
  | MGet _ _ _ _ _ => True
  | MReset => True
  | _ => False
  end.

(** A call that only reads, a lookup being made before [deadline]. *)
Definition manager_read_before {V} (deadline : datetime) (op : ManagerOp V)
  : Prop :=
  match op with
  | MGet _ _ _ _ now => now < deadline
  | MReset => True
  | _ => False
  end.

(** A later request for the tenant, case and scope of an earlier one. *)
Record Request : Type := {
  req_analyzers : Analyzers;
  req_env : Env;
  req_include_dimensions : option (list string);
  req_use_cache : bool
}.

Definition request (w : World) (client_id case_id scope : string)
    (q : Request) : result Exn ContextResponse.t * World :=
  build_context (req_analyzers q) w (req_env q) client_id case_id scope
    (req_include_dimensions q) (req_use_cache q).

(** The world after a sequence of such requests. *)
Definition serve (w : World) (client_id case_id scope : string)
    (qs : list Request) : World :=
  fold_left (fun w q => snd (request w client_id case_id scope q)) qs w.

(** The lookups that calls on the manager make on its memory tier. *)
Fixpoint lru_reads {V} (ops : list (ManagerOp V)) : list (LRUOp V) :=
  match ops with
  | [] => []
  | MGet client_id case_id scope dimension now :: rest =>
      LGet (CacheManager._generate_cache_key client_id case_id scope dimension)
        now :: lru_reads rest
  | _ :: rest => lru_reads rest
  end.

(** The effective time-to-live of a write on the fast tier. *)
Definition effective_ttl {V} (c : LRUCache.t V) (ttl : option Z) : Z :=
  LRUCache.ttl_or_default c ttl.

(** The memory tier is enabled, has distinct keys and room for an entry. *)
Definition memory_ready {V} (m : CacheManager.t V) : Prop :=
  exists mc, CacheManager.memory_tier m = Some mc /\ wf_cache mc /\
             1 <= LRUCache.max_size mc.

(** The WHEN analyzer of the source as a collaborator of the builder: the
    relational store answers [store client_id case_id], the clock reads
    [now]. *)
Definition source_when_analyzer
    (store : string -> string -> result Exn (option WhenAnalyzer.CaseData))
    (now : datetime) (client_id case_id : string) : result Exn WhenContext.t :=
  Ok (WhenAnalyzer.analyze (store client_id case_id) client_id case_id now).

(** Analyzers whose WHO and WHERE results are fully populated. *)
Definition ten_parties : list Party :=
  repeat {| party_name := "Acme"; party_role := "plaintiff" |} 10.

Definition rich_analyzers : Analyzers :=
  {| who_analyzer := fun _ case_id =>
       Ok (WhoContext.make case_id "Acme v. Bolt" ten_parties [] [] []);
     what_analyzer := what_analyzer steady_analyzers;
     where_analyzer := where_analyzer steady_analyzers;
     when_analyzer := when_analyzer steady_analyzers;
     why_analyzer := why_analyzer steady_analyzers |}.

Definition later_env : Env :=
  {| now_start := 1500; now_end := 1501; fresh_uuid := "q-2" |}.

(** ** Definitions for the further properties *)

(** The cumulative hit count of the entries of a store. *)
Definition hits_of {V} (d : OrderedDict.t (CacheEntry.t V)) : Z :=
  fold_right Z.add 0 (map CacheEntry.hit_count (map snd d)).

(** The misses counted by the two slower tiers on a lookup that reaches
    them. *)
Definition slow_misses {V} (m : CacheManager.t V) (s : CacheManager.Stats) : CacheManager.Stats :=
  let s := if CacheManager.enable_redis_cache m
           then CacheManager.incr_redis_misses s else s in
  if CacheManager.enable_db_cache m then CacheManager.incr_db_misses s else s.

(** The counters of a manager are non-negative and the two slower tiers
    have never answered. *)
Definition counters_ok (s : CacheManager.Stats) : Prop :=
  0 <= CacheManager.memory_hits s /\ 0 <= CacheManager.memory_misses s /\
  CacheManager.redis_hits s = 0 /\ 0 <= CacheManager.redis_misses s /\
  CacheManager.db_hits s = 0 /\ 0 <= CacheManager.db_misses s /\
  0 <= CacheManager.total_sets s /\ 0 <= CacheManager.total_deletes s.

(** The result of [_get_case_name] is the name of a successful result. *)
Inductive named_by (results : list (string * option DimensionContext))
    (name : string) : Prop :=
| named_by_intro (dimension : string) (context : DimensionContext) :
    In (dimension, Some context) results ->
    context_case_name context = name ->
    named_by results name.

(** The number of non-empty fields among jurisdiction, court and venue. *)
Definition filled_fields (c : WhereContext.t) : Z :=
  Z.b2z (Str.truthy (WhereContext.primary_jurisdiction c))
  + Z.b2z (Str.truthy (WhereContext.court c))
  + Z.b2z (Str.truthy (WhereContext.venue c)).

(** The results of a fan-out over the four dimensions of the standard
    scope. *)
Definition standard_results (who : option WhoContext.t)
    (what : option WhatContext.t) (where_ : option WhereContext.t)
    (when : option WhenContext.t) : list (string * option DimensionContext) :=
  [("WHO", option_map Who who); ("WHAT", option_map What what);
   ("WHERE", option_map Where where_); ("WHEN", option_map When when)].

(** A relational store without rows. *)
Definition empty_store (client_id case_id : string)
  : result Exn (option WhenAnalyzer.CaseData) := Ok None.

(** Analyzers whose WHEN analyzer is the one of the source. *)
Definition source_when_analyzers : Analyzers :=
  {| who_analyzer := who_analyzer rich_analyzers;
     what_analyzer := what_analyzer rich_analyzers;
     where_analyzer := where_analyzer rich_analyzers;
     when_analyzer := source_when_analyzer empty_store 1000;
     why_analyzer := why_analyzer rich_analyzers |}.

(** A relational store holding one well-formed row for every case, with an
    explicit null in the trial-date column. *)
Definition docketed_store (client_id case_id : string)
  : result Exn (option WhenAnalyzer.CaseData) :=
  Ok (Some {| WhenAnalyzer.row_filing_date := WhenAnalyzer.Value 500;
              WhenAnalyzer.row_case_name := WhenAnalyzer.Value "Acme v. Bolt";
              WhenAnalyzer.row_incident_date := WhenAnalyzer.Value 400;
              WhenAnalyzer.row_discovery_cutoff := WhenAnalyzer.Absent;
              WhenAnalyzer.row_motion_deadline := WhenAnalyzer.Absent;
              WhenAnalyzer.row_trial_date := WhenAnalyzer.Null;
              WhenAnalyzer.row_statute_of_limitations := WhenAnalyzer.Absent |}).

Definition docketed_analyzers : Analyzers :=
  {| who_analyzer := who_analyzer rich_analyzers;
     what_analyzer := what_analyzer rich_analyzers;
     where_analyzer := where_analyzer rich_analyzers;
     when_analyzer := source_when_analyzer docketed_store 1000;
     why_analyzer := why_analyzer rich_analyzers |}.

(** A deadline is due within [n] days of [now]. *)
Definition due_within (n : Z) (now : datetime) (d : Deadline) : bool :=
  WhenContextMethods.days (deadline_date d - now) <=? n.

Definition two_deadlines : list Deadline :=
  [{| deadline_date := 5000000; deadline_type := "trial" |};
   {| deadline_date := 400000; deadline_type := "motion" |}].

Definition boston_where : WhereContext.t :=
  WhereContext.make "case-1" "Acme v. Bolt" "Federal" "District Court" "Boston".

(** A WHEN context with two upcoming deadlines, the later one listed
    first. *)
Definition deadline_when : WhenContext.t :=
  WhenContext.make "case-1" "Acme v. Bolt" 0 [] two_deadlines [].

(** A request that uses the cache and lists an unknown dimension. *)
Definition unvalidated_request : Request :=
  {| req_analyzers := why_fails; req_env := later_env;
     req_include_dimensions := Some ["HOW"]; req_use_cache := true |}.

(** A request that uses the cache, then one that bypasses it. *)
Definition sample_requests : list Request :=
  [ {| req_analyzers := steady_analyzers;
       req_env := {| now_start := 1100; now_end := 1101; fresh_uuid := "q-3" |};
       req_include_dimensions := None; req_use_cache := true |};
    {| req_analyzers := rich_analyzers;
       req_env := {| now_start := 1200; now_end := 1201; fresh_uuid := "q-4" |};
       req_include_dimensions := None; req_use_cache := false |} ].

(** ** The composite score in double precision, in the words of the
    specification *)

Module Binary64Spec.
Import PrimFloat.

(** The per-dimension scores, an absent dimension counting as [0.0]. *)
Fixpoint spec_scores (d : list (string * option DimensionContext))
  : result Exn (list float) :=
  match d with
  | [] => Ok []
  | (name, context) :: r =>
      match Binary64._score_dimension name context, spec_scores r with
      | Ok q, Ok qs => Ok (q :: qs)
      | Raise e, _ => Raise e
      | Ok _, Raise e => Raise e
      end
  end.






(** A request that is not served from the cache. *)
Definition cache_miss (w : Binary64.World) (env : Env)
    (client_id case_id scope : string) (use_cache : bool) : Prop :=
  use_cache = false \/
  fst (Binary64._check_cache w client_id case_id scope (now_start env)) = None.

(** The world in which the fan-out of a request starts. *)
Definition after_cache_check (w : Binary64.World) (env : Env)
    (client_id case_id scope : string) (use_cache : bool) : Binary64.World :=
  if use_cache
  then snd (Binary64._check_cache w client_id case_id scope (now_start env))
  else w.

Definition fresh_world : Binary64.World :=
  Binary64.make_world (CacheManager.init None None true false false) [].

(** Analyzers that return 7 parties, 10 causes of action, 6 timeline events
    with a filing date, and 8 legal theories. *)
Definition near_complete_analyzers : Analyzers :=
  {| who_analyzer := fun _ case_id =>
       Ok (WhoContext.make case_id "Acme v. Bolt"
             (repeat {| party_name := "Acme"; party_role := "plaintiff" |} 7)
             [] [] []);
     what_analyzer := fun _ case_id =>
       Ok (WhatContext.make case_id "Acme v. Bolt"
             (repeat {| cause_name := "breach";
                        cause_description := "breach of contract" |} 10)
             [] [] []);
     where_analyzer := where_analyzer steady_analyzers;
     when_analyzer := fun _ case_id =>
       Ok (WhenContext.make case_id "Acme v. Bolt" 1704067200
             (repeat {| event_date := 0; event_type := "hearing" |} 6) [] []);
     why_analyzer := fun _ case_id =>
       Ok (WhyContext.make case_id "Acme v. Bolt"
             (repeat {| theory_name := "estoppel";
                        theory_description := "promissory estoppel" |} 8)
             [] []) |}.

Definition four_dimensions : option (list string) :=
  Some ["WHO"; "WHAT"; "WHEN"; "WHY"].


End Binary64Spec.

(* ====================================================================== *)
(** * Properties *)
(* ====================================================================== *)


(** ** Reference digests of the MD5 embedding *)

Example md5_empty : MD5.hexdigest "" = "d41d8cd98f00b204e9800998ecf8427e".
Proof. vm_compute. reflexivity. Qed.

Example md5_abc : MD5.hexdigest "abc" = "900150983cd24fb0d6963f7d28e17f72".
Proof. vm_compute. reflexivity. Qed.

Example md5_two_blocks :
  MD5.hexdigest
    "xxxxxxxxxxxxxxxxxxxxxxxxxxxxxxxxxxxxxxxxxxxxxxxxxxxxxxxxxxxxxxxxxxxxxx"
  = "7d56c0f83fd1e320d60ea2f13dfdeedd".
Proof. vm_compute. reflexivity. Qed.

Example generate_cache_key_sample :
  CacheManager._generate_cache_key "client-123" "case-456" "comprehensive" None
  = "context:client-123:case-456:comprehensive:111f4db8".
Proof. vm_compute. reflexivity. Qed.

(** ** Scope selection *)

(** C8. The three named scopes select strictly nested dimension lists of
    sizes 2, 4 and 5, and [comprehensive] is the full five-dimension set. *)
Theorem scopes_strictly_nested :
  exists minimal standard comprehensive,
    _determine_dimensions "minimal" None = Ok minimal /\
    _determine_dimensions "standard" None = Ok standard /\
    _determine_dimensions "comprehensive" None = Ok comprehensive /\
    List.length minimal = 2%nat /\
    List.length standard = 4%nat /\
    List.length comprehensive = 5%nat /\
    comprehensive = valid_dimensions /\
    incl minimal standard /\ ~ incl standard minimal /\
    incl standard comprehensive /\ ~ incl comprehensive standard.
Proof.
  exists ["WHO"; "WHERE"], ["WHO"; "WHAT"; "WHERE"; "WHEN"], valid_dimensions.
  repeat split; try reflexivity.
  - intros d Hd. simpl in *. intuition.
  - intros H. specialize (H "WHAT"). simpl in H.
    destruct H as [H | [H | []]]; [ | discriminate..]. now right; left.
  - intros d Hd. simpl in *. intuition.
  - intros H. specialize (H "WHY"). simpl in H.
    assert (Hin : "WHO" = "WHY" \/ "WHAT" = "WHY" \/ "WHERE" = "WHY"
                  \/ "WHEN" = "WHY" \/ False) by (apply H; intuition).
    intuition discriminate.
Qed.

(** ** Per-dimension scores *)

Lemma count_nonneg (n : nat) : 0 <= count n.
Proof. unfold count. lia. Qed.

Lemma tenth_nonneg (n : Z) : 0 <= n -> (0 <= inject_Z n / 10)%Q.
Proof.
  intros Hn. unfold Qdiv, Qle, Qmult, inject_Z. simpl. lia.
Qed.

(** [min(1.0, n / 10.0)] lies in [[0,1]]. *)
Lemma saturated_tenth_bounds (n : Z) :
  0 <= n -> (0 <= Qmin 1 (inject_Z n / 10) <= 1)%Q.
Proof.
  intros Hn. split.
  - apply Q.min_glb; [discriminate | now apply tenth_nonneg].
  - apply Q.le_min_l.
Qed.

(** Once the target of ten data points is met the score is exactly [1]. *)
Lemma saturated_tenth_full (n : Z) :
  10 <= n -> (Qmin 1 (inject_Z n / 10) == 1)%Q.
Proof.
  intros Hn. apply Q.min_l.
  unfold Qdiv, Qle, Qmult, inject_Z. simpl. lia.
Qed.


Lemma score_when (c : WhenContext.t) :
  _score_dimension "WHEN" (Some (When c))
  = Ok (Qmin 1 (inject_Z (when_data_points c) / 10) + (3 # 10))%Q.
Proof. reflexivity. Qed.

(** With eight data points or more, the WHEN score is above [1]. *)
Lemma when_score_above_one (c : WhenContext.t) :
  8 <= when_data_points c ->
  (1 < Qmin 1 (inject_Z (when_data_points c) / 10) + (3 # 10))%Q.
Proof.
  intros H8.
  destruct (Q.min_spec 1 (inject_Z (when_data_points c) / 10)) as [[_ E] | [_ E]];
    rewrite E.
  - reflexivity.
  - unfold Qdiv, Qlt, Qplus, Qmult, inject_Z. simpl. lia.
Qed.

(** The scores of the four other dimensions, and the default score of an
    unknown name, lie in [[0,1]]. *)
Lemma score_other_dimensions_bounded (dimension_name : string)
    (context : option DimensionContext) (q : Q) :
  dimension_name <> "WHEN" ->
  _score_dimension dimension_name context = Ok q ->
  (0 <= q <= 1)%Q.
Proof.
  intros Hname H. unfold _score_dimension in H.
  destruct context as [context | ]; [ | injection H as <-; split; discriminate].
  destruct (String.eqb_spec dimension_name "WHO").
  { destruct context; try discriminate. injection H as <-.
    apply saturated_tenth_bounds. unfold count. lia. }
  destruct (String.eqb_spec dimension_name "WHAT").
  { destruct context; try discriminate. injection H as <-.
    apply saturated_tenth_bounds. unfold count. lia. }
  destruct (String.eqb_spec dimension_name "WHERE").
  { destruct context; try discriminate. injection H as <-.
    destruct (Str.truthy (WhereContext.primary_jurisdiction c)),
      (Str.truthy (WhereContext.court c)), (Str.truthy (WhereContext.venue c));
      split; discriminate. }
  destruct (String.eqb_spec dimension_name "WHEN"); [contradiction | ].
  destruct (String.eqb_spec dimension_name "WHY").
  { destruct context; try discriminate. injection H as <-.
    apply saturated_tenth_bounds. unfold count. lia. }
  injection H as <-. split; discriminate.
Qed.

(** C1. The WHEN score of a context holding a filing date and ten timeline
    events is [1.3]: the per-dimension score leaves [[0,1]], so the bound
    stated for every dimension does not hold of the code. *)
Theorem when_score_not_saturated :
  exists q, _score_dimension "WHEN" (Some (When saturated_when)) = Ok q /\
            (q == 13 # 10)%Q /\ ~ (q <= 1)%Q.
Proof.
  eexists. split; [reflexivity | ]. split.
  - vm_compute. reflexivity.
  - vm_compute. intros H. apply H. reflexivity.
Qed.

(** ** The single-dimension quality operation *)

(** C10. When the WHEN analyzer returns a context (which carries a filing
    date) with at least eight timeline and deadline data points, the quality
    operation does not return metrics: building the metrics object fails on
    the [[0,1]] bound of [completeness_score]. *)
Theorem dimension_quality_when_fails_validation
    (az : Analyzers) (w : World) (client_id case_id dimension_name : string)
    (c : WhenContext.t) :
  Str.upper dimension_name = "WHEN" ->
  when_analyzer az client_id case_id = Ok c ->
  bool_datetime (WhenContext.filing_date c) = true ->
  8 <= when_data_points c ->
  fst (get_dimension_quality az w client_id case_id dimension_name)
  = Raise (ValidationError "completeness_score").
Proof.
  intros Hname Han _ H8.
  unfold get_dimension_quality. rewrite Hname.
  change (Str.mem "WHEN" valid_dimensions) with true.
  cbv beta iota delta [negb fst].
  change (analyze az "WHEN" client_id case_id)
    with (wrap When (when_analyzer az client_id case_id)).
  rewrite Han. cbv beta iota delta [wrap bind].
  rewrite score_when. cbv beta iota delta [bind].
  change (_count_data_points "WHEN" (Some (When c)))
    with (@Ok Exn Z (when_data_points c)).
  cbv beta iota delta [bind]. unfold DimensionQualityMetrics.new.
  assert (Hout : in_unit_interval
            (Qmin 1 (inject_Z (when_data_points c) / 10) + (3 # 10)) = false).
  { unfold in_unit_interval. apply andb_false_iff. right.
    apply not_true_is_false. intros Hle. apply Qle_bool_iff in Hle.
    apply Qle_not_lt in Hle. apply Hle. now apply when_score_above_one. }
  rewrite Hout. reflexivity.
Qed.

Lemma dimension_quality_when_fails_validation_witness :
  fst (get_dimension_quality steady_analyzers fresh_world "client-1" "case-1" "when")
  = Raise (ValidationError "completeness_score").
Proof.
  apply (dimension_quality_when_fails_validation steady_analyzers fresh_world
           "client-1" "case-1" "when" saturated_when).
  - reflexivity.
  - reflexivity.
  - reflexivity.
  - vm_compute. discriminate.
Defined.

(** ** The composite score *)

Lemma clamp_bounds (q : Q) : (0 <= Qmin 1 (Qmax 0 q) <= 1)%Q.
Proof.
  split.
  - apply Q.min_glb; [discriminate | apply Q.le_max_l].
  - apply Q.le_min_l.
Qed.

Lemma clamp_orders (q : Q) : (Qmin 1 (Qmax 0 q) == clamp01 q)%Q.
Proof.
  unfold clamp01.
  destruct (Q.max_spec 0 q) as [[? E1] | [? E1]];
  destruct (Q.min_spec 1 q) as [[? E2] | [? E2]];
  destruct (Q.min_spec 1 (Qmax 0 q)) as [[? E3] | [? E3]];
  destruct (Q.max_spec 0 (Qmin 1 q)) as [[? E4] | [? E4]];
  revert E1 E2 E3 E4;
  generalize dependent (Qmin 1 (Qmax 0 q));
  generalize dependent (Qmax 0 (Qmin 1 q));
  generalize dependent (Qmax 0 q);
  generalize dependent (Qmin 1 q); intros; lra.
Qed.

Lemma fold_left_Qplus (qs : list Q) (a : Q) :
  (fold_left Qplus qs a == a + total qs)%Q.
Proof.
  revert a. induction qs as [ | q qs IH]; intros a; simpl.
  - ring.
  - rewrite IH. ring.
Qed.

Lemma sum_total (qs : list Q) : (sum qs == total qs)%Q.
Proof. unfold sum. rewrite fold_left_Qplus. ring. Qed.

Lemma dimension_scores_spec (d : list (string * option DimensionContext)) :
  dimension_scores d = spec_scores d.
Proof.
  induction d as [ | [name [c | ]] d IH]; simpl; [reflexivity | | ].
  - rewrite IH. destruct (_score_dimension name (Some c)); [ | reflexivity].
    simpl. destruct (spec_scores d); reflexivity.
  - rewrite IH. simpl. destruct (spec_scores d); reflexivity.
Qed.

Lemma spec_scores_length (d : list (string * option DimensionContext)) qs :
  spec_scores d = Ok qs -> List.length qs = List.length d.
Proof.
  revert qs. induction d as [ | [name c] d IH]; intros qs H; simpl in H.
  - now injection H as <-.
  - destruct (_score_dimension name c); [ | discriminate].
    destruct (spec_scores d) as [qs' | ]; [ | discriminate].
    injection H as <-. simpl. f_equal. now apply IH.
Qed.

Lemma successful_count (d : list (string * option DimensionContext)) :
  count (List.length (filter (fun item => is_not_None (snd item)) d))
  = successful d.
Proof.
  unfold count.
  induction d as [ | [name [c | ]] d IH];
    cbn [filter snd is_not_None successful]; [reflexivity | | exact IH].
  cbn [List.length]. rewrite Nat2Z.inj_succ, IH. lia.
Qed.

Lemma clamp01_compat (x y : Q) : (x == y -> clamp01 x == clamp01 y)%Q.
Proof.
  intros E. unfold clamp01.
  destruct (Q.min_spec 1 x) as [[? E1] | [? E1]];
  destruct (Q.min_spec 1 y) as [[? E2] | [? E2]];
  destruct (Q.max_spec 0 (Qmin 1 x)) as [[? E3] | [? E3]];
  destruct (Q.max_spec 0 (Qmin 1 y)) as [[? E4] | [? E4]];
  revert E1 E2 E3 E4;
  generalize dependent (Qmax 0 (Qmin 1 x));
  generalize dependent (Qmax 0 (Qmin 1 y));
  generalize dependent (Qmin 1 x);
  generalize dependent (Qmin 1 y); intros; lra.
Qed.

Lemma spec_composite_score_nonempty (d : list (string * option DimensionContext)) :
  d <> [] ->
  spec_composite_score d
  = match spec_scores d with
    | Ok qs =>
        Ok (clamp01 ((total qs / inject_Z (requested d))
                     * (inject_Z (successful d) / inject_Z (requested d))))%Q
    | Raise e => Raise e
    end.
Proof. destruct d; [contradiction | reflexivity]. Qed.

Lemma calculate_context_score_spec (d : list (string * option DimensionContext)) :
  result_eq (_calculate_context_score d) (spec_composite_score d).
Proof.
  destruct d as [ | item d]; [simpl; reflexivity | ].
  assert (Hne : item :: d <> []) by discriminate.
  rewrite (spec_composite_score_nonempty _ Hne).
  unfold _calculate_context_score.
  generalize dependent (item :: d). clear item d. intros d Hne.
  replace (count (List.length d) =? 0) with false.
  2:{ symmetry. apply Z.eqb_neq. unfold count.
      destruct d; [contradiction | simpl; lia]. }
  rewrite dimension_scores_spec, successful_count.
  destruct (spec_scores d) as [qs | e] eqn:E; cbn [bind result_eq];
    [ | reflexivity].
  rewrite clamp_orders. apply clamp01_compat.
  unfold requested, count.
  rewrite (spec_scores_length _ _ E), sum_total. reflexivity.
Qed.

Lemma score_total_of_agrees (name : string) (c : DimensionContext) :
  agrees name c = true -> exists q, _score_dimension name (Some c) = Ok q.
Proof.
  unfold agrees, _score_dimension. intros H.
  destruct (String.eqb name "WHO"); [destruct c; try discriminate; eauto | ].
  destruct (String.eqb name "WHAT"); [destruct c; try discriminate; eauto | ].
  destruct (String.eqb name "WHERE"); [destruct c; try discriminate; eauto | ].
  destruct (String.eqb name "WHEN"); [destruct c; try discriminate; eauto | ].
  destruct (String.eqb name "WHY"); [destruct c; try discriminate; eauto | ].
  eauto.
Qed.

Lemma spec_scores_total (d : list (string * option DimensionContext)) :
  well_typed d -> exists qs, spec_scores d = Ok qs.
Proof.
  induction d as [ | [name c] d IH]; intros Hwt; simpl; [eauto | ].
  destruct IH as [qs Hqs].
  { intros n c' Hin. apply Hwt. now right. }
  rewrite Hqs. destruct c as [c | ].
  - destruct (score_total_of_agrees name c) as [q Hq]; [apply Hwt; now left | ].
    rewrite Hq. eauto.
  - simpl. eauto.
Qed.

Lemma calculate_context_score_total (d : list (string * option DimensionContext)) :
  well_typed d ->
  exists s, _calculate_context_score d = Ok s /\ (0 <= s <= 1)%Q.
Proof.
  intros Hwt. unfold _calculate_context_score.
  destruct (count (List.length d) =? 0).
  - exists 0%Q. split; [reflexivity | split; discriminate].
  - rewrite dimension_scores_spec.
    destruct (spec_scores_total d Hwt) as [qs ->]. simpl.
    eexists. split; [reflexivity | apply clamp_bounds].
Qed.

Lemma mem_In (s : string) (l : list string) : Str.mem s l = true <-> In s l.
Proof.
  induction l as [ | x l IH]; simpl.
  - split; [discriminate | contradiction].
  - destruct (String.eqb_spec s x) as [-> | Hne].
    + split; auto.
    + rewrite IH. split; [auto | intros [H | H]; [congruence | exact H]].
Qed.

(** A context returned by the analyzer of a legal name has the type of that
    name. *)
Lemma analyze_typed (az : Analyzers) (name client_id case_id : string)
    (c : DimensionContext) :
  In name valid_dimensions ->
  analyze az name client_id case_id = Ok c -> agrees name c = true.
Proof.
  intros Hin H. unfold valid_dimensions in Hin. simpl in Hin.
  destruct Hin as [<- | [<- | [<- | [<- | [<- | []]]]]];
    unfold analyze, wrap in H; simpl in H;
    match type of H with
    | match ?a with _ => _ end = _ => destruct a; [ | discriminate]
    end; injection H as <-; reflexivity.
Qed.

(** A task whose analyzer raises instances of [Exception] only records the
    returned context, or [None]. *)
Lemma task_absorbed (az : Analyzers) (client_id case_id name : string) :
  (forall e, analyze az name client_id case_id = Raise e ->
             is_Exception e = true) ->
  task az client_id case_id name
  = match analyze az name client_id case_id with
    | Ok c => Some c
    | Raise _ => None
    end.
Proof.
  intros H. unfold task.
  destruct (analyze az name client_id case_id) as [c | e]; [reflexivity | ].
  now rewrite (H e eq_refl).
Qed.

(** The results of the fan-out are typed by their names, as long as the
    analyzers raise instances of [Exception] only. *)
Lemma build_dimensions_parallel_well_typed (az : Analyzers) (w : World)
    (client_id case_id : string) (dimensions : list string) :
  raise_exceptions_only az client_id case_id dimensions ->
  well_typed (fst (_build_dimensions_parallel az w client_id case_id dimensions)).
Proof.
  intros Hex. unfold _build_dimensions_parallel, fst, task_names.
  intros name c Hin. apply in_map_iff in Hin.
  destruct Hin as [n [Heq Hn]]. injection Heq as -> Hc.
  apply filter_In in Hn. destruct Hn as [Hn Hd]. apply mem_In in Hd.
  rewrite task_absorbed in Hc by (intros e He; exact (Hex name e Hd He)).
  destruct (analyze az name client_id case_id) as [c' | ] eqn:E;
    [ | discriminate].
  injection Hc as <-. exact (analyze_typed _ _ _ _ _ Hn E).
Qed.

(** A response built by [make_response] carries the computed score and the
    threshold test on it. *)
Lemma make_response_score (env : Env) (case_id : string)
    (d : list (string * option DimensionContext)) (r : ContextResponse.t) :
  make_response env case_id d = Ok r ->
  _calculate_context_score d = Ok (ContextResponse.context_score r) /\
  ContextResponse.is_complete r
  = Qle_bool COMPLETENESS_THRESHOLD (ContextResponse.context_score r) /\
  ContextResponse.cached r = false.
Proof.
  unfold make_response. intros H.
  destruct (_calculate_context_score d) as [s | ]; [ | discriminate].
  simpl in H.
  destruct (as_who _); [ | discriminate]. simpl in H.
  destruct (as_what _); [ | discriminate]. simpl in H.
  destruct (as_where _); [ | discriminate]. simpl in H.
  destruct (as_when _); [ | discriminate]. simpl in H.
  destruct (as_why _); [ | discriminate]. simpl in H.
  unfold ContextResponse.new in H.
  destruct (in_unit_interval s); [ | discriminate].
  injection H as <-. simpl. auto.
Qed.

(** A request that misses the cache runs dimension selection, the fan-out
    and [make_response] in the world left by the cache check. *)
Lemma build_context_miss (az : Analyzers) (w : World) (env : Env)
    (client_id case_id scope : string)
    (include_dimensions : option (list string)) (use_cache : bool) :
  cache_miss w env client_id case_id scope use_cache ->
  build_context az w env client_id case_id scope include_dimensions use_cache
  = let w0 := after_cache_check w env client_id case_id scope use_cache in
    match _determine_dimensions scope include_dimensions with
    | Raise e => (Raise e, w0)
    | Ok dims =>
        let '(results, w1) :=
          _build_dimensions_parallel az w0 client_id case_id dims in
        match make_response env case_id results with
        | Raise e => (Raise e, w1)
        | Ok r =>
            (Ok r,
             if ContextResponse.is_complete r && use_cache
             then _cache_context w1 client_id case_id scope r (now_end env)
             else w1)
        end
    end.
Proof.
  intros Hmiss. unfold build_context, after_cache_check.
  destruct use_cache.
  - destruct Hmiss as [Hmiss | Hmiss]; [discriminate | ].
    destruct (_check_cache w client_id case_id scope (now_start env))
      as [cached w0]. simpl in Hmiss. subst cached. reflexivity.
  - reflexivity.
Qed.

(** A freshly built response (one not flagged as cached) comes from
    [make_response] on the results of the fan-out. *)
Lemma build_context_fresh (az : Analyzers) (w : World) (env : Env)
    (client_id case_id scope : string)
    (include_dimensions : option (list string)) (use_cache : bool)
    (r : ContextResponse.t) (w' : World) :
  build_context az w env client_id case_id scope include_dimensions use_cache
  = (Ok r, w') ->
  ContextResponse.cached r = false ->
  exists dims,
    _determine_dimensions scope include_dimensions = Ok dims /\
    make_response env case_id
      (fst (_build_dimensions_parallel az w client_id case_id dims)) = Ok r.
Proof.
  unfold build_context. intros H Hfresh.
  destruct (if use_cache
            then _check_cache w client_id case_id scope (now_start env)
            else (None, w)) as [[cached | ] w0].
  { injection H as <- _. simpl in Hfresh. discriminate. }
  destruct (_determine_dimensions scope include_dimensions) as [dims | ];
    [ | discriminate].
  exists dims. split; [reflexivity | ].
  unfold _build_dimensions_parallel in *. simpl.
  destruct (make_response env case_id _) as [r0 | ]; [ | discriminate].
  now injection H as <- _.
Qed.

(** ** Partial failure of the fan-out *)


Lemma task_who az c k :
  task az c k "WHO" = gathered Who (who_analyzer az c k).
Proof. unfold task, analyze. simpl. now destruct (who_analyzer az c k). Qed.
Lemma task_what az c k :
  task az c k "WHAT" = gathered What (what_analyzer az c k).
Proof. unfold task, analyze. simpl. now destruct (what_analyzer az c k). Qed.
Lemma task_where az c k :
  task az c k "WHERE" = gathered Where (where_analyzer az c k).
Proof. unfold task, analyze. simpl. now destruct (where_analyzer az c k). Qed.
Lemma task_when az c k :
  task az c k "WHEN" = gathered When (when_analyzer az c k).
Proof. unfold task, analyze. simpl. now destruct (when_analyzer az c k). Qed.
Lemma task_why az c k :
  task az c k "WHY" = gathered Why (why_analyzer az c k).
Proof. unfold task, analyze. simpl. now destruct (why_analyzer az c k). Qed.

(** The record of an outcome that is a context or an instance of
    [Exception]. *)
Lemma gathered_absorbed {A} (inj : A -> DimensionContext) (r : result Exn A) :
  (forall e, r = Raise e -> is_Exception e = true) ->
  gathered inj r = option_map inj (to_option r).
Proof.
  intros H. destruct r as [a | e]; [reflexivity | ].
  cbn [gathered]. now rewrite (H e eq_refl).
Qed.

(** The record of any outcome: typed, absent, or the raised object. *)
Lemma gathered_cases {A} (inj : A -> DimensionContext) (r : result Exn A) :
  gathered inj r = option_map inj (to_option r) \/
  exists e, r = Raise e /\ is_Exception e = false /\
            gathered inj r = Some (Raised e).
Proof.
  destruct r as [a | e]; [now left | ]. cbn [gathered].
  destruct (is_Exception e) eqn:E; [now left | right; eauto].
Qed.

Lemma exceptions_only_who az c k names :
  raise_exceptions_only az c k names -> In "WHO" names ->
  forall e, who_analyzer az c k = Raise e -> is_Exception e = true.
Proof.
  intros H Hin e He. apply (H "WHO" e Hin). unfold analyze. simpl. now rewrite He.
Qed.
Lemma exceptions_only_what az c k names :
  raise_exceptions_only az c k names -> In "WHAT" names ->
  forall e, what_analyzer az c k = Raise e -> is_Exception e = true.
Proof.
  intros H Hin e He. apply (H "WHAT" e Hin). unfold analyze. simpl. now rewrite He.
Qed.
Lemma exceptions_only_where az c k names :
  raise_exceptions_only az c k names -> In "WHERE" names ->
  forall e, where_analyzer az c k = Raise e -> is_Exception e = true.
Proof.
  intros H Hin e He. apply (H "WHERE" e Hin). unfold analyze. simpl. now rewrite He.
Qed.
Lemma exceptions_only_when az c k names :
  raise_exceptions_only az c k names -> In "WHEN" names ->
  forall e, when_analyzer az c k = Raise e -> is_Exception e = true.
Proof.
  intros H Hin e He. apply (H "WHEN" e Hin). unfold analyze. simpl. now rewrite He.
Qed.
Lemma exceptions_only_why az c k names :
  raise_exceptions_only az c k names -> In "WHY" names ->
  forall e, why_analyzer az c k = Raise e -> is_Exception e = true.
Proof.
  intros H Hin e He. apply (H "WHY" e Hin). unfold analyze. simpl. now rewrite He.
Qed.












Lemma analyzer_calls_after_cache_check w env client_id case_id scope use_cache :
  analyzer_calls (after_cache_check w env client_id case_id scope use_cache)
  = analyzer_calls w.
Proof.
  unfold after_cache_check, _check_cache. destruct use_cache; [ | reflexivity].
  now destruct (CacheManager.get _ _ _ _ _ _).
Qed.








(** ** The ordered dictionary *)

Section OrderedDictFacts.

Context {A : Type}.
Implicit Types (d : OrderedDict.t A) (k : string) (a : A).

Import OrderedDict.

Lemma getitem_In k d a : getitem k d = Some a -> In k (keys d).
Proof.
  induction d as [ | [k' a'] d IH]; simpl; [discriminate | ].
  destruct (String.eqb_spec k k'); auto.
Qed.

Lemma getitem_notin k d : ~ In k (keys d) -> getitem k d = None.
Proof.
  induction d as [ | [k' a'] d IH]; simpl; [reflexivity | ].
  intros Hn. destruct (String.eqb_spec k k') as [-> | _]; [tauto | ].
  apply IH. tauto.
Qed.

Lemma getitem_present k d : In k (keys d) -> exists a, getitem k d = Some a.
Proof.
  induction d as [ | [k' a'] d IH]; simpl; [contradiction | ].
  intros [-> | Hin].
  - rewrite String.eqb_refl. eauto.
  - destruct (String.eqb k k'); eauto.
Qed.

Lemma keys_app d1 d2 : keys (d1 ++ d2) = keys d1 ++ keys d2.
Proof. apply map_app. Qed.

Lemma keys_delitem k d : keys (delitem k d) = without k (keys d).
Proof.
  induction d as [ | [k' a'] d IH]; simpl; [reflexivity | ].
  destruct (String.eqb k k'); simpl; now rewrite IH.
Qed.

Lemma without_notin k (ks : list string) : ~ In k ks -> without k ks = ks.
Proof.
  induction ks as [ | x ks IH]; simpl; [reflexivity | ].
  intros Hn. destruct (String.eqb_spec k x) as [-> | _]; [tauto | ].
  simpl. f_equal. apply IH. tauto.
Qed.

Lemma in_without k x (ks : list string) :
  In x (without k ks) <-> In x ks /\ x <> k.
Proof.
  unfold without. rewrite filter_In.
  destruct (String.eqb_spec k x); simpl; intuition congruence.
Qed.

Lemma NoDup_without k (ks : list string) : NoDup ks -> NoDup (without k ks).
Proof. apply NoDup_filter. Qed.

Lemma without_app k (xs ys : list string) :
  without k (xs ++ ys) = without k xs ++ without k ys.
Proof. apply filter_app. Qed.

Lemma NoDup_touch k (ks : list string) : NoDup ks -> NoDup (touch k ks).
Proof.
  intros Hnd. unfold touch. apply NoDup_app.
  - now apply NoDup_without.
  - repeat constructor. simpl. tauto.
  - intros x Hx [<- | []]. apply in_without in Hx. tauto.
Qed.

Lemma touch_new k (ks : list string) : ~ In k ks -> touch k ks = ks ++ [k].
Proof. intros Hn. unfold touch. now rewrite without_notin. Qed.

Lemma delitem_notin k d : ~ In k (keys d) -> delitem k d = d.
Proof.
  induction d as [ | [k' a'] d IH]; simpl; [reflexivity | ].
  intros Hn. destruct (String.eqb_spec k k') as [-> | _]; [tauto | ].
  f_equal. apply IH. tauto.
Qed.

Lemma delitem_head k a d : wf ((k, a) :: d) -> delitem k ((k, a) :: d) = d.
Proof.
  unfold wf. simpl. intros Hnd. rewrite String.eqb_refl.
  apply delitem_notin. now inversion Hnd.
Qed.

Lemma getitem_delitem_same k d : getitem k (delitem k d) = None.
Proof.
  apply getitem_notin. rewrite keys_delitem, in_without. tauto.
Qed.

Lemma getitem_delitem_other k k' d :
  k <> k' -> getitem k' (delitem k d) = getitem k' d.
Proof.
  intros Hne. induction d as [ | [k0 a0] d IH]; simpl; [reflexivity | ].
  destruct (String.eqb_spec k k0) as [-> | Hk]; simpl.
  - destruct (String.eqb_spec k' k0); [congruence | exact IH].
  - now rewrite IH.
Qed.

Lemma length_delitem k d :
  wf d -> In k (keys d) -> S (List.length (delitem k d)) = List.length d.
Proof.
  unfold wf. induction d as [ | [k' a'] d IH]; simpl; [contradiction | ].
  intros Hnd Hin. inversion Hnd as [ | ? ? Hnotin Hnd']; subst.
  destruct (String.eqb_spec k k') as [-> | Hne].
  - now rewrite delitem_notin.
  - simpl. f_equal. apply IH; [exact Hnd' | ]. destruct Hin; congruence.
Qed.

Lemma setitem_new k a d : ~ In k (keys d) -> setitem k a d = d ++ [(k, a)].
Proof.
  induction d as [ | [k' a'] d IH]; simpl; [reflexivity | ].
  intros Hn. destruct (String.eqb_spec k k') as [-> | _]; [tauto | ].
  f_equal. apply IH. tauto.
Qed.

Lemma keys_setitem_present k a d : In k (keys d) -> keys (setitem k a d) = keys d.
Proof.
  induction d as [ | [k' a'] d IH]; simpl; [contradiction | ].
  intros Hin. destruct (String.eqb_spec k k') as [-> | Hne]; simpl.
  - reflexivity.
  - f_equal. apply IH. destruct Hin; congruence.
Qed.

Lemma getitem_setitem_same k a d : getitem k (setitem k a d) = Some a.
Proof.
  induction d as [ | [k' a'] d IH]; simpl.
  - now rewrite String.eqb_refl.
  - destruct (String.eqb_spec k k') as [-> | Hne]; simpl.
    + now rewrite String.eqb_refl.
    + destruct (String.eqb_spec k k'); [contradiction | exact IH].
Qed.

Lemma getitem_setitem_other k k' a d :
  k <> k' -> getitem k' (setitem k a d) = getitem k' d.
Proof.
  intros Hne. induction d as [ | [k0 a0] d IH]; simpl.
  - destruct (String.eqb_spec k' k); [congruence | reflexivity].
  - destruct (String.eqb_spec k k0) as [-> | Hk]; simpl.
    + destruct (String.eqb_spec k' k0); [congruence | reflexivity].
    + now rewrite IH.
Qed.

Lemma getitem_app k d1 d2 :
  getitem k (d1 ++ d2)
  = match getitem k d1 with Some a => Some a | None => getitem k d2 end.
Proof.
  induction d1 as [ | [k' a'] d1 IH]; simpl; [reflexivity | ].
  now destruct (String.eqb k k').
Qed.

Lemma keys_move_to_end k d :
  In k (keys d) -> keys (move_to_end k d) = touch k (keys d).
Proof.
  intros Hin. unfold move_to_end, touch.
  destruct (getitem_present k d Hin) as [a ->].
  now rewrite keys_app, keys_delitem.
Qed.

Lemma getitem_move_to_end k k' d :
  getitem k' (move_to_end k d) = getitem k' d.
Proof.
  unfold move_to_end. destruct (getitem k d) as [a | ] eqn:E; [ | reflexivity].
  rewrite getitem_app. destruct (String.eqb_spec k k') as [<- | Hne].
  - rewrite getitem_delitem_same. simpl. now rewrite String.eqb_refl.
  - rewrite (getitem_delitem_other _ _ _ Hne).
    destruct (getitem k' d); [reflexivity | ]. simpl.
    destruct (String.eqb_spec k' k); [congruence | reflexivity].
Qed.

Lemma keys_setitem k a d :
  keys (setitem k a d) = if contains k d then keys d else keys d ++ [k].
Proof.
  unfold contains. destruct (getitem k d) as [a' | ] eqn:E.
  - apply keys_setitem_present. eapply getitem_In, E.
  - rewrite setitem_new, keys_app; [reflexivity | ].
    intros Hin. destruct (getitem_present k d Hin) as [? H]. congruence.
Qed.

Lemma In_keys_setitem k a d : In k (keys (setitem k a d)).
Proof. eapply getitem_In, getitem_setitem_same. Qed.

(** Writing a key and moving it to the end touches it. *)
Lemma keys_set_then_move k a d :
  keys (move_to_end k (setitem k a d)) = touch k (keys d).
Proof.
  rewrite keys_move_to_end by apply In_keys_setitem.
  rewrite keys_setitem. unfold contains.
  destruct (getitem k d) eqn:E; [reflexivity | ].
  unfold touch. rewrite without_app. simpl. rewrite String.eqb_refl. simpl.
  now rewrite app_nil_r.
Qed.

Lemma length_keys d : List.length (keys d) = List.length d.
Proof. apply length_map. Qed.

Lemma first_key_keys d : first_key d = hd_error (keys d).
Proof. now destruct d as [ | [k a] d]. Qed.

Lemma delitem_first k d :
  wf d -> first_key d = Some k -> keys (delitem k d) = tl (keys d).
Proof.
  destruct d as [ | [k' a'] d]; simpl; [discriminate | ].
  intros Hwf [= ->]. change (keys (delitem k ((k, a') :: d)) = keys d).
  now rewrite delitem_head.
Qed.

End OrderedDictFacts.

(** ** The bounded recency cache *)

Section LRUFacts.

Context {V : Type}.
Implicit Types (c : LRUCache.t V) (k : string).

Lemma NoDup_tl (ks : list string) : NoDup ks -> NoDup (tl ks).
Proof. destruct ks; simpl; [auto | now inversion 1]. Qed.

Lemma init_wf (max_size default_ttl : Z) :
  wf_cache (@LRUCache.init V max_size default_ttl).
Proof. constructor. Qed.

Lemma set_max_size c k v ttl st now :
  LRUCache.max_size (LRUCache.set c k v ttl st now) = LRUCache.max_size c.
Proof.
  unfold LRUCache.set.
  destruct (_ >? _); [ | reflexivity].
  now destruct (OrderedDict.first_key _).
Qed.

(** [set] touches the key, then drops the head of the recency order when
    the size exceeds the capacity. *)
Lemma set_recency c k v ttl st now :
  wf_cache c ->
  recency (LRUCache.set c k v ttl st now)
  = let ks := touch k (recency c) in
    if Z.of_nat (List.length ks) >? LRUCache.max_size c then tl ks else ks.
Proof.
  intros Hwf. unfold LRUCache.set, recency. cbv zeta.
  set (entry := CacheEntry.make k v now _ 0 None st).
  set (d := OrderedDict.move_to_end k (OrderedDict.setitem k entry (LRUCache.cache c))).
  assert (Hk : OrderedDict.keys d = touch k (OrderedDict.keys (LRUCache.cache c)))
    by apply keys_set_then_move.
  rewrite <- Hk, length_keys.
  destruct (Z.of_nat (List.length d) >? LRUCache.max_size c); [ | reflexivity].
  destruct (OrderedDict.first_key d) as [oldest | ] eqn:E; simpl.
  - apply delitem_first; [ | exact E].
    unfold OrderedDict.wf. rewrite Hk. now apply NoDup_touch.
  - rewrite first_key_keys, Hk in E. unfold touch in E.
    destruct (without k _); discriminate.
Qed.

Lemma set_wf c k v ttl st now :
  wf_cache c -> wf_cache (LRUCache.set c k v ttl st now).
Proof.
  intros Hwf. unfold wf_cache, OrderedDict.wf.
  change (NoDup (recency (LRUCache.set c k v ttl st now))).
  rewrite set_recency by exact Hwf. cbv zeta.
  destruct (_ >? _); [apply NoDup_tl | ]; now apply NoDup_touch.
Qed.

Lemma set_many_app c (ws1 ws2 : list (Write V)) :
  set_many c (ws1 ++ ws2) = set_many (set_many c ws1) ws2.
Proof. apply fold_left_app. Qed.

(** Writes of new keys that fit the capacity append to the recency order. *)
Lemma set_many_fits (ws : list (Write V)) c :
  wf_cache c ->
  NoDup (recency c ++ write_keys ws) ->
  Z.of_nat (List.length (recency c) + List.length ws) <= LRUCache.max_size c ->
  recency (set_many c ws) = recency c ++ write_keys ws /\
  wf_cache (set_many c ws) /\
  LRUCache.max_size (set_many c ws) = LRUCache.max_size c.
Proof.
  revert c. induction ws as [ | x ws IH]; intros c Hwf Hnd Hfit; simpl.
  - now rewrite app_nil_r.
  - assert (Hnew : ~ In (write_key x) (recency c)).
    { simpl in Hnd. apply NoDup_remove_2 in Hnd. intros Hin. apply Hnd.
      apply in_or_app. now left. }
    assert (Hrec : recency (apply_write c x) = recency c ++ [write_key x]).
    { unfold apply_write. rewrite set_recency by exact Hwf. cbv zeta.
      rewrite (touch_new _ _ Hnew), length_app. simpl List.length.
      replace (_ >? _) with false; [reflexivity | ].
      symmetry. rewrite Z.gtb_ltb. apply Z.ltb_ge. simpl List.length in Hfit. lia. }
    destruct (IH (apply_write c x)) as [H1 [H2 H3]].
    + now apply set_wf.
    + rewrite Hrec, <- app_assoc. exact Hnd.
    + unfold apply_write at 2. rewrite set_max_size, Hrec, length_app.
      simpl List.length in *. lia.
    + unfold set_many in *. rewrite H1, H3, Hrec, <- app_assoc.
      unfold apply_write. rewrite set_max_size. auto.
Qed.

(** After [C + 1] writes of distinct keys into an empty cache of capacity
    [C], the first-written key is gone and the others remain, in order. *)
Lemma overflow_evicts_first (C : nat) (default_ttl : Z) (ws : list (Write V)) :
  NoDup (write_keys ws) ->
  List.length ws = S C ->
  recency (set_many (LRUCache.init (Z.of_nat C) default_ttl) ws)
  = tl (write_keys ws).
Proof.
  intros Hnd Hlen.
  destruct (exists_last (l := ws)) as [ws0 [x ->]];
    [intros ->; discriminate | ].
  rewrite length_app in Hlen. simpl in Hlen.
  unfold write_keys in *. rewrite map_app in *. simpl map in *.
  assert (Hnd0 : NoDup (map write_key ws0)) by (eapply NoDup_app_remove_r, Hnd).
  destruct (set_many_fits ws0 (LRUCache.init (Z.of_nat C) default_ttl))
    as [Hrec [Hwf Hmax]].
  - apply init_wf.
  - exact Hnd0.
  - simpl. lia.
  - rewrite set_many_app. simpl set_many.
    unfold apply_write. rewrite set_recency by exact Hwf. cbv zeta.
    rewrite Hrec, Hmax. simpl app.
    rewrite touch_new.
    2:{ intros Hin. apply NoDup_remove_2 in Hnd. apply Hnd.
        now rewrite app_nil_r. }
    replace (_ >? _) with true; [reflexivity | ].
    symmetry. apply Z.gtb_lt. unfold write_keys.
    rewrite length_app, length_map. simpl. lia.
Qed.

(** A write into a cache within its capacity leaves it within capacity,
    and removes at most the one least recently used key. *)
Lemma set_enforces_capacity c k v ttl st now :
  wf_cache c ->
  0 <= LRUCache.max_size c ->
  LRUCache.len c <= LRUCache.max_size c ->
  LRUCache.len (LRUCache.set c k v ttl st now) <= LRUCache.max_size c.
Proof.
  intros Hwf Hpos Hlen. unfold LRUCache.len in *.
  rewrite <- length_keys. change (OrderedDict.keys _) with
    (recency (LRUCache.set c k v ttl st now)).
  rewrite set_recency by exact Hwf. cbv zeta.
  rewrite <- length_keys in Hlen. fold (recency c) in Hlen.
  assert (Hw : (List.length (without k (recency c)) <= List.length (recency c))%nat)
    by apply filter_length_le.
  unfold touch. destruct (_ >? _) eqn:E.
  - destruct (without k (recency c)) as [ | x xs] eqn:Ex; simpl; [lia | ].
    rewrite length_app. simpl in *. lia.
  - rewrite Z.gtb_ltb in E. apply Z.ltb_ge in E. exact E.
Qed.

(** A hit moves the key to the end of the recency order. *)
Lemma get_hit c k e now :
  OrderedDict.getitem k (LRUCache.cache c) = Some e ->
  CacheEntry.is_expired now e = false ->
  fst (LRUCache.get c k now) = Some (CacheEntry.value e) /\
  recency (snd (LRUCache.get c k now)) = touch k (recency c) /\
  OrderedDict.getitem k (LRUCache.cache (snd (LRUCache.get c k now)))
  = Some (CacheEntry.increment_hits now e) /\
  (forall k', k' <> k ->
     OrderedDict.getitem k' (LRUCache.cache (snd (LRUCache.get c k now)))
     = OrderedDict.getitem k' (LRUCache.cache c)).
Proof.
  intros Hget Hexp. unfold LRUCache.get. rewrite Hget, Hexp. simpl.
  assert (Hin : In k (OrderedDict.keys (LRUCache.cache c)))
    by (eapply getitem_In, Hget).
  split; [reflexivity | ]. split; [ | split].
  - unfold recency. simpl. rewrite keys_setitem_present.
    + now apply keys_move_to_end.
    + rewrite keys_move_to_end by exact Hin. unfold touch.
      apply in_or_app. right. now left.
  - apply getitem_setitem_same.
  - intros k' Hne. rewrite getitem_setitem_other by congruence.
    apply getitem_move_to_end.
Qed.

(** Reading an expired entry purges it. *)
Lemma get_expired c k e now :
  wf_cache c ->
  OrderedDict.getitem k (LRUCache.cache c) = Some e ->
  CacheEntry.is_expired now e = true ->
  fst (LRUCache.get c k now) = None /\
  OrderedDict.getitem k (LRUCache.cache (snd (LRUCache.get c k now))) = None /\
  recency (snd (LRUCache.get c k now)) = without k (recency c) /\
  LRUCache.len (snd (LRUCache.get c k now)) = LRUCache.len c - 1 /\
  (forall k', k' <> k ->
     OrderedDict.getitem k' (LRUCache.cache (snd (LRUCache.get c k now)))
     = OrderedDict.getitem k' (LRUCache.cache c)).
Proof.
  intros Hwf Hget Hexp. unfold LRUCache.get. rewrite Hget, Hexp. simpl.
  assert (Hin : In k (OrderedDict.keys (LRUCache.cache c)))
    by (eapply getitem_In, Hget).
  split; [reflexivity | ]. split; [apply getitem_delitem_same | ].
  split; [apply keys_delitem | ]. split.
  - unfold LRUCache.len. simpl.
    rewrite <- (length_delitem k (LRUCache.cache c) Hwf Hin). lia.
  - intros k' Hne. apply getitem_delitem_other. congruence.
Qed.

End LRUFacts.

Lemma contains_In {A} (k : string) (d : OrderedDict.t A) :
  OrderedDict.contains k d = true <-> In k (OrderedDict.keys d).
Proof.
  unfold OrderedDict.contains. split.
  - destruct (OrderedDict.getitem k d) eqn:E; [intros _ | discriminate].
    eapply getitem_In, E.
  - intros Hin. now destruct (getitem_present k d Hin) as [a ->].
Qed.

Lemma scenario_abcd_recency {V} (a b c d : V) (now : datetime) :
  recency (scenario_abcd a b c d now) = ["C"; "A"; "D"].
Proof.
  unfold scenario_abcd, recency. cbv zeta.
  assert (Hfresh : (now + 60 <=? now) = false) by (apply Z.leb_gt; lia).
  unfold LRUCache.set, LRUCache.get, LRUCache.init, LRUCache.ttl_or_default,
    CacheEntry.is_expired.
  cbn. rewrite Hfresh. reflexivity.
Qed.

(** C4. The fast tier keeps a total recency order, updated by writes and by
    successful reads: [C + 1] writes of distinct keys into an empty cache of
    capacity [C] evict exactly the first-written key; every write touches
    its key and then drops at most the one least recently used key, keeping
    the size within the capacity; a successful read touches its key; and in
    a cache of capacity 3, insert A, B, C, read A, insert D leaves C, A, D
    (B is evicted). *)
Theorem lru_recency_order (V : Type) :
  (forall (C : nat) (default_ttl : Z) (x : Write V) (ws : list (Write V)),
     NoDup (write_keys (x :: ws)) ->
     List.length (x :: ws) = S C ->
     let c := set_many (LRUCache.init (Z.of_nat C) default_ttl) (x :: ws) in
     recency c = write_keys ws /\
     OrderedDict.contains (write_key x) (LRUCache.cache c) = false /\
     (forall k, In k (write_keys ws) ->
        OrderedDict.contains k (LRUCache.cache c) = true)) /\
  (forall (c : LRUCache.t V) k v ttl st now,
     wf_cache c ->
     let ks := touch k (recency c) in
     recency (LRUCache.set c k v ttl st now)
     = (if Z.of_nat (List.length ks) >? LRUCache.max_size c then tl ks else ks) /\
     wf_cache (LRUCache.set c k v ttl st now) /\
     (0 <= LRUCache.max_size c ->
      LRUCache.len c <= LRUCache.max_size c ->
      LRUCache.len (LRUCache.set c k v ttl st now) <= LRUCache.max_size c)) /\
  (forall (c : LRUCache.t V) k e now,
     OrderedDict.getitem k (LRUCache.cache c) = Some e ->
     CacheEntry.is_expired now e = false ->
     recency (snd (LRUCache.get c k now)) = touch k (recency c)) /\
  (forall (a b c d : V) (now : datetime),
     recency (scenario_abcd a b c d now) = ["C"; "A"; "D"]).
Proof.
  split; [ | split; [ | split]].
  - intros C default_ttl x ws Hnd Hlen c.
    assert (Hrec : recency c = write_keys ws)
      by (apply (overflow_evicts_first C default_ttl (x :: ws) Hnd Hlen)).
    split; [exact Hrec | ]. split.
    + apply not_true_is_false. intros Hin. apply contains_In in Hin.
      fold (recency c) in Hin. rewrite Hrec in Hin.
      simpl in Hnd. now inversion Hnd.
    + intros k Hk. apply contains_In. fold (recency c). now rewrite Hrec.
  - intros c k v ttl st now Hwf ks. split; [ | split].
    + now apply set_recency.
    + now apply set_wf.
    + now apply set_enforces_capacity.
  - intros c k e now Hget Hexp. now apply (get_hit c k e now Hget Hexp).
  - apply @scenario_abcd_recency.
Qed.

Lemma lru_recency_order_witness :
  let c := set_many (LRUCache.init 3 60) four_writes in
  recency c = ["k2"; "k3"; "k4"] /\
  OrderedDict.contains "k1" (LRUCache.cache c) = false /\
  (forall k, In k ["k2"; "k3"; "k4"] ->
     OrderedDict.contains k (LRUCache.cache c) = true).
Proof.
  apply (proj1 (lru_recency_order string) 3%nat 60
           (make_write "k1" "v1" None "active" 10)
           [make_write "k2" "v2" (Some 30) "active" 11;
            make_write "k3" "v3" None "closed" 12;
            make_write "k4" "v4" None "active" 13]).
  - repeat constructor; simpl; intuition discriminate.
  - reflexivity.
Defined.

(** C5. Reading a key whose entry has expired returns nothing and removes
    the entry, so that the size reported by the statistics is one smaller;
    reading a present, unexpired key marks it most recently used, increments
    its hit counter and returns the stored value unchanged. *)
Theorem get_respects_expiry (V : Type) (c : LRUCache.t V) (k : string)
    (e : CacheEntry.t V) (now : datetime) :
  wf_cache c ->
  OrderedDict.getitem k (LRUCache.cache c) = Some e ->
  (CacheEntry.expires_at e <= now ->
   fst (LRUCache.get c k now) = None /\
   OrderedDict.contains k (LRUCache.cache (snd (LRUCache.get c k now))) = false /\
   (forall later,
      LRUCache.size (LRUCache.get_stats (snd (LRUCache.get c k now)) later)
      = LRUCache.size (LRUCache.get_stats c later) - 1)) /\
  (now < CacheEntry.expires_at e ->
   fst (LRUCache.get c k now) = Some (CacheEntry.value e) /\
   recency (snd (LRUCache.get c k now)) = touch k (recency c) /\
   exists e',
     OrderedDict.getitem k (LRUCache.cache (snd (LRUCache.get c k now))) = Some e' /\
     CacheEntry.hit_count e' = CacheEntry.hit_count e + 1 /\
     CacheEntry.value e' = CacheEntry.value e /\
     CacheEntry.expires_at e' = CacheEntry.expires_at e).
Proof.
  intros Hwf Hget. split.
  - intros Hexp.
    assert (Hb : CacheEntry.is_expired now e = true)
      by (now apply Z.leb_le).
    destruct (get_expired c k e now Hwf Hget Hb) as [H1 [H2 [_ [H4 _]]]].
    split; [exact H1 | ]. split.
    + unfold OrderedDict.contains. now rewrite H2.
    + intros later. exact H4.
  - intros Hlive.
    assert (Hb : CacheEntry.is_expired now e = false)
      by (apply Z.leb_gt; exact Hlive).
    destruct (get_hit c k e now Hget Hb) as [H1 [H2 [H3 _]]].
    split; [exact H1 | ]. split; [exact H2 | ].
    exists (CacheEntry.increment_hits now e). auto.
Qed.

Lemma get_respects_expiry_witness :
  (fst (LRUCache.get short_lived "A" 102) = None /\
   OrderedDict.contains "A" (LRUCache.cache (snd (LRUCache.get short_lived "A" 102)))
   = false /\
   (forall later,
      LRUCache.size (LRUCache.get_stats (snd (LRUCache.get short_lived "A" 102)) later)
      = LRUCache.size (LRUCache.get_stats short_lived later) - 1)) /\
  fst (LRUCache.get short_lived "A" 100) = Some "va".
Proof.
  split.
  - apply (proj1 (get_respects_expiry string short_lived "A" short_lived_entry
                    102 ltac:(repeat constructor; simpl; tauto) eq_refl)).
    simpl. lia.
  - apply (proj2 (get_respects_expiry string short_lived "A" short_lived_entry
                    100 ltac:(repeat constructor; simpl; tauto) eq_refl)).
    simpl. lia.
Defined.

(** ** Cache keys *)

Section StringFacts.

Local Open Scope string_scope.

Lemma append_inv_head (p x y : string) : p ++ x = p ++ y -> x = y.
Proof.
  induction p as [ | a p IH]; simpl; [auto | ].
  intros [= H]. now apply IH.
Qed.

Lemma length_append (s t : string) :
  String.length (s ++ t) = (String.length s + String.length t)%nat.
Proof. induction s as [ | a s IH]; simpl; [reflexivity | now rewrite IH]. Qed.

(** Two strings split before suffixes of equal length agree part by part. *)
Lemma append_inv_suffix (s s' t t' : string) :
  String.length t = String.length t' ->
  s ++ t = s' ++ t' -> s = s' /\ t = t'.
Proof.
  revert s'. induction s as [ | a s IH]; intros [ | a' s'] Hlen H; simpl in H.
  - auto.
  - exfalso. rewrite H in Hlen. simpl in Hlen. rewrite length_append in Hlen. lia.
  - exfalso. rewrite <- H in Hlen. simpl in Hlen. rewrite length_append in Hlen. lia.
  - injection H as -> H. destruct (IH s' Hlen H) as [-> ->]. auto.
Qed.

(** Two colon-free strings followed by a colon agree when the whole strings
    agree. *)
Lemma append_inv_colon (a a' r r' : string) :
  Str.mem_char Str.colon a = false ->
  Str.mem_char Str.colon a' = false ->
  a ++ String Str.colon r = a' ++ String Str.colon r' ->
  a = a' /\ r = r'.
Proof.
  revert a'. induction a as [ | x a IH]; intros [ | x' a'] Ha Ha' H;
    simpl in *.
  - injection H as ->. auto.
  - injection H as <- _. now rewrite Ascii.eqb_refl in Ha'.
  - injection H as -> _. now rewrite Ascii.eqb_refl in Ha.
  - injection H as -> H.
    destruct (Ascii.eqb x' Str.colon); [discriminate | ].
    destruct (IH a' Ha Ha' H) as [-> ->]. auto.
Qed.

End StringFacts.

(** The digest suffix of a key always has eight characters. *)
Lemma digest_prefix_length (s : string) :
  String.length (substring 0 8 (MD5.hexdigest s)) = 8%nat.
Proof.
  unfold MD5.hexdigest.
  destruct (MD5.digest_state (MD5.bytes_of_string s)) as [[[a b] c] d].
  reflexivity.
Qed.

(** The shape of a key: the readable fields, then the digest suffix. *)
Lemma generate_cache_key_shape (client_id case_id scope : string)
    (dimension : option string) :
  exists h, String.length h = 8%nat /\
    CacheManager._generate_cache_key client_id case_id scope dimension
    = ("context:" ++ client_id ++ String Str.colon
         (case_id ++ String Str.colon (scope ++ String Str.colon h)))%string.
Proof.
  eexists. split; [ | reflexivity]. apply digest_prefix_length.
Qed.

(** Under one tenant and one case, keys of different scopes differ. *)
Lemma generate_cache_key_scope (client_id case_id s s' : string)
    (d d' : option string) :
  CacheManager._generate_cache_key client_id case_id s d
  = CacheManager._generate_cache_key client_id case_id s' d' ->
  s = s'.
Proof.
  destruct (generate_cache_key_shape client_id case_id s d) as [h [Hh ->]].
  destruct (generate_cache_key_shape client_id case_id s' d') as [h' [Hh' ->]].
  intros H.
  apply (append_inv_head "context:") in H.
  apply append_inv_head in H. injection H as H.
  apply append_inv_head in H. injection H as H.
  apply append_inv_suffix in H; [tauto | simpl; congruence].
Qed.

(** C6 (as amended). Key generation is a function of its four arguments, so
    identical tuples give identical keys; and two tuples whose tenant ids and
    case ids contain no colon get different keys whenever they differ in
    tenant id, case id or scope. *)
Theorem cache_key_deterministic_and_separating
    (c k s : string) (d : option string) (c' k' s' : string) (d' : option string) :
  ((c, k, s, d) = (c', k', s', d') ->
   CacheManager._generate_cache_key c k s d
   = CacheManager._generate_cache_key c' k' s' d') /\
  (Str.mem_char Str.colon c = false -> Str.mem_char Str.colon k = false ->
   Str.mem_char Str.colon c' = false -> Str.mem_char Str.colon k' = false ->
   (c, k, s) <> (c', k', s') ->
   CacheManager._generate_cache_key c k s d
   <> CacheManager._generate_cache_key c' k' s' d').
Proof.
  split.
  - intros [= -> -> -> ->]. reflexivity.
  - intros Hc Hk Hc' Hk' Hne H. apply Hne.
    destruct (generate_cache_key_shape c k s d) as [h [Hh E]].
    destruct (generate_cache_key_shape c' k' s' d') as [h' [Hh' E']].
    rewrite E, E' in H. clear E E'.
    apply (append_inv_head "context:") in H.
    apply append_inv_colon in H; [ | assumption..]. destruct H as [-> H].
    apply append_inv_colon in H; [ | assumption..]. destruct H as [-> H].
    apply append_inv_suffix in H; [ | simpl; congruence].
    destruct H as [-> _]. reflexivity.
Qed.

Lemma cache_key_deterministic_and_separating_witness :
  CacheManager._generate_cache_key "client-123" "case-456" "comprehensive" None
  <> CacheManager._generate_cache_key "client-123" "case-457" "comprehensive" None.
Proof.
  apply (proj2 (cache_key_deterministic_and_separating
                  "client-123" "case-456" "comprehensive" None
                  "client-123" "case-457" "comprehensive" None));
    try reflexivity.
  discriminate.
Defined.

(** C6, as stated, fails: a colon inside a field moves the field boundary,
    and the two tuples below share both the readable prefix and the digest. *)
Lemma cache_key_collision :
  ~ (forall (c k s : string) (d : option string)
            (c' k' s' : string) (d' : option string),
       (c, k, s, d) <> (c', k', s', d') ->
       CacheManager._generate_cache_key c k s d
       <> CacheManager._generate_cache_key c' k' s' d').
Proof.
  intros H.
  apply (H "a:b" "c" "standard" None "a" "b:c" "standard" None).
  - discriminate.
  - vm_compute. reflexivity.
Qed.

(** An absent dimension and an empty dimension give the same key. *)
Lemma cache_key_empty_dimension (c k s : string) :
  CacheManager._generate_cache_key c k s (Some "")
  = CacheManager._generate_cache_key c k s None.
Proof. reflexivity. Qed.

(** ** The tiered cache manager *)

Section ManagerFacts.

Context {V : Type}.
Implicit Types (m : CacheManager.t V) (mc : LRUCache.t V).

Lemma with_cache_same mc : LRUCache.with_cache mc (LRUCache.cache mc) = mc.
Proof. now destruct mc. Qed.

Lemma lru_delete_purge mc key :
  LRUCache.delete mc key
  = (OrderedDict.contains key (LRUCache.cache mc), purge key mc).
Proof.
  unfold LRUCache.delete, purge.
  destruct (OrderedDict.contains key (LRUCache.cache mc)) eqn:E; [reflexivity | ].
  rewrite delitem_notin, with_cache_same; [reflexivity | ].
  intros Hin. apply contains_In in Hin. congruence.
Qed.

Lemma purge_wf key mc : wf_cache mc -> wf_cache (purge key mc).
Proof.
  unfold wf_cache, purge, OrderedDict.wf. simpl. rewrite keys_delitem.
  apply NoDup_without.
Qed.

Lemma purge_recency key mc : recency (purge key mc) = without key (recency mc).
Proof. apply keys_delitem. Qed.

Lemma purge_len key mc :
  wf_cache mc ->
  LRUCache.len (purge key mc)
  = LRUCache.len mc
    - (if OrderedDict.contains key (LRUCache.cache mc) then 1 else 0).
Proof.
  intros Hwf. unfold LRUCache.len, purge. simpl.
  destruct (OrderedDict.contains key (LRUCache.cache mc)) eqn:E.
  - apply contains_In in E.
    rewrite <- (length_delitem key (LRUCache.cache mc) Hwf E). lia.
  - rewrite delitem_notin; [lia | ].
    intros Hin. apply contains_In in Hin. congruence.
Qed.

Lemma contains_recency key mc :
  OrderedDict.contains key (LRUCache.cache mc) = true <-> In key (recency mc).
Proof. apply contains_In. Qed.

Lemma contains_purge_same key mc :
  OrderedDict.contains key (LRUCache.cache (purge key mc)) = false.
Proof.
  apply not_true_is_false. rewrite contains_recency, purge_recency, in_without.
  tauto.
Qed.

Lemma contains_purge_other key key' mc :
  key <> key' ->
  OrderedDict.contains key' (LRUCache.cache (purge key mc))
  = OrderedDict.contains key' (LRUCache.cache mc).
Proof.
  intros Hne. unfold OrderedDict.contains, purge. simpl.
  now rewrite getitem_delitem_other.
Qed.

(** The memory tier after a manager-level [set]. *)
Lemma memory_tier_set m client_id case_id scope v st d now :
  CacheManager.memory_tier
    (CacheManager.set m client_id case_id scope v st d now)
  = option_map
      (fun mc =>
         LRUCache.set mc
           (CacheManager._generate_cache_key client_id case_id scope d) v
           (Some CacheManager.MEMORY_TTL) st now)
      (CacheManager.memory_tier m).
Proof.
  unfold CacheManager.set, CacheManager.memory_set, CacheManager.memory_tier,
    CacheManager._set_in_redis, CacheManager._set_in_database.
  destruct m as [sc rc em er ed mem stats]. simpl.
  destruct em; simpl.
  - destruct mem as [mc | ]; simpl; destruct er, ed; simpl; reflexivity.
  - destruct er, ed; reflexivity.
Qed.

(** One key removed from every enabled tier: only the memory tier holds
    entries, the two slower tiers are the placeholders of the source. *)
Lemma delete_key_spec (n : Z) m key :
  let removed :=
    match CacheManager.memory_tier m with
    | Some mc => if OrderedDict.contains key (LRUCache.cache mc) then 1 else 0
    | None => 0
    end in
  exists m',
    CacheManager.delete_key (n, m) key = (n + removed, m') /\
    CacheManager.memory_tier m'
    = option_map (purge key) (CacheManager.memory_tier m) /\
    CacheManager.stats m' = CacheManager.stats m.
Proof.
  unfold CacheManager.delete_key, CacheManager.memory_tier,
    CacheManager._delete_from_redis, CacheManager._delete_from_database.
  destruct m as [sc rc em er ed mem stats]. simpl.
  destruct em; simpl.
  - destruct mem as [mc | ]; simpl.
    + rewrite lru_delete_purge. simpl.
      destruct (OrderedDict.contains key (LRUCache.cache mc));
        destruct er, ed; simpl; eexists; (split; [f_equal; lia | ]); auto.
    + destruct er, ed; simpl; eexists;
        (split; [f_equal; lia | ]); auto.
  - destruct er, ed; simpl; eexists; (split; [f_equal; lia | ]); auto.
Qed.

(** A lookup misses whenever the memory tier lacks the key: the two slower
    tiers never return a value. *)
Lemma get_miss m client_id case_id scope d now :
  memory_lacks m (CacheManager._generate_cache_key client_id case_id scope d) ->
  fst (CacheManager.get m client_id case_id scope d now) = None.
Proof.
  unfold memory_lacks, CacheManager.get.
  set (key := CacheManager._generate_cache_key client_id case_id scope d).
  assert (T2 : forall m0, fst (CacheManager.get_tier2 m0 key now) = None).
  { intros m0. unfold CacheManager.get_tier2, CacheManager.get_tier3,
      CacheManager._get_from_redis, CacheManager._get_from_database.
    destruct (CacheManager.enable_redis_cache m0); simpl;
      destruct (CacheManager.enable_db_cache m0); reflexivity. }
  destruct (CacheManager.memory_tier m) as [mc | ]; [ | intros _; apply T2].
  intros Hlack. unfold LRUCache.get, OrderedDict.contains in *.
  destruct (OrderedDict.getitem key (LRUCache.cache mc)); [discriminate | ].
  apply T2.
Qed.

(** A write of a new key keeps any suffix of the recency order that fits
    the capacity together with the key. *)
Lemma set_keeps_suffix mc k v ttl st now (pre suf : list string) :
  wf_cache mc ->
  recency mc = pre ++ suf ->
  ~ In k suf ->
  Z.of_nat (List.length suf) + 1 <= LRUCache.max_size mc ->
  exists pre', recency (LRUCache.set mc k v ttl st now) = pre' ++ suf ++ [k].
Proof.
  intros Hwf Hrec Hk Hfit. rewrite set_recency by exact Hwf. cbv zeta.
  unfold touch. rewrite Hrec, without_app, (without_notin k suf Hk).
  rewrite <- app_assoc.
  destruct (_ >? _) eqn:E; [ | eauto].
  destruct (without k pre) as [ | x xs]; simpl; [ | eauto].
  apply Z.gtb_lt in E. simpl in E. rewrite length_app in E. simpl in E. lia.
Qed.

End ManagerFacts.

Section Invalidate.

Context {V : Type}.
Implicit Types (m : CacheManager.t V) (mc : LRUCache.t V).

(** [delete] with the scope omitted removes the three scope keys of the
    case from the memory tier and counts the removed entries. *)
Lemma delete_all_scopes m client_id case_id dimension :
  let k := scope_key client_id case_id dimension in
  let removed mc :=
    (if OrderedDict.contains (k "minimal") (LRUCache.cache mc) then 1 else 0)
    + (if OrderedDict.contains (k "standard")
            (LRUCache.cache (purge (k "minimal") mc)) then 1 else 0)
    + (if OrderedDict.contains (k "comprehensive")
            (LRUCache.cache (purge (k "standard") (purge (k "minimal") mc)))
       then 1 else 0) in
  let n := match CacheManager.memory_tier m with
           | Some mc => removed mc
           | None => 0
           end in
  exists m',
    CacheManager.delete m client_id case_id None dimension = (n, m') /\
    CacheManager.memory_tier m'
    = option_map
        (fun mc => purge (k "comprehensive")
                     (purge (k "standard") (purge (k "minimal") mc)))
        (CacheManager.memory_tier m) /\
    CacheManager.stats m'
    = CacheManager.add_total_deletes n (CacheManager.stats m).
Proof.
  intros k removed n. unfold CacheManager.delete, CacheManager.known_scopes.
  cbn [fold_left]. cbv beta.
  change (CacheManager._generate_cache_key client_id case_id "minimal" dimension)
    with (k "minimal").
  change (CacheManager._generate_cache_key client_id case_id "standard" dimension)
    with (k "standard").
  change (CacheManager._generate_cache_key client_id case_id "comprehensive" dimension)
    with (k "comprehensive").
  destruct (delete_key_spec 0 m (k "minimal")) as [m1 [E1 [T1 S1]]].
  rewrite E1.
  destruct (delete_key_spec
              (0 + match CacheManager.memory_tier m with
                   | Some mc =>
                       if OrderedDict.contains (k "minimal") (LRUCache.cache mc)
                       then 1 else 0
                   | None => 0
                   end) m1 (k "standard")) as [m2 [E2 [T2 S2]]].
  rewrite E2.
  match goal with
  | |- context [CacheManager.delete_key (?a, m2) _] =>
      destruct (delete_key_spec a m2 (k "comprehensive")) as [m3 [E3 [T3 S3]]]
  end.
  rewrite E3.
  assert (Hn : 0
               + match CacheManager.memory_tier m with
                 | Some mc =>
                     if OrderedDict.contains (k "minimal") (LRUCache.cache mc)
                     then 1 else 0
                 | None => 0
                 end
               + match CacheManager.memory_tier m1 with
                 | Some mc =>
                     if OrderedDict.contains (k "standard") (LRUCache.cache mc)
                     then 1 else 0
                 | None => 0
                 end
               + match CacheManager.memory_tier m2 with
                 | Some mc =>
                     if OrderedDict.contains (k "comprehensive") (LRUCache.cache mc)
                     then 1 else 0
                 | None => 0
                 end = n).
  { subst n removed. rewrite T2, T1.
    destruct (CacheManager.memory_tier m); simpl; lia. }
  rewrite Hn. eexists. split; [reflexivity | ]. split.
  - unfold CacheManager.memory_tier in *. simpl.
    rewrite T3, T2, T1. now destruct (if CacheManager.enable_memory_cache m
                                      then CacheManager.memory_cache m else None).
  - simpl. now rewrite S3, S2, S1.
Qed.

Lemma delete_all_scopes_effect m client_id case_id dimension :
  match CacheManager.memory_tier m with
  | Some mc => wf_cache mc
  | None => True
  end ->
  let r := CacheManager.delete m client_id case_id None dimension in
  (forall scope, In scope CacheManager.known_scopes ->
     memory_lacks (snd r) (scope_key client_id case_id dimension scope)) /\
  fst r = memory_size m - memory_size (snd r) /\
  CacheManager.total_deletes (CacheManager.stats (snd r))
  = CacheManager.total_deletes (CacheManager.stats m) + fst r.
Proof.
  intros Hwf r.
  destruct (delete_all_scopes m client_id case_id dimension) as [m' [E [T S]]].
  subst r. rewrite E. cbn [fst snd].
  set (k := scope_key client_id case_id dimension) in *.
  split; [ | split].
  - intros scope Hscope. unfold memory_lacks. rewrite T.
    destruct (CacheManager.memory_tier m) as [mc | ]; cbn [option_map];
      [ | exact I].
    assert (D : forall a b, a = b \/ a <> b)
      by (intros a b; destruct (string_dec a b); auto).
    simpl in Hscope. destruct Hscope as [<- | [<- | [<- | []]]].
    + destruct (D (k "comprehensive") (k "minimal")) as [-> | N1];
        [apply contains_purge_same | rewrite contains_purge_other by exact N1].
      destruct (D (k "standard") (k "minimal")) as [-> | N2];
        [apply contains_purge_same | rewrite contains_purge_other by exact N2].
      apply contains_purge_same.
    + destruct (D (k "comprehensive") (k "standard")) as [-> | N1];
        [apply contains_purge_same | rewrite contains_purge_other by exact N1].
      apply contains_purge_same.
    + apply contains_purge_same.
  - unfold memory_size. rewrite T.
    destruct (CacheManager.memory_tier m) as [mc | ]; cbn [option_map];
      [ | reflexivity].
    rewrite !purge_len by (repeat apply purge_wf; exact Hwf). lia.
  - rewrite S. reflexivity.
Qed.

(** After the three scopes of a case are written into a memory tier with
    room for them, the three keys end the recency order. *)
Lemma three_scopes_recency mc (k1 k2 k3 : string) v1 v2 v3 st1 st2 st3 t1 t2 t3 :
  wf_cache mc -> 3 <= LRUCache.max_size mc ->
  k1 <> k2 -> k1 <> k3 -> k2 <> k3 ->
  let ttl := Some CacheManager.MEMORY_TTL in
  let mc3 :=
    LRUCache.set (LRUCache.set (LRUCache.set mc k1 v1 ttl st1 t1) k2 v2 ttl st2 t2)
      k3 v3 ttl st3 t3 in
  wf_cache mc3 /\ exists pre, recency mc3 = pre ++ [k1; k2; k3].
Proof.
  intros Hwf Hmax N12 N13 N23 ttl mc3.
  set (mc1 := LRUCache.set mc k1 v1 ttl st1 t1).
  set (mc2 := LRUCache.set mc1 k2 v2 ttl st2 t2).
  assert (W1 : wf_cache mc1) by now apply set_wf.
  assert (W2 : wf_cache mc2) by now apply set_wf.
  assert (M1 : LRUCache.max_size mc1 = LRUCache.max_size mc) by apply set_max_size.
  assert (M2 : LRUCache.max_size mc2 = LRUCache.max_size mc)
    by (unfold mc2; now rewrite set_max_size).
  split; [now apply set_wf | ].
  destruct (set_keeps_suffix mc k1 v1 ttl st1 t1 (recency mc) [])
    as [p1 R1]; [exact Hwf | now rewrite app_nil_r | tauto | simpl; lia | ].
  destruct (set_keeps_suffix mc1 k2 v2 ttl st2 t2 p1 [k1])
    as [p2 R2]; [exact W1 | exact R1 | | simpl; lia | ].
  { simpl. intuition congruence. }
  destruct (set_keeps_suffix mc2 k3 v3 ttl st3 t3 p2 [k1; k2])
    as [p3 R3]; [exact W2 | exact R2 | | simpl; lia | ].
  { simpl. intuition congruence. }
  exists p3. exact R3.
Qed.

Lemma memory_tier_three_scopes m client_id case_id v1 v2 v3 st1 st2 st3 t1 t2 t3 :
  let k := scope_key client_id case_id None in
  let ttl := Some CacheManager.MEMORY_TTL in
  CacheManager.memory_tier
    (write_three_scopes m client_id case_id v1 v2 v3 st1 st2 st3 t1 t2 t3)
  = option_map
      (fun mc =>
         LRUCache.set
           (LRUCache.set (LRUCache.set mc (k "minimal") v1 ttl st1 t1)
              (k "standard") v2 ttl st2 t2)
           (k "comprehensive") v3 ttl st3 t3)
      (CacheManager.memory_tier m).
Proof.
  intros k ttl. unfold write_three_scopes. cbv zeta.
  rewrite !memory_tier_set.
  now destruct (CacheManager.memory_tier m).
Qed.

End Invalidate.

(** C9. [delete] with the scope omitted removes the keys of the three known
    scopes from every enabled tier and returns the number of entries
    removed; [invalidate_case] is that very call; and after entries are
    written for the three scopes of a case, [invalidate_case] removes the
    three of them and a following [get] of each scope finds nothing. *)
Theorem invalidate_case_removes_all_scopes (V : Type) (m : CacheManager.t V)
    (client_id case_id : string) :
  (forall dimension,
     match CacheManager.memory_tier m with
     | Some mc => wf_cache mc
     | None => True
     end ->
     let r := CacheManager.delete m client_id case_id None dimension in
     (forall scope, In scope CacheManager.known_scopes ->
        memory_lacks (snd r) (scope_key client_id case_id dimension scope)) /\
     fst r = memory_size m - memory_size (snd r) /\
     CacheManager.total_deletes (CacheManager.stats (snd r))
     = CacheManager.total_deletes (CacheManager.stats m) + fst r) /\
  CacheManager.invalidate_case m client_id case_id
  = CacheManager.delete m client_id case_id None None /\
  (forall v1 v2 v3 st1 st2 st3 t1 t2 t3,
     manager_ok m ->
     let m3 :=
       write_three_scopes m client_id case_id v1 v2 v3 st1 st2 st3 t1 t2 t3 in
     let r := CacheManager.invalidate_case m3 client_id case_id in
     fst r = match CacheManager.memory_tier m with Some _ => 3 | None => 0 end /\
     forall scope now, In scope CacheManager.known_scopes ->
       fst (CacheManager.get (snd r) client_id case_id scope None now) = None).
Proof.
  split; [ | split].
  - intros dimension Hwf. now apply delete_all_scopes_effect.
  - reflexivity.
  - intros v1 v2 v3 st1 st2 st3 t1 t2 t3 Hok m3 r.
    assert (Hwf3 : match CacheManager.memory_tier m3 with
                   | Some mc => wf_cache mc
                   | None => True
                   end /\
                   memory_size m3 - memory_size (snd r)
                   = match CacheManager.memory_tier m with
                     | Some _ => 3
                     | None => 0
                     end).
    { subst r. unfold CacheManager.invalidate_case.
      destruct (delete_all_scopes m3 client_id case_id None) as [m4 [E [T _]]].
      rewrite E. cbn [snd]. unfold memory_size. rewrite T.
      subst m3. rewrite memory_tier_three_scopes. unfold manager_ok in Hok.
      destruct (CacheManager.memory_tier m) as [mc | ]; cbn [option_map];
        [ | auto].
      destruct Hok as [Hwf Hmax].
      set (k := scope_key client_id case_id None).
      assert (N12 : k "minimal" <> k "standard")
        by (intros H; apply generate_cache_key_scope in H; discriminate).
      assert (N13 : k "minimal" <> k "comprehensive")
        by (intros H; apply generate_cache_key_scope in H; discriminate).
      assert (N23 : k "standard" <> k "comprehensive")
        by (intros H; apply generate_cache_key_scope in H; discriminate).
      destruct (three_scopes_recency mc (k "minimal") (k "standard")
                  (k "comprehensive") v1 v2 v3 st1 st2 st3 t1 t2 t3
                  Hwf Hmax N12 N13 N23) as [W3 [pre R3]].
      split; [exact W3 | ].
      rewrite !purge_len by (repeat apply purge_wf; exact W3).
      rewrite !contains_purge_other by congruence.
      rewrite !(proj2 (contains_recency _ _));
        [lia | rewrite R3; apply in_or_app; right; simpl; auto ..].
    }
    destruct Hwf3 as [Hwf3 Hcount].
    destruct (delete_all_scopes_effect m3 client_id case_id None Hwf3)
      as [Hlack [Hn _]].
    subst r. unfold CacheManager.invalidate_case in *. split.
    + now rewrite Hn.
    + intros scope now Hscope. apply get_miss. now apply Hlack.
Qed.

Lemma invalidate_case_removes_all_scopes_witness :
  let m3 :=
    write_three_scopes memory_only "client-123" "case-456"
      "v-minimal" "v-standard" "v-comprehensive" "active" "active" "closed"
      10 11 12 in
  let r := CacheManager.invalidate_case m3 "client-123" "case-456" in
  fst r = 3 /\
  forall scope now, In scope CacheManager.known_scopes ->
    fst (CacheManager.get (snd r) "client-123" "case-456" scope None now) = None.
Proof.
  apply (proj2 (proj2 (invalidate_case_removes_all_scopes string memory_only
                         "client-123" "case-456"))).
  split; [constructor | simpl; lia].
Defined.

(** ** Client errors *)

Lemma lookup_unknown_scope (scope : string) :
  ~ In scope (map fst SCOPES) -> lookup scope SCOPES = None.
Proof.
  simpl. intros Hn.
  destruct (String.eqb_spec scope "minimal") as [-> | _]; [tauto | ].
  destruct (String.eqb_spec scope "standard") as [-> | _]; [tauto | ].
  destruct (String.eqb_spec scope "comprehensive") as [-> | _]; [tauto | ].
  reflexivity.
Qed.

Lemma invalid_dimensions_spec (l : list string) (x : string) :
  In x (invalid_dimensions l) <-> In x l /\ ~ In x valid_dimensions.
Proof.
  unfold invalid_dimensions. rewrite nodup_In, filter_In.
  rewrite negb_true_iff, <- not_true_iff_false, mem_In. tauto.
Qed.

(** An invalid request is rejected by dimension selection. *)
Lemma determine_dimensions_rejects (scope : string)
    (include_dimensions : option (list string)) :
  request_invalid scope include_dimensions ->
  exists e, _determine_dimensions scope include_dimensions = Raise e /\
            describes e scope include_dimensions.
Proof.
  unfold request_invalid, describes, _determine_dimensions.
  destruct include_dimensions as [[ | d r] | ].
  - intros Hn. rewrite (lookup_unknown_scope scope Hn). eauto.
  - intros [x Hx]. apply invalid_dimensions_spec in Hx.
    destruct (invalid_dimensions (d :: r)) as [ | y ys] eqn:E; [contradiction | ].
    eexists. split; [reflexivity | ].
    exists (y :: ys). split; [reflexivity | ]. split; [discriminate | ].
    intros z. rewrite <- E. apply invalid_dimensions_spec.
  - intros Hn. rewrite (lookup_unknown_scope scope Hn). eauto.
Qed.

(** C7 (as amended). An invalid request that is not served from the cache
    raises a descriptive client error before any analyzer is awaited; the
    only effect is that of the cache pre-check, which runs first when the
    cache is enabled (with the cache bypassed, nothing changes at all). *)
Theorem invalid_request_fails_before_fan_out
    (az : Analyzers) (w : World) (env : Env) (client_id case_id scope : string)
    (include_dimensions : option (list string)) (use_cache : bool) :
  request_invalid scope include_dimensions ->
  cache_miss w env client_id case_id scope use_cache ->
  exists e w',
    build_context az w env client_id case_id scope include_dimensions use_cache
    = (Raise e, w') /\
    describes e scope include_dimensions /\
    analyzer_calls w' = analyzer_calls w /\
    (use_cache = false -> w' = w) /\
    (use_cache = true ->
     cache_manager w'
     = snd (CacheManager.get (cache_manager w) client_id case_id scope None
              (now_start env))).
Proof.
  intros Hinvalid Hmiss.
  destruct (determine_dimensions_rejects scope include_dimensions Hinvalid)
    as [e [He Hdesc]].
  exists e, (after_cache_check w env client_id case_id scope use_cache).
  split; [ | split; [exact Hdesc | split; [ | split]]].
  - rewrite (build_context_miss _ _ _ _ _ _ _ _ Hmiss), He. reflexivity.
  - apply analyzer_calls_after_cache_check.
  - intros ->. reflexivity.
  - intros ->. unfold after_cache_check, _check_cache.
    now destruct (CacheManager.get _ _ _ _ _ _).
Qed.

Lemma invalid_request_fails_before_fan_out_witness :
  exists e w',
    build_context steady_analyzers fresh_world sample_env "client-1" "case-1"
      "comprehensive" (Some ["WHO"; "HOW"]) false = (Raise e, w') /\
    describes e "comprehensive" (Some ["WHO"; "HOW"]) /\
    analyzer_calls w' = analyzer_calls fresh_world /\
    (false = false -> w' = fresh_world) /\
    (false = true ->
     cache_manager w'
     = snd (CacheManager.get (cache_manager fresh_world) "client-1" "case-1"
              "comprehensive" None (now_start sample_env))).
Proof.
  apply (invalid_request_fails_before_fan_out steady_analyzers fresh_world
           sample_env "client-1" "case-1" "comprehensive"
           (Some ["WHO"; "HOW"]) false).
  - exists "HOW". split; [simpl; auto | simpl; intuition discriminate].
  - left. reflexivity.
Defined.

(** With the cache enabled, an unknown scope is rejected only after the
    pre-check of the cache has counted a miss. *)
Lemma unknown_scope_after_cache_check :
  exists w',
    build_context steady_analyzers fresh_world sample_env "client-1" "case-1"
      "bogus" None true = (Raise (InvalidScope "bogus"), w') /\
    CacheManager.memory_misses (CacheManager.stats (cache_manager fresh_world)) = 0 /\
    CacheManager.memory_misses (CacheManager.stats (cache_manager w')) = 1.
Proof.
  eexists. split; [vm_compute; reflexivity | ].
  split; reflexivity.
Qed.

(** C7, as stated, fails: the cache pre-check runs before the request is
    validated, so a rejected request does not leave the statistics of the
    cache unchanged. *)
Lemma invalid_request_changes_statistics :
  ~ (forall az w env client_id case_id scope include_dimensions use_cache,
       request_invalid scope include_dimensions ->
       exists e,
         build_context az w env client_id case_id scope include_dimensions
           use_cache = (Raise e, w)).
Proof.
  intros H.
  destruct (H steady_analyzers fresh_world sample_env "client-1" "case-1"
              "bogus" None true) as [e He].
  - simpl. intuition discriminate.
  - destruct unknown_scope_after_cache_check as [w' [Hb [_ Hm]]].
    rewrite Hb in He. injection He as _ ->. discriminate Hm.
Qed.

(** A request served from the cache is not validated at all: an unknown
    dimension name goes unnoticed when the scope has a cached composite. *)
Lemma invalid_dimensions_served_from_cache :
  exists w',
    build_context steady_analyzers warm_world sample_env "client-1" "case-1"
      "comprehensive" (Some ["HOW"]) true
    = (Ok (ContextResponse.set_cached cached_response true), w') /\
    analyzer_calls w' = [].
Proof.
  eexists. split; [vm_compute; reflexivity | reflexivity].
Qed.

(* ====================================================================== *)
(** * Further properties of the fast tier *)
(* ====================================================================== *)

Section LRUMore.

Context {V : Type}.
Implicit Types (c : LRUCache.t V) (k : string).

Lemma touch_last k (ks : list string) : In k (touch k ks).
Proof. unfold touch. apply in_or_app. right. now left. Qed.

Lemma touch_length_pos k (ks : list string) :
  (1 <= List.length (touch k ks))%nat.
Proof. unfold touch. rewrite length_app. simpl. lia. Qed.

(** The head of a touched order of two keys or more is not the touched
    key. *)
Lemma touch_head k (ks : list string) x xs :
  NoDup ks -> touch k ks = x :: xs -> xs <> [] -> x <> k.
Proof.
  intros Hnd E Hxs ->. pose proof (NoDup_touch k ks Hnd) as Hnd'.
  rewrite E in Hnd'. inversion Hnd' as [ | ? ? Hnotin _]; subst.
  apply Hnotin. unfold touch in E.
  destruct (without k ks) as [ | y ys] eqn:Ew; simpl in E.
  - injection E as <-. contradiction.
  - injection E as _ <-. apply in_or_app. right. now left.
Qed.

(** The entry written by [set] is held by the cache whenever the capacity
    is at least one. *)
Lemma set_getitem c k v ttl st now :
  wf_cache c -> 1 <= LRUCache.max_size c ->
  OrderedDict.getitem k (LRUCache.cache (LRUCache.set c k v ttl st now))
  = Some (CacheEntry.make k v now (now + LRUCache.ttl_or_default c ttl) 0 None st).
Proof.
  intros Hwf Hmax. unfold LRUCache.set. cbv zeta.
  set (entry := CacheEntry.make k v now _ 0 None st).
  set (d := OrderedDict.move_to_end k (OrderedDict.setitem k entry (LRUCache.cache c))).
  assert (Hd : OrderedDict.getitem k d = Some entry).
  { unfold d. rewrite getitem_move_to_end. apply getitem_setitem_same. }
  assert (Hk : OrderedDict.keys d = touch k (recency c))
    by apply keys_set_then_move.
  destruct (_ >? _) eqn:E; [ | exact Hd].
  destruct (OrderedDict.first_key d) as [oldest | ] eqn:F; simpl; [ | exact Hd].
  rewrite getitem_delitem_other; [exact Hd | ].
  rewrite first_key_keys, Hk in F.
  destruct (touch k (recency c)) as [ | x xs] eqn:T; [discriminate | ].
  injection F as ->.
  apply (touch_head k (recency c) oldest xs Hwf T).
  intros ->. apply Z.gtb_lt in E. rewrite <- length_keys, Hk in E.
  simpl in E. lia.
Qed.

Lemma set_getitem_other c k k' v ttl st now :
  wf_cache c -> LRUCache.len c < LRUCache.max_size c -> k' <> k ->
  OrderedDict.getitem k' (LRUCache.cache (LRUCache.set c k v ttl st now))
  = OrderedDict.getitem k' (LRUCache.cache c).
Proof.
  intros Hwf Hroom Hne. unfold LRUCache.set. cbv zeta.
  set (entry := CacheEntry.make k v now _ 0 None st).
  set (d := OrderedDict.move_to_end k (OrderedDict.setitem k entry (LRUCache.cache c))).
  assert (Hd : OrderedDict.getitem k' d = OrderedDict.getitem k' (LRUCache.cache c)).
  { unfold d. rewrite getitem_move_to_end. apply getitem_setitem_other. congruence. }
  assert (Hk : OrderedDict.keys d = touch k (recency c))
    by apply keys_set_then_move.
  replace (_ >? _) with false; [exact Hd | ].
  symmetry. rewrite Z.gtb_ltb. apply Z.ltb_ge.
  rewrite <- length_keys, Hk. unfold touch. rewrite length_app. simpl.
  assert (Hw : (List.length (without k (recency c)) <= List.length (recency c))%nat)
    by apply filter_length_le.
  unfold LRUCache.len in Hroom. rewrite <- length_keys in Hroom.
  fold (recency c) in Hroom. lia.
Qed.

End LRUMore.

(** A write followed by a read of the same key. *)
Lemma set_then_get (V : Type) (c : LRUCache.t V) (k : string) (v : V)
    (ttl : option Z) (st : string) (now later : datetime) :
  wf_cache c -> 1 <= LRUCache.max_size c ->
  let c' := LRUCache.set c k v ttl st now in
  (later < now + LRUCache.ttl_or_default c ttl ->
   fst (LRUCache.get c' k later) = Some v) /\
  (now + LRUCache.ttl_or_default c ttl <= later ->
   fst (LRUCache.get c' k later) = None /\
   OrderedDict.contains k (LRUCache.cache (snd (LRUCache.get c' k later))) = false).
Proof.
  intros Hwf Hmax c'.
  pose proof (set_getitem c k v ttl st now Hwf Hmax) as Hget. fold c' in Hget.
  pose proof (set_wf c k v ttl st now Hwf) as Hwf'. fold c' in Hwf'.
  split.
  - intros Hlive.
    destruct (get_hit c' k _ later Hget) as [H _]; [ | exact H].
    apply Z.leb_gt. exact Hlive.
  - intros Hdead.
    destruct (get_expired c' k _ later Hwf' Hget) as [H1 [H2 _]].
    + apply Z.leb_le. exact Hdead.
    + split; [exact H1 | ]. unfold OrderedDict.contains. now rewrite H2.
Qed.

(** X2. A time-to-live of zero does not mean immediate expiry: it is
    replaced by the default time-to-live, exactly as when none is given; a
    negative time-to-live is kept and gives an entry that no read at or
    after the write returns. *)
Theorem lru_ttl_edge_cases (V : Type) (c : LRUCache.t V) (k : string) (v : V)
    (st : string) (now later : datetime) (n : Z) :
  LRUCache.set c k v (Some 0) st now = LRUCache.set c k v None st now /\
  (wf_cache c -> 1 <= LRUCache.max_size c -> n < 0 -> now <= later ->
   fst (LRUCache.get (LRUCache.set c k v (Some n) st now) k later) = None).
Proof.
  split; [reflexivity | ].
  intros Hwf Hmax Hn Hlater.
  apply (proj2 (set_then_get V c k v (Some n) st now later Hwf Hmax)).
  unfold LRUCache.ttl_or_default.
  destruct (Z.eqb_spec n 0); lia.
Qed.

Lemma lru_ttl_edge_cases_witness :
  fst (LRUCache.get (LRUCache.set (LRUCache.init 3 60) "A" "va" (Some (-5)) "active" 100)
         "A" 100) = None.
Proof.
  apply (proj2 (lru_ttl_edge_cases string (LRUCache.init 3 60) "A" "va" "active"
                  100 100 (-5)) (init_wf 3 60));
    simpl; lia.
Defined.

Section LRUInvariant.

Context {V : Type}.
Implicit Types (c : LRUCache.t V) (k : string).

Lemma touch_present_length k (ks : list string) :
  NoDup ks -> In k ks -> List.length (touch k ks) = List.length ks.
Proof.
  intros Hnd. unfold touch. rewrite length_app. simpl.
  induction ks as [ | x ks IH]; simpl; [contradiction | ].
  inversion Hnd as [ | ? ? Hnotin Hnd']; subst.
  intros [-> | Hin].
  - rewrite String.eqb_refl. simpl.
    fold (without k ks). rewrite (without_notin k ks Hnotin). lia.
  - destruct (String.eqb_spec k x) as [-> | _]; [contradiction | ].
    simpl. fold (without k ks). specialize (IH Hnd' Hin). lia.
Qed.

(** Touching the most recently used key changes nothing. *)
Lemma touch_idempotent k (ks : list string) :
  NoDup ks -> touch k (touch k ks) = touch k ks.
Proof.
  intros Hnd. unfold touch. rewrite without_app.
  replace (without k [k]) with (@nil string)
    by (unfold without; simpl; now rewrite String.eqb_refl).
  rewrite app_nil_r.
  rewrite (without_notin k (without k ks)); [reflexivity | ].
  rewrite in_without. tauto.
Qed.

Lemma get_max_size c k now :
  LRUCache.max_size (snd (LRUCache.get c k now)) = LRUCache.max_size c.
Proof.
  unfold LRUCache.get. destruct (OrderedDict.getitem k (LRUCache.cache c));
    [ | reflexivity].
  now destruct (CacheEntry.is_expired now t).
Qed.

Lemma get_wf c k now : wf_cache c -> wf_cache (snd (LRUCache.get c k now)).
Proof.
  intros Hwf. unfold LRUCache.get.
  destruct (OrderedDict.getitem k (LRUCache.cache c)) as [e | ] eqn:E;
    [ | exact Hwf].
  destruct (CacheEntry.is_expired now e) eqn:X; simpl.
  - unfold wf_cache, OrderedDict.wf. simpl. rewrite keys_delitem.
    now apply NoDup_without.
  - destruct (get_hit c k e now E X) as [_ [H _]].
    unfold LRUCache.get in H. rewrite E, X in H. simpl in H.
    unfold wf_cache, OrderedDict.wf. unfold recency in H. simpl in H |- *.
    rewrite H. now apply NoDup_touch.
Qed.

Lemma get_len c k now :
  wf_cache c -> LRUCache.len (snd (LRUCache.get c k now)) <= LRUCache.len c.
Proof.
  intros Hwf. unfold LRUCache.get.
  destruct (OrderedDict.getitem k (LRUCache.cache c)) as [e | ] eqn:E;
    [ | simpl; lia].
  destruct (CacheEntry.is_expired now e) eqn:X.
  - destruct (get_expired c k e now Hwf E X) as [_ [_ [_ [H _]]]].
    unfold LRUCache.get in H. rewrite E, X in H. lia.
  - destruct (get_hit c k e now E X) as [_ [H _]].
    unfold LRUCache.get in H. rewrite E, X in H.
    unfold LRUCache.len. rewrite <- !length_keys.
    unfold recency in H. rewrite H.
    rewrite touch_present_length; [lia | exact Hwf | eapply getitem_In, E].
Qed.

(** Every operation keeps the keys distinct, the capacity and the bound of
    the size by the capacity. *)
Lemma lru_step_invariant c (op : LRUOp V) :
  wf_cache c -> 0 <= LRUCache.max_size c ->
  LRUCache.len c <= LRUCache.max_size c ->
  wf_cache (lru_step c op) /\
  LRUCache.max_size (lru_step c op) = LRUCache.max_size c /\
  LRUCache.len (lru_step c op) <= LRUCache.max_size c.
Proof.
  intros Hwf Hpos Hlen. destruct op as [k now | k v ttl st now | k | ]; simpl.
  - split; [now apply get_wf | ]. split; [apply get_max_size | ].
    pose proof (get_len c k now Hwf). lia.
  - split; [now apply set_wf | ]. split; [apply set_max_size | ].
    now apply set_enforces_capacity.
  - rewrite lru_delete_purge. simpl. split; [now apply purge_wf | ].
    split; [reflexivity | ].
    rewrite (purge_len k c Hwf). change (LRUCache.max_size (purge k c))
      with (LRUCache.max_size c).
    destruct (OrderedDict.contains k (LRUCache.cache c)); lia.
  - split; [constructor | ]. split; [reflexivity | ]. unfold LRUCache.len.
    simpl. lia.
Qed.

Lemma lru_run_invariant (ops : list (LRUOp V)) c :
  wf_cache c -> 0 <= LRUCache.max_size c ->
  LRUCache.len c <= LRUCache.max_size c ->
  wf_cache (lru_run c ops) /\
  LRUCache.max_size (lru_run c ops) = LRUCache.max_size c /\
  LRUCache.len (lru_run c ops) <= LRUCache.max_size c.
Proof.
  revert c. induction ops as [ | op ops IH]; intros c Hwf Hpos Hlen; simpl.
  - auto.
  - destruct (lru_step_invariant c op Hwf Hpos Hlen) as [H1 [H2 H3]].
    destruct (IH (lru_step c op)) as [I1 [I2 I3]]; try (rewrite ?H2; assumption).
    rewrite H2 in *. auto.
Qed.

End LRUInvariant.

Lemma ratio_bounds (a b : Z) :
  0 <= a <= b -> 0 < b -> (0 <= inject_Z a / inject_Z b <= 1)%Q.
Proof.
  intros Hab Hb. destruct b as [ | p | p]; try lia.
  unfold Qdiv, Qle, Qmult, Qinv, inject_Z. simpl. split; lia.
Qed.

(** X3. Whatever sequence of reads, writes, deletions and clearings is
    applied to a fresh cache of non-negative capacity, the cache never
    holds more entries than its capacity, its keys stay distinct, and the
    statistics report a size within the capacity and a utilization within
    [[0,1]]. *)
Theorem lru_capacity_invariant (V : Type) (max_size default_ttl : Z)
    (ops : list (LRUOp V)) (now : datetime) :
  0 <= max_size ->
  let c := lru_run (LRUCache.init max_size default_ttl) ops in
  let s := LRUCache.get_stats c now in
  wf_cache c /\
  0 <= LRUCache.size s <= max_size /\
  LRUCache.stats_max_size s = max_size /\
  (0 <= LRUCache.utilization s <= 1)%Q /\
  0 <= LRUCache.expired_entries s <= LRUCache.size s.
Proof.
  intros Hpos c s.
  destruct (lru_run_invariant ops (LRUCache.init max_size default_ttl))
    as [Hwf [Hmax Hlen]].
  - apply init_wf.
  - exact Hpos.
  - unfold LRUCache.len. simpl. exact Hpos.
  - fold c in Hwf, Hmax, Hlen. simpl in Hmax, Hlen.
    split; [exact Hwf | ]. subst s. unfold LRUCache.get_stats.
    cbn [LRUCache.size LRUCache.stats_max_size LRUCache.utilization
         LRUCache.expired_entries].
    rewrite Hmax. unfold LRUCache.len in *.
    split; [lia | ]. split; [reflexivity | ]. split.
    + destruct (max_size >? 0) eqn:E; [ | split; discriminate].
      apply Z.gtb_lt in E. apply ratio_bounds; lia.
    + split; [lia | ].
      rewrite <- (length_map snd (LRUCache.cache c)).
      apply inj_le. apply filter_length_le.
Qed.

Lemma lru_capacity_invariant_witness :
  let c := lru_run (LRUCache.init 2 60)
             [LSet "A" "va" None "active" 0; LSet "B" "vb" None "active" 1;
              LGet "A" 2; LSet "C" "vc" None "active" 3; LDelete "Z"] in
  let s := LRUCache.get_stats c 4 in
  wf_cache c /\
  0 <= LRUCache.size s <= 2 /\
  LRUCache.stats_max_size s = 2 /\
  (0 <= LRUCache.utilization s <= 1)%Q /\
  0 <= LRUCache.expired_entries s <= LRUCache.size s.
Proof.
  apply (lru_capacity_invariant string 2 60). lia.
Defined.

(** X4. Writing a key again replaces its value and leaves the recency
    order, and so the size, as the first write left them: no other entry is
    evicted by an overwrite. *)
Theorem lru_overwrite (V : Type) (c : LRUCache.t V) (k : string) (v1 v2 : V)
    (ttl1 ttl2 : option Z) (st1 st2 : string) (t1 t2 later : datetime) :
  wf_cache c -> 1 <= LRUCache.max_size c ->
  LRUCache.len c <= LRUCache.max_size c ->
  let c1 := LRUCache.set c k v1 ttl1 st1 t1 in
  let c2 := LRUCache.set c1 k v2 ttl2 st2 t2 in
  recency c2 = recency c1 /\
  (later < t2 + LRUCache.ttl_or_default c ttl2 ->
   fst (LRUCache.get c2 k later) = Some v2).
Proof.
  intros Hwf Hmax Hlen c1 c2.
  assert (W1 : wf_cache c1) by now apply set_wf.
  assert (M1 : LRUCache.max_size c1 = LRUCache.max_size c) by apply set_max_size.
  assert (L1 : LRUCache.len c1 <= LRUCache.max_size c)
    by (apply set_enforces_capacity; [assumption | lia | assumption]).
  assert (K1 : In k (recency c1)).
  { apply contains_In. unfold OrderedDict.contains.
    unfold c1. now rewrite set_getitem. }
  split.
  - unfold c2. rewrite set_recency by exact W1. cbv zeta.
    assert (T : touch k (recency c1) = recency c1).
    { unfold c1 at 1 2. rewrite set_recency by exact Hwf. cbv zeta.
      destruct (_ >? _) eqn:E.
      - fold c1.
        assert (R : recency c1 = tl (touch k (recency c))).
        { unfold c1. rewrite set_recency by exact Hwf. cbv zeta. now rewrite E. }
        rewrite <- R.
        destruct (touch k (recency c)) as [ | x xs] eqn:Tk; simpl in R.
        + unfold touch in Tk. destruct (without k (recency c)); discriminate.
        + assert (Hx : x <> k).
          { apply (touch_head k (recency c) x xs Hwf Tk).
            intros ->. rewrite R in K1. contradiction. }
          assert (Hw : touch k (touch k (recency c)) = touch k (recency c))
            by now apply touch_idempotent.
          rewrite Tk in Hw. unfold touch in Hw. simpl in Hw.
          destruct (String.eqb_spec k x) as [-> | _]; [contradiction | ].
          simpl in Hw. injection Hw as Hw. rewrite R. exact Hw.
      - now apply touch_idempotent. }
    rewrite T. replace (_ >? _) with false; [reflexivity | ].
    symmetry. rewrite Z.gtb_ltb. apply Z.ltb_ge.
    unfold recency. rewrite length_keys, M1. exact L1.
  - intros Hlive.
    apply (proj1 (set_then_get V c1 k v2 ttl2 st2 t2 later W1
                    ltac:(rewrite M1; exact Hmax))).
    unfold LRUCache.ttl_or_default in *. unfold c1.
    replace (LRUCache.default_ttl (LRUCache.set c k v1 ttl1 st1 t1))
      with (LRUCache.default_ttl c); [exact Hlive | ].
    unfold LRUCache.set. destruct (_ >? _); [ | reflexivity].
    now destruct (OrderedDict.first_key _).
Qed.

Lemma lru_overwrite_witness :
  let c1 := LRUCache.set short_lived "A" "first" None "active" 200 in
  let c2 := LRUCache.set c1 "A" "second" None "active" 201 in
  recency c2 = recency c1 /\
  (230 < 201 + LRUCache.ttl_or_default short_lived None ->
   fst (LRUCache.get c2 "A" 230) = Some "second").
Proof.
  apply (lru_overwrite string short_lived "A" "first" "second" None None
           "active" "active" 200 201 230).
  - repeat constructor. simpl. tauto.
  - simpl. lia.
  - vm_compute. discriminate.
Defined.

(** *** Reads between a write and a later read *)

Lemma get_absent {V} (c : LRUCache.t V) (k : string) (t : datetime) :
  OrderedDict.getitem k (LRUCache.cache c) = None ->
  LRUCache.get c k t = (None, c).
Proof. intros H. unfold LRUCache.get. now rewrite H. Qed.

(** A read leaves the entry of every key as it is, up to its hit count and
    access time, or removes it when it has expired. *)
Lemma get_entry_is {V} (c : LRUCache.t V) (k : string) (v : V)
    (expiry : datetime) (k' : string) (t : datetime) :
  wf_cache c -> entry_is c k v expiry ->
  entry_is (snd (LRUCache.get c k' t)) k v expiry.
Proof.
  intros Hwf H.
  destruct (OrderedDict.getitem k' (LRUCache.cache c)) as [e' | ] eqn:G;
    [ | now rewrite (get_absent c k' t G)].
  destruct (CacheEntry.is_expired t e') eqn:X.
  - destruct (get_expired c k' e' t Hwf G X) as [_ [Hnone [_ [_ Hother]]]].
    intros e He. destruct (String.eqb_spec k k') as [-> | Hne].
    + rewrite Hnone in He. discriminate.
    + rewrite (Hother k Hne) in He. now apply H.
  - destruct (get_hit c k' e' t G X) as [_ [_ [Hsame Hother]]].
    intros e He. destruct (String.eqb_spec k k') as [-> | Hne].
    + rewrite Hsame in He. injection He as <-.
      cbn [CacheEntry.increment_hits CacheEntry.value CacheEntry.expires_at].
      now apply H.
    + rewrite (Hother k Hne) in He. now apply H.
Qed.

(** A read made before the expiry of the entry of [k] keeps that entry. *)
Lemma get_entry_kept {V} (c : LRUCache.t V) (k : string) (v : V)
    (expiry : datetime) (k' : string) (t : datetime) :
  wf_cache c -> entry_is c k v expiry -> (k' = k -> t < expiry) ->
  OrderedDict.getitem k (LRUCache.cache c) <> None ->
  OrderedDict.getitem k (LRUCache.cache (snd (LRUCache.get c k' t))) <> None.
Proof.
  intros Hwf H Hbefore Hpresent.
  destruct (OrderedDict.getitem k' (LRUCache.cache c)) as [e' | ] eqn:G;
    [ | now rewrite (get_absent c k' t G)].
  destruct (CacheEntry.is_expired t e') eqn:X.
  - destruct (get_expired c k' e' t Hwf G X) as [_ [_ [_ [_ Hother]]]].
    destruct (String.eqb_spec k k') as [-> | Hne].
    + exfalso. destruct (H e' G) as [_ Hx]. specialize (Hbefore eq_refl).
      unfold CacheEntry.is_expired in X. apply Z.leb_le in X. lia.
    + now rewrite (Hother k Hne).
  - destruct (get_hit c k' e' t G X) as [_ [_ [Hsame Hother]]].
    destruct (String.eqb_spec k k') as [-> | Hne].
    + rewrite Hsame. discriminate.
    + now rewrite (Hother k Hne).
Qed.

Lemma reads_entry_is {V} (k : string) (v : V) (expiry : datetime)
    (ops : list (LRUOp V)) (c : LRUCache.t V) :
  wf_cache c -> entry_is c k v expiry ->
  (forall op, In op ops -> lru_read op) ->
  wf_cache (lru_run c ops) /\ entry_is (lru_run c ops) k v expiry.
Proof.
  revert c. induction ops as [ | op ops IH]; intros c Hwf H Hops;
    [now split | ].
  unfold lru_run. cbn [fold_left]. fold (lru_run (lru_step c op) ops).
  assert (Hop := Hops op (or_introl eq_refl)).
  destruct op as [k' t | | | ]; try contradiction. cbn [lru_step].
  apply IH.
  - now apply get_wf.
  - now apply get_entry_is.
  - intros op' Hin. apply Hops. now right.
Qed.

Lemma reads_entry_kept {V} (k : string) (v : V) (expiry : datetime)
    (ops : list (LRUOp V)) (c : LRUCache.t V) :
  wf_cache c -> entry_is c k v expiry ->
  OrderedDict.getitem k (LRUCache.cache c) <> None ->
  (forall op, In op ops -> lru_read_before k expiry op) ->
  OrderedDict.getitem k (LRUCache.cache (lru_run c ops)) <> None.
Proof.
  revert c. induction ops as [ | op ops IH]; intros c Hwf H Hp Hops;
    [exact Hp | ].
  unfold lru_run. cbn [fold_left]. fold (lru_run (lru_step c op) ops).
  assert (Hop := Hops op (or_introl eq_refl)).
  destruct op as [k' t | | | ]; try contradiction. cbn [lru_step].
  cbn [lru_read_before] in Hop.
  apply IH.
  - now apply get_wf.
  - now apply get_entry_is.
  - now apply (get_entry_kept c k v expiry).
  - intros op' Hin. apply Hops. now right.
Qed.

Lemma lru_read_before_read {V} (k : string) (deadline : datetime)
    (op : LRUOp V) : lru_read_before k deadline op -> lru_read op.
Proof. now destruct op. Qed.

(** A write, any reads, and a read of the written key. *)
Lemma set_reads_get (V : Type) (c : LRUCache.t V) (k : string) (v : V)
    (ttl : option Z) (st : string) (now later : datetime)
    (ops : list (LRUOp V)) :
  wf_cache c -> 1 <= LRUCache.max_size c ->
  let expiry := now + LRUCache.ttl_or_default c ttl in
  let c' := lru_run (LRUCache.set c k v ttl st now) ops in
  ((forall op, In op ops -> lru_read_before k expiry op) ->
   later < expiry -> fst (LRUCache.get c' k later) = Some v) /\
  ((forall op, In op ops -> lru_read op) ->
   expiry <= later ->
   fst (LRUCache.get c' k later) = None /\
   OrderedDict.contains k (LRUCache.cache (snd (LRUCache.get c' k later)))
   = false).
Proof.
  intros Hwf Hmax expiry c'.
  pose proof (set_getitem c k v ttl st now Hwf Hmax) as Hget.
  pose proof (set_wf c k v ttl st now Hwf) as Hwf0.
  assert (H0 : entry_is (LRUCache.set c k v ttl st now) k v expiry).
  { intros e He. rewrite Hget in He. injection He as <-. now split. }
  split.
  - intros Hops Hlive.
    assert (Hreads : forall op, In op ops -> lru_read op)
      by (intros op Hin; exact (lru_read_before_read _ _ _ (Hops op Hin))).
    destruct (reads_entry_is k v expiry ops _ Hwf0 H0 Hreads) as [Hwf' H'].
    fold c' in Hwf', H'.
    assert (Hp : OrderedDict.getitem k (LRUCache.cache c') <> None).
    { apply (reads_entry_kept k v expiry ops _ Hwf0 H0); [ | exact Hops].
      rewrite Hget. discriminate. }
    destruct (OrderedDict.getitem k (LRUCache.cache c')) as [e | ] eqn:G;
      [ | contradiction].
    destruct (H' e G) as [Hv Hx].
    destruct (get_hit c' k e later G) as [H _]; [ | now rewrite H, Hv].
    unfold CacheEntry.is_expired. apply Z.leb_gt. lia.
  - intros Hreads Hdead.
    destruct (reads_entry_is k v expiry ops _ Hwf0 H0 Hreads) as [Hwf' H'].
    fold c' in Hwf', H'.
    destruct (OrderedDict.getitem k (LRUCache.cache c')) as [e | ] eqn:G.
    + destruct (H' e G) as [Hv Hx].
      destruct (get_expired c' k e later Hwf' G) as [H1 [H2 _]].
      * unfold CacheEntry.is_expired. apply Z.leb_le. lia.
      * split; [exact H1 | ]. unfold OrderedDict.contains. now rewrite H2.
    + rewrite (get_absent c' k later G). cbn [fst snd]. split; [reflexivity | ].
      unfold OrderedDict.contains. now rewrite G.
Qed.

(** X1. A value written to the fast tier is returned by every read of its
    key made before its expiry, and by no read from its expiry on, whatever
    reads of any keys are made in between, as long as only reads come in
    between (a later write may replace or evict the entry, a deletion removes
    it) and the cache has distinct keys and a capacity of at least one; the
    time-to-live is the one given, or the default one when none (or zero) is
    given. *)
Theorem lru_set_then_get (V : Type) (c : LRUCache.t V) (k : string) (v : V)
    (ttl : option Z) (st : string) (now later : datetime)
    (ops : list (LRUOp V)) :
  wf_cache c -> 1 <= LRUCache.max_size c ->
  let expiry := now + LRUCache.ttl_or_default c ttl in
  let c' := lru_run (LRUCache.set c k v ttl st now) ops in
  ((forall op, In op ops -> lru_read_before k expiry op) ->
   later < expiry -> fst (LRUCache.get c' k later) = Some v) /\
  ((forall op, In op ops -> lru_read op) ->
   expiry <= later ->
   fst (LRUCache.get c' k later) = None /\
   OrderedDict.contains k (LRUCache.cache (snd (LRUCache.get c' k later)))
   = false).
Proof. exact (set_reads_get V c k v ttl st now later ops). Qed.

Lemma lru_set_then_get_witness :
  let c' := lru_run
              (LRUCache.set (LRUCache.init 3 60) "A" "va" (Some 5) "active" 100)
              [LGet "A" 101; LGet "B" 102; LGet "A" 103] in
  fst (LRUCache.get c' "A" 104) = Some "va" /\
  fst (LRUCache.get c' "A" 105) = None.
Proof.
  split.
  - apply (proj1 (lru_set_then_get string (LRUCache.init 3 60) "A" "va" (Some 5)
                    "active" 100 104 [LGet "A" 101; LGet "B" 102; LGet "A" 103]
                    (init_wf 3 60) ltac:(simpl; lia))).
    + intros op [<- | [<- | [<- | []]]]; simpl; intros; try lia; discriminate.
    + simpl. lia.
  - apply (proj2 (lru_set_then_get string (LRUCache.init 3 60) "A" "va" (Some 5)
                    "active" 100 105 [LGet "A" 101; LGet "B" 102; LGet "A" 103]
                    (init_wf 3 60) ltac:(simpl; lia))).
    + intros op [<- | [<- | [<- | []]]]; exact I.
    + simpl. lia.
Defined.

(** X5. [delete] reports whether the key was held; afterwards a read of the
    key finds nothing, every other key keeps its entry, and the size has
    dropped by one exactly when the key was held (a missing key leaves the
    cache as it is). *)
Theorem lru_delete_effect (V : Type) (c : LRUCache.t V) (k : string)
    (now : datetime) :
  wf_cache c ->
  let r := LRUCache.delete c k in
  fst r = OrderedDict.contains k (LRUCache.cache c) /\
  fst (LRUCache.get (snd r) k now) = None /\
  (forall k', k' <> k ->
     OrderedDict.getitem k' (LRUCache.cache (snd r))
     = OrderedDict.getitem k' (LRUCache.cache c)) /\
  LRUCache.len (snd r) = LRUCache.len c - (if fst r then 1 else 0) /\
  (fst r = false -> snd r = c).
Proof.
  intros Hwf r. subst r. rewrite lru_delete_purge. cbn [fst snd].
  split; [reflexivity | ]. split; [ | split; [ | split]].
  - unfold LRUCache.get, purge. simpl. now rewrite getitem_delitem_same.
  - intros k' Hne. unfold purge. simpl. apply getitem_delitem_other. congruence.
  - now apply purge_len.
  - intros Hno. unfold purge. rewrite delitem_notin, with_cache_same; [reflexivity | ].
    intros Hin. apply contains_In in Hin. congruence.
Qed.

Lemma lru_delete_effect_witness :
  let r := LRUCache.delete short_lived "A" in
  fst r = OrderedDict.contains "A" (LRUCache.cache short_lived) /\
  fst (LRUCache.get (snd r) "A" 100) = None /\
  (forall k', k' <> "A" ->
     OrderedDict.getitem k' (LRUCache.cache (snd r))
     = OrderedDict.getitem k' (LRUCache.cache short_lived)) /\
  LRUCache.len (snd r) = LRUCache.len short_lived - (if fst r then 1 else 0) /\
  (fst r = false -> snd r = short_lived).
Proof.
  apply (lru_delete_effect string short_lived "A" 100).
  repeat constructor. simpl. tauto.
Defined.

(** [clear] returns the number of entries held and empties the cache:
    afterwards every read finds nothing and the statistics report size 0,
    while the capacity and the default time-to-live are kept. *)
Lemma clear_effect (V : Type) (c : LRUCache.t V) (k : string)
    (now : datetime) :
  let r := LRUCache.clear c in
  fst r = LRUCache.size (LRUCache.get_stats c now) /\
  fst (LRUCache.get (snd r) k now) = None /\
  LRUCache.size (LRUCache.get_stats (snd r) now) = 0 /\
  LRUCache.total_hits (LRUCache.get_stats (snd r) now) = 0 /\
  LRUCache.max_size (snd r) = LRUCache.max_size c /\
  LRUCache.default_ttl (snd r) = LRUCache.default_ttl c.
Proof.
  cbv zeta. unfold LRUCache.clear. cbn [fst snd].
  repeat split.
Qed.

Section HitCount.

Context {V : Type}.
Implicit Types (d : OrderedDict.t (CacheEntry.t V)).


Lemma hits_of_app d1 d2 : hits_of (d1 ++ d2) = hits_of d1 + hits_of d2.
Proof.
  unfold hits_of. induction d1 as [ | [k e] d1 IH]; simpl; [reflexivity | ].
  unfold hits_of in IH. simpl in IH. rewrite IH. lia.
Qed.

Lemma hits_of_delitem k e (d : OrderedDict.t (CacheEntry.t V)) :
  OrderedDict.wf d -> OrderedDict.getitem k d = Some e ->
  hits_of (OrderedDict.delitem k d) = hits_of d - CacheEntry.hit_count e.
Proof.
  unfold OrderedDict.wf. induction d as [ | [k' e'] d IH]; simpl; [discriminate | ].
  intros Hnd Hget. inversion Hnd as [ | ? ? Hnotin Hnd']; subst.
  destruct (String.eqb_spec k k') as [-> | Hne].
  - injection Hget as ->. rewrite delitem_notin by exact Hnotin.
    unfold hits_of. simpl. lia.
  - unfold hits_of in *. simpl. rewrite (IH Hnd' Hget). lia.
Qed.

Lemma hits_of_setitem_last k e e' (d : OrderedDict.t (CacheEntry.t V)) :
  ~ In k (OrderedDict.keys d) ->
  hits_of (OrderedDict.setitem k e' (d ++ [(k, e)]))
  = hits_of d + CacheEntry.hit_count e'.
Proof.
  induction d as [ | [k0 e0] d IH]; simpl; intros Hn.
  - rewrite String.eqb_refl. unfold hits_of. simpl. lia.
  - destruct (String.eqb_spec k k0) as [-> | _]; [tauto | ].
    unfold hits_of in *. simpl. rewrite IH by tauto. lia.
Qed.

End HitCount.

(** X6. Every successful read adds exactly one to the cumulative hit count
    reported by the statistics, and leaves the size unchanged. *)
Theorem lru_hit_is_counted (V : Type) (c : LRUCache.t V) (k : string)
    (v : V) (now later : datetime) :
  wf_cache c ->
  fst (LRUCache.get c k now) = Some v ->
  let c' := snd (LRUCache.get c k now) in
  LRUCache.total_hits (LRUCache.get_stats c' later)
  = LRUCache.total_hits (LRUCache.get_stats c later) + 1 /\
  LRUCache.size (LRUCache.get_stats c' later)
  = LRUCache.size (LRUCache.get_stats c later).
Proof.
  intros Hwf Hhit c'. subst c'. unfold LRUCache.get in *.
  destruct (OrderedDict.getitem k (LRUCache.cache c)) as [e | ] eqn:E;
    [ | discriminate].
  destruct (CacheEntry.is_expired now e) eqn:X; [discriminate | ].
  cbn [fst snd] in *. unfold LRUCache.get_stats.
  cbn [LRUCache.total_hits LRUCache.size LRUCache.cache LRUCache.with_cache].
  change (fold_right Z.add 0 (map CacheEntry.hit_count (map snd ?d)))
    with (hits_of d).
  assert (Hin : In k (OrderedDict.keys (LRUCache.cache c)))
    by (eapply getitem_In, E).
  split.
  - unfold OrderedDict.move_to_end. rewrite E.
    rewrite hits_of_setitem_last.
    + rewrite (hits_of_delitem k e _ Hwf E). simpl. lia.
    + rewrite keys_delitem, in_without. tauto.
  - unfold LRUCache.len. simpl. rewrite <- !length_keys.
    rewrite keys_setitem_present.
    + rewrite keys_move_to_end by exact Hin.
      now rewrite touch_present_length.
    + rewrite keys_move_to_end by exact Hin. apply touch_last.
Qed.

Lemma lru_hit_is_counted_witness :
  let c' := snd (LRUCache.get short_lived "A" 100) in
  LRUCache.total_hits (LRUCache.get_stats c' 100)
  = LRUCache.total_hits (LRUCache.get_stats short_lived 100) + 1 /\
  LRUCache.size (LRUCache.get_stats c' 100)
  = LRUCache.size (LRUCache.get_stats short_lived 100).
Proof.
  apply (lru_hit_is_counted string short_lived "A" "va" 100 100).
  - repeat constructor. simpl. tauto.
  - reflexivity.
Defined.

(* ====================================================================== *)
(** * Further properties of the cache manager *)
(* ====================================================================== *)

Section ManagerMore.

Context {V : Type}.
Implicit Types (m : CacheManager.t V) (mc : LRUCache.t V).

Lemma get_tier2_spec m key now :
  CacheManager.get_tier2 m key now
  = (None, CacheManager.with_stats m (slow_misses m (CacheManager.stats m))).
Proof.
  unfold CacheManager.get_tier2, CacheManager.get_tier3, slow_misses,
    CacheManager._get_from_redis, CacheManager._get_from_database.
  destruct m as [sc rc em er ed mem stats]. simpl.
  destruct er, ed; reflexivity.
Qed.

(** A lookup is answered by the memory tier alone. *)
Lemma get_spec m client_id case_id scope d now :
  let key := CacheManager._generate_cache_key client_id case_id scope d in
  CacheManager.get m client_id case_id scope d now
  = match CacheManager.memory_tier m with
    | Some mc =>
        let m1 := CacheManager.with_memory m
                    (Some (snd (LRUCache.get mc key now))) in
        match fst (LRUCache.get mc key now) with
        | Some v =>
            (Some v,
             CacheManager.with_stats m1
               (CacheManager.incr_memory_hits (CacheManager.stats m1)))
        | None =>
            (None,
             CacheManager.with_stats m1
               (slow_misses m1
                  (CacheManager.incr_memory_misses (CacheManager.stats m1))))
        end
    | None =>
        (None, CacheManager.with_stats m (slow_misses m (CacheManager.stats m)))
    end.
Proof.
  intros key. unfold CacheManager.get. fold key.
  destruct (CacheManager.memory_tier m) as [mc | ]; [ | apply get_tier2_spec].
  destruct (LRUCache.get mc key now) as [[v | ] mc']; cbn [fst snd].
  - reflexivity.
  - rewrite get_tier2_spec. reflexivity.
Qed.

Lemma get_value m client_id case_id scope d now :
  fst (CacheManager.get m client_id case_id scope d now)
  = match CacheManager.memory_tier m with
    | Some mc =>
        fst (LRUCache.get mc
               (CacheManager._generate_cache_key client_id case_id scope d) now)
    | None => None
    end.
Proof.
  rewrite get_spec. cbv zeta.
  destruct (CacheManager.memory_tier m) as [mc | ]; [ | reflexivity].
  now destruct (fst (LRUCache.get mc _ now)).
Qed.

Lemma memory_tier_with_stats m s :
  CacheManager.memory_tier (CacheManager.with_stats m s)
  = CacheManager.memory_tier m.
Proof. reflexivity. Qed.

Lemma memory_tier_with_memory m mc :
  CacheManager.memory_tier m <> None ->
  CacheManager.memory_tier (CacheManager.with_memory m (Some mc)) = Some mc.
Proof.
  unfold CacheManager.memory_tier. simpl.
  destruct (CacheManager.enable_memory_cache m); [reflexivity | congruence].
Qed.

Lemma memory_tier_get m client_id case_id scope d now :
  CacheManager.memory_tier
    (snd (CacheManager.get m client_id case_id scope d now))
  = option_map
      (fun mc =>
         snd (LRUCache.get mc
                (CacheManager._generate_cache_key client_id case_id scope d) now))
      (CacheManager.memory_tier m).
Proof.
  rewrite get_spec. cbv zeta.
  destruct (CacheManager.memory_tier m) as [mc | ] eqn:E; [ | simpl; exact E].
  destruct (fst (LRUCache.get mc _ now)); cbn [snd option_map];
    rewrite memory_tier_with_stats; apply memory_tier_with_memory; congruence.
Qed.

Lemma stats_set m client_id case_id scope v st d now :
  CacheManager.stats (CacheManager.set m client_id case_id scope v st d now)
  = CacheManager.incr_total_sets (CacheManager.stats m).
Proof.
  unfold CacheManager.set, CacheManager.memory_set, CacheManager.memory_tier,
    CacheManager._set_in_redis, CacheManager._set_in_database.
  destruct m as [sc rc em er ed mem stats]. simpl.
  destruct em; simpl.
  - destruct mem as [mc | ]; simpl; destruct er, ed; reflexivity.
  - destruct er, ed; reflexivity.
Qed.

Lemma flags_set m client_id case_id scope v st d now :
  let m' := CacheManager.set m client_id case_id scope v st d now in
  CacheManager.enable_redis_cache m' = CacheManager.enable_redis_cache m /\
  CacheManager.enable_db_cache m' = CacheManager.enable_db_cache m.
Proof.
  unfold CacheManager.set, CacheManager.memory_set, CacheManager.memory_tier,
    CacheManager._set_in_redis, CacheManager._set_in_database.
  destruct m as [sc rc em er ed mem stats]. simpl.
  destruct em; simpl.
  - destruct mem as [mc | ]; simpl; destruct er, ed; auto.
  - destruct er, ed; auto.
Qed.

(** [delete] with a scope removes the one key of that scope. *)
Lemma delete_scope_spec m client_id case_id scope d :
  Str.truthy scope = true ->
  let key := CacheManager._generate_cache_key client_id case_id scope d in
  let n := match CacheManager.memory_tier m with
           | Some mc =>
               if OrderedDict.contains key (LRUCache.cache mc) then 1 else 0
           | None => 0
           end in
  exists m',
    CacheManager.delete m client_id case_id (Some scope) d = (n, m') /\
    CacheManager.memory_tier m'
    = option_map (purge key) (CacheManager.memory_tier m) /\
    CacheManager.stats m'
    = CacheManager.add_total_deletes n (CacheManager.stats m).
Proof.
  intros Htruthy key n. unfold CacheManager.delete. rewrite Htruthy. fold key.
  destruct (delete_key_spec 0 m key) as [m1 [E [T S]]]. rewrite E.
  change (0 + match CacheManager.memory_tier m with
              | Some mc =>
                  if OrderedDict.contains key (LRUCache.cache mc) then 1 else 0
              | None => 0
              end) with n.
  eexists. split; [reflexivity | ]. split.
  - rewrite memory_tier_with_stats. exact T.
  - simpl. now rewrite S.
Qed.

End ManagerMore.

(** The memory tier after calls that only read. *)
Lemma memory_tier_reads {V} (ops : list (ManagerOp V)) (m : CacheManager.t V) :
  (forall op, In op ops -> manager_read op) ->
  CacheManager.memory_tier (manager_run m ops)
  = option_map (fun mc => lru_run mc (lru_reads ops))
      (CacheManager.memory_tier m).
Proof.
  revert m. induction ops as [ | op ops IH]; intros m Hops.
  - cbn. now destruct (CacheManager.memory_tier m).
  - unfold manager_run. cbn [fold_left]. fold (manager_run (manager_step m op) ops).
    assert (Hop := Hops op (or_introl eq_refl)).
    rewrite IH by (intros op' Hin; apply Hops; now right).
    destruct op as [c k s d now | | | | ]; try contradiction;
      cbn [manager_step lru_reads].
    + rewrite memory_tier_get.
      now destruct (CacheManager.memory_tier m).
    + reflexivity.
Qed.

Lemma lru_reads_read {V} (ops : list (ManagerOp V)) :
  forall op, In op (lru_reads ops) -> lru_read op.
Proof.
  induction ops as [ | op ops IH]; [intros ? [] | ].
  destruct op; cbn [lru_reads]; try exact IH.
  intros op' [<- | Hin]; [exact I | now apply IH].
Qed.

Lemma lru_reads_before {V} (deadline : datetime) (k : string)
    (ops : list (ManagerOp V)) :
  (forall op, In op ops -> manager_read_before deadline op) ->
  forall op, In op (lru_reads ops) -> lru_read_before k deadline op.
Proof.
  induction ops as [ | op ops IH]; intros Hops; [intros ? [] | ].
  assert (Hop := Hops op (or_introl eq_refl)).
  assert (Hrest : forall op', In op' ops -> manager_read_before deadline op')
    by (intros op' Hin; apply Hops; now right).
  destruct op; cbn [lru_reads]; try exact (IH Hrest).
  intros op' [<- | Hin]; [ | now apply IH].
  cbn [lru_read_before]. intros _. exact Hop.
Qed.

Lemma manager_read_before_read {V} (deadline : datetime) (op : ManagerOp V) :
  manager_read_before deadline op -> manager_read op.
Proof. now destruct op. Qed.

(** A write through the manager, any calls that only read, and a lookup. *)
Lemma manager_set_reads_get (V : Type) (m : CacheManager.t V)
    (client_id case_id scope : string) (v : V) (case_status : string)
    (dimension : option string) (now later : datetime)
    (ops : list (ManagerOp V)) :
  memory_ready m ->
  let m' := manager_run
              (CacheManager.set m client_id case_id scope v case_status
                 dimension now) ops in
  ((forall op, In op ops -> manager_read_before (now + 600) op) ->
   later < now + 600 ->
   fst (CacheManager.get m' client_id case_id scope dimension later) = Some v) /\
  ((forall op, In op ops -> manager_read op) ->
   now + 600 <= later ->
   fst (CacheManager.get m' client_id case_id scope dimension later) = None).
Proof.
  intros [mc [Hmc [Hwf Hmax]]] m'. subst m'.
  pose proof (set_reads_get V mc
                (CacheManager._generate_cache_key client_id case_id scope dimension)
                v (Some CacheManager.MEMORY_TTL) case_status now later
                (lru_reads ops) Hwf Hmax) as H.
  cbv zeta in H.
  change (LRUCache.ttl_or_default mc (Some CacheManager.MEMORY_TTL)) with 600
    in H.
  destruct H as [Hlive Hdead].
  split.
  - intros Hops Hl. rewrite get_value, memory_tier_reads, memory_tier_set, Hmc
      by (intros op Hin; exact (manager_read_before_read _ _ (Hops op Hin))).
    cbn [option_map]. apply Hlive; [ | exact Hl].
    now apply lru_reads_before.
  - intros Hops Hl. rewrite get_value, memory_tier_reads, memory_tier_set, Hmc
      by exact Hops.
    cbn [option_map]. apply Hdead; [apply lru_reads_read | exact Hl].
Qed.

(** X7. With the memory tier enabled, a value written through the manager
    is returned by every lookup of the same (tenant, case, scope,
    dimension) made during the 600 seconds after the write, and by none from
    then on, whatever the case status (the status-dependent time-to-live
    only concerns the two slower tiers) and whatever lookups and resets of
    the statistics are made in between, as long as nothing else comes in
    between: a later write, deletion or invalidation may remove the
    entry. *)
Theorem manager_set_then_get (V : Type) (m : CacheManager.t V)
    (client_id case_id scope : string) (v : V) (case_status : string)
    (dimension : option string) (now later : datetime)
    (ops : list (ManagerOp V)) :
  memory_ready m ->
  let m' := manager_run
              (CacheManager.set m client_id case_id scope v case_status
                 dimension now) ops in
  ((forall op, In op ops -> manager_read_before (now + 600) op) ->
   later < now + 600 ->
   fst (CacheManager.get m' client_id case_id scope dimension later) = Some v) /\
  ((forall op, In op ops -> manager_read op) ->
   now + 600 <= later ->
   fst (CacheManager.get m' client_id case_id scope dimension later) = None).
Proof.
  exact (manager_set_reads_get V m client_id case_id scope v case_status
           dimension now later ops).
Qed.

Lemma manager_set_then_get_witness :
  let m' := manager_run
              (CacheManager.set memory_only "client-1" "case-1" "minimal" "v"
                 "closed" None 1000)
              [MGet "client-1" "case-1" "minimal" None 1100;
               MGet "client-1" "case-2" "minimal" None 1200; MReset] in
  fst (CacheManager.get m' "client-1" "case-1" "minimal" None 1599) = Some "v" /\
  fst (CacheManager.get m' "client-1" "case-1" "minimal" None 1600) = None.
Proof.
  assert (Hready : memory_ready memory_only).
  { eexists. split; [reflexivity | ]. split; [constructor | simpl; lia]. }
  split.
  - apply (proj1 (manager_set_then_get string memory_only "client-1" "case-1"
                    "minimal" "v" "closed" None 1000 1599
                    [MGet "client-1" "case-1" "minimal" None 1100;
                     MGet "client-1" "case-2" "minimal" None 1200; MReset]
                    Hready)).
    + intros op [<- | [<- | [<- | []]]]; simpl; try lia; exact I.
    + lia.
  - apply (proj2 (manager_set_then_get string memory_only "client-1" "case-1"
                    "minimal" "v" "closed" None 1000 1600
                    [MGet "client-1" "case-1" "minimal" None 1100;
                     MGet "client-1" "case-2" "minimal" None 1200; MReset]
                    Hready)).
    + intros op [<- | [<- | [<- | []]]]; exact I.
    + lia.
Defined.

Lemma memory_tier_step_none {V} (m : CacheManager.t V) (op : ManagerOp V) :
  CacheManager.memory_tier m = None ->
  CacheManager.memory_tier (manager_step m op) = None.
Proof.
  intros Hnone.
  destruct op as [c k s d now | c k s v st d now | c k s d | c k | ];
    cbn [manager_step].
  - now rewrite memory_tier_get, Hnone.
  - now rewrite memory_tier_set, Hnone.
  - destruct s as [s | ].
    + destruct (Str.truthy s) eqn:T.
      * destruct (delete_scope_spec m c k s d T) as [m' [E [M _]]].
        rewrite E. simpl. now rewrite M, Hnone.
      * destruct (delete_all_scopes m c k d) as [m' [E [M _]]].
        unfold CacheManager.delete in *. rewrite T. rewrite E. simpl.
        now rewrite M, Hnone.
    + destruct (delete_all_scopes m c k d) as [m' [E [M _]]].
      rewrite E. simpl. now rewrite M, Hnone.
  - destruct (delete_all_scopes m c k None) as [m' [E [M _]]].
    unfold CacheManager.invalidate_case. rewrite E. simpl. now rewrite M, Hnone.
  - exact Hnone.
Qed.

(** X8. With the memory tier disabled the manager never returns a value:
    whatever was written before, every lookup misses and every deletion
    removes nothing, the two slower tiers being placeholders. *)
Theorem manager_without_memory_never_hits (V : Type) (m : CacheManager.t V)
    (ops : list (ManagerOp V)) (client_id case_id scope : string)
    (dimension : option string) (now : datetime) :
  CacheManager.memory_tier m = None ->
  let m' := manager_run m ops in
  fst (CacheManager.get m' client_id case_id scope dimension now) = None /\
  fst (CacheManager.invalidate_case m' client_id case_id) = 0.
Proof.
  intros Hnone m'.
  assert (H : CacheManager.memory_tier m' = None).
  { subst m'. revert m Hnone. induction ops as [ | op ops IH]; intros m Hnone.
    - exact Hnone.
    - simpl. apply IH. now apply memory_tier_step_none. }
  split.
  - now rewrite get_value, H.
  - unfold CacheManager.invalidate_case.
    destruct (delete_all_scopes m' client_id case_id None) as [m2 [E _]].
    rewrite E, H. reflexivity.
Qed.

Lemma manager_without_memory_never_hits_witness :
  let m' := manager_run (CacheManager.init None None false true true)
              [MSet "client-1" "case-1" "minimal" "v" "active" None 10] in
  fst (CacheManager.get m' "client-1" "case-1" "minimal" None 11) = None /\
  fst (CacheManager.invalidate_case m' "client-1" "case-1") = 0.
Proof.
  apply (manager_without_memory_never_hits string
           (CacheManager.init None None false true true)).
  reflexivity.
Defined.

(** X9. With the memory tier enabled every lookup is counted exactly once
    by that tier, as a hit when a value is returned and as a miss
    otherwise, and changes neither the count of writes nor the count of
    deletions; a write adds one to the count of writes and leaves the hit
    and miss counters alone. *)
Theorem manager_counts_every_lookup (V : Type) (m : CacheManager.t V)
    (client_id case_id scope : string) (dimension : option string)
    (v : V) (case_status : string) (now : datetime) :
  CacheManager.memory_tier m <> None ->
  let r := CacheManager.get m client_id case_id scope dimension now in
  let s := CacheManager.stats m in
  let s' := CacheManager.stats (snd r) in
  let s'' := CacheManager.stats
               (CacheManager.set m client_id case_id scope v case_status
                  dimension now) in
  (match fst r with
   | Some _ =>
       CacheManager.memory_hits s' = CacheManager.memory_hits s + 1 /\
       CacheManager.memory_misses s' = CacheManager.memory_misses s
   | None =>
       CacheManager.memory_hits s' = CacheManager.memory_hits s /\
       CacheManager.memory_misses s' = CacheManager.memory_misses s + 1
   end) /\
  CacheManager.total_sets s' = CacheManager.total_sets s /\
  CacheManager.total_deletes s' = CacheManager.total_deletes s /\
  CacheManager.total_sets s'' = CacheManager.total_sets s + 1 /\
  CacheManager.memory_hits s'' = CacheManager.memory_hits s /\
  CacheManager.memory_misses s'' = CacheManager.memory_misses s.
Proof.
  intros Hmem r s s' s''. subst r s s' s''.
  rewrite stats_set, get_spec. cbv zeta.
  destruct (CacheManager.memory_tier m) as [mc | ]; [ | congruence].
  destruct (fst (LRUCache.get mc _ now)); cbn [fst snd].
  - simpl. auto 10.
  - unfold slow_misses. simpl.
    destruct (CacheManager.enable_redis_cache m),
      (CacheManager.enable_db_cache m); simpl; auto 10.
Qed.

Lemma manager_counts_every_lookup_witness :
  let r := CacheManager.get memory_only "client-1" "case-1" "minimal" None 5 in
  CacheManager.memory_misses (CacheManager.stats (snd r)) = 1 /\
  CacheManager.memory_hits (CacheManager.stats (snd r)) = 0.
Proof.
  pose proof (manager_counts_every_lookup string memory_only "client-1" "case-1"
                "minimal" None "v" "active" 5 ltac:(discriminate)) as H.
  cbv zeta in H. destruct H as [H _].
  change (fst (CacheManager.get memory_only "client-1" "case-1" "minimal" None 5))
    with (@None string) in H.
  cbv zeta. destruct H as [H1 H2]. split; [exact H2 | exact H1].
Defined.

(** X10. Deleting one scope of a case removes the entry of that scope only:
    a following lookup of that scope misses, the lookups of the other scopes
    of the case answer as before, and the count returned is 1 when the entry
    was held by the memory tier and 0 otherwise. *)
Theorem manager_delete_one_scope (V : Type) (m : CacheManager.t V)
    (client_id case_id scope other : string) (dimension : option string)
    (now : datetime) :
  Str.truthy scope = true ->
  other <> scope ->
  let r := CacheManager.delete m client_id case_id (Some scope) dimension in
  fst (CacheManager.get (snd r) client_id case_id scope dimension now) = None /\
  fst (CacheManager.get (snd r) client_id case_id other dimension now)
  = fst (CacheManager.get m client_id case_id other dimension now) /\
  fst r = match CacheManager.memory_tier m with
          | Some mc =>
              if OrderedDict.contains
                   (CacheManager._generate_cache_key client_id case_id scope
                      dimension) (LRUCache.cache mc)
              then 1 else 0
          | None => 0
          end.
Proof.
  intros Htruthy Hother r. subst r.
  destruct (delete_scope_spec m client_id case_id scope dimension Htruthy)
    as [m' [E [T _]]].
  rewrite E. cbn [fst snd]. rewrite !get_value, T.
  destruct (CacheManager.memory_tier m) as [mc | ]; cbn [option_map];
    [ | auto].
  split; [ | split; [ | reflexivity]].
  - unfold LRUCache.get, purge. simpl. now rewrite getitem_delitem_same.
  - unfold LRUCache.get, purge. simpl.
    rewrite getitem_delitem_other; [ | ].
    + destruct (OrderedDict.getitem _ (LRUCache.cache mc)); [ | reflexivity].
      now destruct (CacheEntry.is_expired now t).
    + intros H. apply generate_cache_key_scope in H. congruence.
Qed.

Lemma manager_delete_one_scope_witness :
  let m := write_three_scopes memory_only "client-1" "case-1" "a" "b" "c"
             "active" "active" "active" 1 2 3 in
  let r := CacheManager.delete m "client-1" "case-1" (Some "standard") None in
  fst (CacheManager.get (snd r) "client-1" "case-1" "standard" None 4) = None /\
  fst (CacheManager.get (snd r) "client-1" "case-1" "minimal" None 4)
  = fst (CacheManager.get m "client-1" "case-1" "minimal" None 4).
Proof.
  cbv zeta.
  pose proof (manager_delete_one_scope string
                (write_three_scopes memory_only "client-1" "case-1" "a" "b" "c"
                   "active" "active" "active" 1 2 3)
                "client-1" "case-1" "standard" "minimal" None 4
                eq_refl ltac:(discriminate)) as H.
  cbv zeta in H. destruct H as [H1 [H2 _]]. split; [exact H1 | exact H2].
Defined.

(** X11. Resetting the statistics zeroes every counter and touches no
    cached data: each lookup answers after the reset as it did before. *)
Theorem manager_reset_keeps_data (V : Type) (m : CacheManager.t V)
    (client_id case_id scope : string) (dimension : option string)
    (now : datetime) :
  CacheManager.stats (CacheManager.reset_stats m) = CacheManager.zero_stats /\
  CacheManager.memory_tier (CacheManager.reset_stats m)
  = CacheManager.memory_tier m /\
  fst (CacheManager.get (CacheManager.reset_stats m) client_id case_id scope
         dimension now)
  = fst (CacheManager.get m client_id case_id scope dimension now).
Proof.
  split; [reflexivity | ]. split; [reflexivity | ].
  now rewrite !get_value.
Qed.

Section ManagerReachable.

Context {V : Type}.
Implicit Types (m : CacheManager.t V).

Lemma counters_ok_zero : counters_ok CacheManager.zero_stats.
Proof. unfold counters_ok. simpl. lia. Qed.

Lemma counters_ok_slow_misses m s : counters_ok s -> counters_ok (slow_misses m s).
Proof.
  unfold counters_ok, slow_misses.
  destruct (CacheManager.enable_redis_cache m), (CacheManager.enable_db_cache m);
    simpl; lia.
Qed.

Lemma counters_ok_deletes n s :
  0 <= n -> counters_ok s -> counters_ok (CacheManager.add_total_deletes n s).
Proof. unfold counters_ok. simpl. lia. Qed.

Lemma counters_ok_step m (op : ManagerOp V) :
  counters_ok (CacheManager.stats m) ->
  counters_ok (CacheManager.stats (manager_step m op)).
Proof.
  intros Hok.
  destruct op as [c k s d now | c k s v st d now | c k s d | c k | ];
    cbn [manager_step].
  - rewrite get_spec. cbv zeta.
    destruct (CacheManager.memory_tier m) as [mc | ].
    + destruct (fst (LRUCache.get mc _ now)); cbn [snd].
      * unfold counters_ok in *. simpl. lia.
      * simpl. apply counters_ok_slow_misses. unfold counters_ok in *. simpl. lia.
    + simpl. now apply counters_ok_slow_misses.
  - rewrite stats_set. unfold counters_ok in *. simpl. lia.
  - assert (Hall : counters_ok
                     (CacheManager.stats
                        (snd (CacheManager.delete m c k None d)))).
    { destruct (delete_all_scopes m c k d) as [m' [E [_ S]]].
      rewrite E. cbn [snd]. rewrite S. apply counters_ok_deletes; [ | exact Hok].
      destruct (CacheManager.memory_tier m) as [mc | ]; [ | lia].
      repeat match goal with
        | |- context [if ?b then 1 else 0] => destruct b
        end; lia. }
    destruct s as [s | ]; [ | exact Hall].
    destruct (Str.truthy s) eqn:T.
    + destruct (delete_scope_spec m c k s d T) as [m' [E [_ S]]].
      rewrite E. cbn [snd]. rewrite S. apply counters_ok_deletes; [ | exact Hok].
      destruct (CacheManager.memory_tier m) as [mc | ]; [ | lia].
      destruct (OrderedDict.contains _ _); lia.
    + unfold CacheManager.delete in *. rewrite T. exact Hall.
  - unfold CacheManager.invalidate_case.
    destruct (delete_all_scopes m c k None) as [m' [E [_ S]]].
    rewrite E. cbn [snd]. rewrite S. apply counters_ok_deletes; [ | exact Hok].
    destruct (CacheManager.memory_tier m) as [mc | ]; [ | lia].
    repeat match goal with
      | |- context [if ?b then 1 else 0] => destruct b
      end; lia.
  - apply counters_ok_zero.
Qed.

Lemma counters_ok_run (ops : list (ManagerOp V)) m :
  counters_ok (CacheManager.stats m) ->
  counters_ok (CacheManager.stats (manager_run m ops)).
Proof.
  revert m. induction ops as [ | op ops IH]; intros m Hok; simpl; [exact Hok | ].
  apply IH. now apply counters_ok_step.
Qed.

End ManagerReachable.

Lemma rate_bounds (hits total : Z) :
  0 <= hits <= total -> (0 <= CacheManager.rate hits total <= 1)%Q.
Proof.
  intros H. unfold CacheManager.rate.
  destruct (total >? 0) eqn:E; [ | split; discriminate].
  apply Z.gtb_lt in E. now apply ratio_bounds.
Qed.

Lemma rate_zero (total : Z) : (CacheManager.rate 0 total == 0)%Q.
Proof.
  unfold CacheManager.rate. destruct (total >? 0); [ | reflexivity].
  unfold Qdiv. ring.
Qed.

(** More operations for the same hits never raise the rate. *)
Lemma rate_antitone (hits total total' : Z) :
  0 <= hits <= total -> total <= total' ->
  (CacheManager.rate hits total' <= CacheManager.rate hits total)%Q.
Proof.
  intros H Hle. unfold CacheManager.rate.
  destruct (Z.gtb_spec total' 0) as [Hp' | Hn'];
    destruct (Z.gtb_spec total 0) as [Hp | Hn]; try lia.
  - destruct total as [ | p | p]; try lia. destruct total' as [ | q | q]; try lia.
    unfold Qdiv, Qle, Qmult, Qinv, inject_Z. simpl. nia.
  - assert (hits = 0) by lia. subst hits.
    destruct total' as [ | q | q]; try lia.
    unfold Qdiv, Qle, Qmult, Qinv, inject_Z. simpl. lia.
  - discriminate.
Qed.

(** X12. In every state the manager reaches from its construction, each hit
    rate reported by [get_stats] lies in [[0,1]]; the hit rates of the two
    slower tiers are 0, since these tiers never answer; and the overall hit
    rate never exceeds the hit rate of the memory tier, because every miss
    of a slower tier counts as one more operation. *)
Theorem manager_hit_rates (V : Type)
    (supabase_client redis_client : option CacheManager.Client)
    (enable_memory enable_redis enable_db : bool)
    (ops : list (ManagerOp V)) (now : datetime) :
  let m := manager_run
             (CacheManager.create_cache_manager supabase_client redis_client
                enable_memory enable_redis enable_db) ops in
  let report := CacheManager.get_stats m now in
  (0 <= CacheManager.memory_hit_rate report <= 1)%Q /\
  (CacheManager.redis_hit_rate report == 0)%Q /\
  (CacheManager.db_hit_rate report == 0)%Q /\
  (0 <= CacheManager.overall_hit_rate report
   <= CacheManager.memory_hit_rate report)%Q.
Proof.
  intros m report.
  assert (Hok : counters_ok (CacheManager.stats m)).
  { apply counters_ok_run. apply counters_ok_zero. }
  subst report. unfold CacheManager.get_stats. cbv zeta.
  cbn [CacheManager.memory_hit_rate CacheManager.redis_hit_rate
       CacheManager.db_hit_rate CacheManager.overall_hit_rate].
  destruct Hok as [H1 [H2 [H3 [H4 [H5 [H6 _]]]]]].
  rewrite H3, H5. split; [apply rate_bounds; lia | ].
  split; [apply rate_zero | ]. split; [apply rate_zero | ].
  replace (CacheManager.memory_hits (CacheManager.stats m) + 0 + 0)
    with (CacheManager.memory_hits (CacheManager.stats m)) by lia.
  split.
  - apply rate_bounds. lia.
  - apply rate_antitone; lia.
Qed.

(* ====================================================================== *)
(** * Further properties of the aggregator *)
(* ====================================================================== *)

Lemma invalid_dimensions_nil (l : list string) :
  (forall x, In x l -> In x valid_dimensions) -> invalid_dimensions l = [].
Proof.
  intros Hall. destruct (invalid_dimensions l) as [ | y ys] eqn:E; [reflexivity | ].
  assert (Hy : In y (invalid_dimensions l)) by (rewrite E; now left).
  apply invalid_dimensions_spec in Hy. destruct Hy as [Hy Hn].
  contradiction (Hn (Hall y Hy)).
Qed.

(** X13. An explicit, non-empty list of legal dimension names is used as it
    is given (order and duplicates included) and the scope is then not even
    looked at, so that an unknown scope is accepted along with it; an empty
    list counts as no list; and whatever is selected is a non-empty list of
    legal names. *)
Theorem explicit_dimensions_override_scope (scope : string) (d : string)
    (r : list string) (include_dimensions : option (list string))
    (dims : list string) :
  ((forall x, In x (d :: r) -> In x valid_dimensions) ->
   _determine_dimensions scope (Some (d :: r)) = Ok (d :: r)) /\
  _determine_dimensions scope (Some []) = _determine_dimensions scope None /\
  (_determine_dimensions scope include_dimensions = Ok dims ->
   dims <> [] /\ forall x, In x dims -> In x valid_dimensions).
Proof.
  split; [ | split].
  - intros Hall. unfold _determine_dimensions.
    now rewrite (invalid_dimensions_nil (d :: r) Hall).
  - reflexivity.
  - unfold _determine_dimensions.
    assert (Hscope : match lookup scope SCOPES with
                     | Some l => Ok l
                     | None => Raise (InvalidScope scope)
                     end = Ok dims ->
                     dims <> [] /\ forall x, In x dims -> In x valid_dimensions).
    { simpl.
      destruct (String.eqb scope "minimal");
        [intros [= <-]; split; [discriminate | simpl; intuition] | ].
      destruct (String.eqb scope "standard");
        [intros [= <-]; split; [discriminate | simpl; intuition] | ].
      destruct (String.eqb scope "comprehensive");
        [intros [= <-]; split; [discriminate | simpl; intuition] | ].
      discriminate. }
    destruct include_dimensions as [[ | d0 r0] | ]; try exact Hscope.
    destruct (invalid_dimensions (d0 :: r0)) as [ | y ys] eqn:E; [ | discriminate].
    intros [= <-]. split; [discriminate | ].
    intros x Hx. destruct (in_dec string_dec x valid_dimensions) as [ | Hn];
      [assumption | ].
    assert (Hi : In x (invalid_dimensions (d0 :: r0)))
      by (apply invalid_dimensions_spec; auto).
    rewrite E in Hi. contradiction.
Qed.

Lemma explicit_dimensions_override_scope_witness :
  _determine_dimensions "no-such-scope" (Some ["WHY"; "WHO"; "WHO"])
  = Ok ["WHY"; "WHO"; "WHO"].
Proof.
  apply (proj1 (explicit_dimensions_override_scope "no-such-scope" "WHY"
                  ["WHO"; "WHO"] None [])).
  simpl. intuition.
Defined.

Lemma NoDup_valid_dimensions : NoDup valid_dimensions.
Proof. repeat constructor; simpl; intuition discriminate. Qed.

(** The results, the calls and the cache of a fan-out. *)
Lemma fan_out_spec (az : Analyzers) (w : World)
    (client_id case_id : string) (dimensions : list string) :
  let r := _build_dimensions_parallel az w client_id case_id dimensions in
  let names := map fst (fst r) in
  names = filter (fun n => Str.mem n dimensions) valid_dimensions /\
  NoDup names /\
  (forall n, In n names <-> In n dimensions /\ In n valid_dimensions) /\
  (forall n o, In (n, o) (fst r) ->
     match analyze az n client_id case_id with
     | Ok c => o = Some c
     | Raise e => o = if is_Exception e then None else Some (Raised e)
     end) /\
  analyzer_calls (snd r) = analyzer_calls w ++ names /\
  cache_manager (snd r) = cache_manager w.
Proof.
  cbv zeta. unfold _build_dimensions_parallel. cbn [fst snd].
  rewrite map_map. cbn [fst]. rewrite map_id. fold (task_names dimensions).
  split; [reflexivity | ]. split; [ | split; [ | split; [ | split]]].
  - apply NoDup_filter, NoDup_valid_dimensions.
  - intros n. unfold task_names. rewrite filter_In, mem_In. tauto.
  - intros n o Hin. apply in_map_iff in Hin. destruct Hin as [x [[= <- <-] _]].
    unfold task. now destruct (analyze az x client_id case_id).
  - reflexivity.
  - reflexivity.
Qed.

(** X14. The fan-out collects one result for each legal name that occurs in
    the requested list, always in the order WHO, WHAT, WHERE, WHEN, WHY:
    the order of the request, repeated names and unknown names make no
    difference.  The result of a name is the context its analyzer returned,
    [None] when the analyzer raised an instance of [Exception], and the
    raised object itself when it raised anything else.  Exactly the
    analyzers of these names are awaited, and the cache is not touched. *)
Theorem fan_out_collects_in_fixed_order (az : Analyzers) (w : World)
    (client_id case_id : string) (dimensions : list string) :
  let r := _build_dimensions_parallel az w client_id case_id dimensions in
  let names := map fst (fst r) in
  names = filter (fun n => Str.mem n dimensions) valid_dimensions /\
  NoDup names /\
  (forall n, In n names <-> In n dimensions /\ In n valid_dimensions) /\
  (forall n o, In (n, o) (fst r) ->
     match analyze az n client_id case_id with
     | Ok c => o = Some c
     | Raise e => o = if is_Exception e then None else Some (Raised e)
     end) /\
  analyzer_calls (snd r) = analyzer_calls w ++ names /\
  cache_manager (snd r) = cache_manager w.
Proof. exact (fan_out_spec az w client_id case_id dimensions). Qed.

Lemma fan_out_collects_in_fixed_order_witness :
  map fst
    (fst (_build_dimensions_parallel steady_analyzers fresh_world "client-1"
            "case-1" ["WHY"; "HOW"; "WHO"; "WHY"]))
  = ["WHO"; "WHY"].
Proof.
  apply (proj1 (fan_out_collects_in_fixed_order steady_analyzers fresh_world
                  "client-1" "case-1" ["WHY"; "HOW"; "WHO"; "WHY"])).
Defined.

Section BuildTotal.

Lemma as_who_map o : as_who (option_map Who o) = Ok o.
Proof. now destruct o. Qed.
Lemma as_what_map o : as_what (option_map What o) = Ok o.
Proof. now destruct o. Qed.
Lemma as_where_map o : as_where (option_map Where o) = Ok o.
Proof. now destruct o. Qed.
Lemma as_when_map o : as_when (option_map When o) = Ok o.
Proof. now destruct o. Qed.
Lemma as_why_map o : as_why (option_map Why o) = Ok o.
Proof. now destruct o. Qed.

(** The results of a fan-out, by the five request flags. *)
Lemma fan_out_results (az : Analyzers) (w : World) (client_id case_id : string)
    (dims : list string) :
  fst (_build_dimensions_parallel az w client_id case_id dims)
  = (if Str.mem "WHO" dims
     then [("WHO", gathered Who (who_analyzer az client_id case_id))]
     else [])
    ++ (if Str.mem "WHAT" dims
        then [("WHAT", gathered What (what_analyzer az client_id case_id))]
        else [])
    ++ (if Str.mem "WHERE" dims
        then [("WHERE", gathered Where (where_analyzer az client_id case_id))]
        else [])
    ++ (if Str.mem "WHEN" dims
        then [("WHEN", gathered When (when_analyzer az client_id case_id))]
        else [])
    ++ (if Str.mem "WHY" dims
        then [("WHY", gathered Why (why_analyzer az client_id case_id))]
        else []).
Proof.
  unfold _build_dimensions_parallel, task_names, valid_dimensions.
  cbn [fst filter].
  rewrite <- task_who, <- task_what, <- task_where, <- task_when, <- task_why.
  destruct (Str.mem "WHO" dims), (Str.mem "WHAT" dims), (Str.mem "WHERE" dims),
    (Str.mem "WHEN" dims), (Str.mem "WHY" dims); reflexivity.
Qed.

(** The same results when the requested analyzers raise instances of
    [Exception] only: each is the returned context, or absent. *)
Lemma fan_out_results_absorbed (az : Analyzers) (w : World)
    (client_id case_id : string) (dims : list string) :
  raise_exceptions_only az client_id case_id dims ->
  fst (_build_dimensions_parallel az w client_id case_id dims)
  = (if Str.mem "WHO" dims
     then [("WHO", option_map Who (to_option (who_analyzer az client_id case_id)))]
     else [])
    ++ (if Str.mem "WHAT" dims
        then [("WHAT", option_map What (to_option (what_analyzer az client_id case_id)))]
        else [])
    ++ (if Str.mem "WHERE" dims
        then [("WHERE", option_map Where (to_option (where_analyzer az client_id case_id)))]
        else [])
    ++ (if Str.mem "WHEN" dims
        then [("WHEN", option_map When (to_option (when_analyzer az client_id case_id)))]
        else [])
    ++ (if Str.mem "WHY" dims
        then [("WHY", option_map Why (to_option (why_analyzer az client_id case_id)))]
        else []).
Proof.
  intros Hex. rewrite fan_out_results.
  destruct (Str.mem "WHO" dims) eqn:M1, (Str.mem "WHAT" dims) eqn:M2,
    (Str.mem "WHERE" dims) eqn:M3, (Str.mem "WHEN" dims) eqn:M4,
    (Str.mem "WHY" dims) eqn:M5;
    rewrite ?(gathered_absorbed Who)
      by (apply (exceptions_only_who _ _ _ _ Hex), mem_In; assumption);
    rewrite ?(gathered_absorbed What)
      by (apply (exceptions_only_what _ _ _ _ Hex), mem_In; assumption);
    rewrite ?(gathered_absorbed Where)
      by (apply (exceptions_only_where _ _ _ _ Hex), mem_In; assumption);
    rewrite ?(gathered_absorbed When)
      by (apply (exceptions_only_when _ _ _ _ Hex), mem_In; assumption);
    rewrite ?(gathered_absorbed Why)
      by (apply (exceptions_only_why _ _ _ _ Hex), mem_In; assumption);
    reflexivity.
Qed.

(** The response built from the results of a fan-out. *)
Lemma make_response_fan_out (az : Analyzers) (w : World) (env : Env)
    (client_id case_id : string) (dims : list string) :
  raise_exceptions_only az client_id case_id dims ->
  let results := fst (_build_dimensions_parallel az w client_id case_id dims) in
  exists r,
    make_response env case_id results = Ok r /\
    _calculate_context_score results = Ok (ContextResponse.context_score r) /\
    (0 <= ContextResponse.context_score r <= 1)%Q /\
    ContextResponse.get_dimension_count r = successful results /\
    ContextResponse.case_id r = case_id /\
    ContextResponse.case_name r = _get_case_name results case_id /\
    (forall n, In n valid_dimensions ->
       dimension_of r n = get_result n results).
Proof.
  intros Hex results.
  destruct (calculate_context_score_total results) as [s [Hs Hb]].
  { now apply build_dimensions_parallel_well_typed. }
  assert (Hu : in_unit_interval s = true).
  { unfold in_unit_interval. apply andb_true_iff.
    split; apply Qle_bool_iff; tauto. }
  unfold make_response. rewrite Hs. cbn [bind].
  subst results. rewrite (fan_out_results_absorbed _ _ _ _ _ Hex) in *.
  clear Hex.
  generalize dependent (to_option (who_analyzer az client_id case_id)).
  generalize dependent (to_option (what_analyzer az client_id case_id)).
  generalize dependent (to_option (where_analyzer az client_id case_id)).
  generalize dependent (to_option (when_analyzer az client_id case_id)).
  generalize dependent (to_option (why_analyzer az client_id case_id)).
  intros o5 o4 o3 o2 o1 Hs.
  destruct (Str.mem "WHO" dims), (Str.mem "WHAT" dims), (Str.mem "WHERE" dims),
    (Str.mem "WHEN" dims), (Str.mem "WHY" dims);
    cbn [app get_result lookup String.eqb Ascii.eqb Bool.eqb];
    rewrite ?as_who_map, ?as_what_map, ?as_where_map, ?as_when_map,
      ?as_why_map;
    cbn [bind as_who as_what as_where as_when as_why];
    unfold ContextResponse.new; rewrite Hu;
    (eexists; split; [reflexivity | ]);
    cbn [ContextResponse.context_score ContextResponse.case_id
         ContextResponse.case_name];
    (split; [reflexivity | ]); (split; [exact Hb | ]);
    (split;
     [ unfold ContextResponse.get_dimension_count;
       cbn [ContextResponse.who ContextResponse.what ContextResponse.where_
            ContextResponse.when ContextResponse.why ContextResponse.populated];
       repeat match goal with
         | o : option _ |- _ => destruct o
         end; reflexivity
     | ]);
    (split; [reflexivity | ]); (split; [reflexivity | ]);
    intros n Hn; simpl in Hn;
    destruct Hn as [<- | [<- | [<- | [<- | [<- | []]]]]]; reflexivity.
Qed.

End BuildTotal.

Lemma lookup_absent {A} (n : string) (d : list (string * A)) :
  ~ In n (map fst d) -> lookup n d = None.
Proof.
  induction d as [ | [k a] d IH]; simpl; [reflexivity | ].
  intros Hn. destruct (String.eqb_spec n k) as [-> | _]; [tauto | ].
  apply IH. tauto.
Qed.

(** A fresh response comes from a request that missed the cache. *)
Lemma fresh_response_missed (az : Analyzers) (w : World) (env : Env)
    (client_id case_id scope : string)
    (include_dimensions : option (list string)) (use_cache : bool)
    (r : ContextResponse.t) (w' : World) :
  build_context az w env client_id case_id scope include_dimensions use_cache
  = (Ok r, w') ->
  ContextResponse.cached r = false ->
  cache_miss w env client_id case_id scope use_cache.
Proof.
  unfold build_context, cache_miss. intros H Hfresh.
  destruct use_cache; [right | now left].
  destruct (_check_cache w client_id case_id scope (now_start env))
    as [[cached | ] w0]; [ | reflexivity].
  injection H as <- _. simpl in Hfresh. discriminate.
Qed.

(** Every raise of the scoring of a dimension is an [AttributeError], and
    an exception object kept as the result of a legal name raises it. *)
Lemma score_dimension_raise (name : string) (o : option DimensionContext)
    (e : Exn) :
  _score_dimension name o = Raise e -> e = AttributeError.
Proof.
  unfold _score_dimension. destruct o as [c | ]; [ | discriminate].
  destruct (String.eqb name "WHO");
    [destruct c; intros [= <-]; reflexivity | ].
  destruct (String.eqb name "WHAT");
    [destruct c; intros [= <-]; reflexivity | ].
  destruct (String.eqb name "WHERE");
    [destruct c; intros [= <-]; reflexivity | ].
  destruct (String.eqb name "WHEN");
    [destruct c; intros [= <-]; reflexivity | ].
  destruct (String.eqb name "WHY");
    [destruct c; intros [= <-]; reflexivity | ].
  discriminate.
Qed.

Lemma score_dimension_raised (name : string) (e : Exn) :
  In name valid_dimensions ->
  _score_dimension name (Some (Raised e)) = Raise AttributeError.
Proof.
  intros Hn. simpl in Hn.
  destruct Hn as [<- | [<- | [<- | [<- | [<- | []]]]]]; reflexivity.
Qed.

Lemma dimension_scores_raise (d : list (string * option DimensionContext))
    (e : Exn) :
  dimension_scores d = Raise e -> e = AttributeError.
Proof.
  induction d as [ | [name [c | ]] d IH]; cbn [dimension_scores];
    [discriminate | | ].
  - destruct (_score_dimension name (Some c)) as [q | e'] eqn:E; cbn [bind].
    + destruct (dimension_scores d) as [qs | e'']; cbn [bind];
        [discriminate | ]. intros [= <-]. now apply IH.
    + intros [= <-]. exact (score_dimension_raise _ _ _ E).
  - cbn [bind]. destruct (dimension_scores d) as [qs | e'']; cbn [bind];
      [discriminate | ]. intros [= <-]. now apply IH.
Qed.

Lemma dimension_scores_raised (d : list (string * option DimensionContext))
    (name : string) (e : Exn) :
  In name valid_dimensions -> In (name, Some (Raised e)) d ->
  dimension_scores d = Raise AttributeError.
Proof.
  intros Hn. induction d as [ | [name' [c | ]] d IH]; intros Hin;
    [destruct Hin | | ]; cbn [dimension_scores].
  - destruct Hin as [[= -> ->] | Hin].
    + now rewrite (score_dimension_raised _ e Hn).
    + destruct (_score_dimension name' (Some c)) as [q | e'] eqn:E; cbn [bind].
      * now rewrite (IH Hin).
      * now rewrite (score_dimension_raise _ _ _ E).
  - destruct Hin as [[=] | Hin]. cbn [bind]. now rewrite (IH Hin).
Qed.

(** A composite over results that hold an exception object is not built:
    scoring the object raises. *)
Lemma make_response_raised (env : Env) (case_id : string)
    (d : list (string * option DimensionContext)) (name : string) (e : Exn) :
  In name valid_dimensions -> In (name, Some (Raised e)) d ->
  make_response env case_id d = Raise AttributeError.
Proof.
  intros Hn Hin. unfold make_response, _calculate_context_score.
  replace (count (List.length d) =? 0) with false.
  2:{ symmetry. apply Z.eqb_neq. unfold count.
      destruct d; [destruct Hin | simpl; lia]. }
  now rewrite (dimension_scores_raised d name e Hn Hin).
Qed.

Lemma make_response_typed (env : Env) (case_id : string)
    (d : list (string * option DimensionContext)) (r : ContextResponse.t) :
  make_response env case_id d = Ok r ->
  forall name e, In name valid_dimensions -> ~ In (name, Some (Raised e)) d.
Proof.
  intros Hm name e Hn Hin.
  rewrite (make_response_raised env case_id d name e Hn Hin) in Hm.
  discriminate.
Qed.

(** A request that misses the cache fails when a requested analyzer raises
    an object that is not an instance of [Exception]. *)
Lemma build_context_aborts (az : Analyzers) (w : World) (env : Env)
    (client_id case_id scope : string)
    (include_dimensions : option (list string)) (use_cache : bool)
    (dims : list string) (name : string) (e : Exn) :
  _determine_dimensions scope include_dimensions = Ok dims ->
  In name dims -> In name valid_dimensions ->
  analyze az name client_id case_id = Raise e -> is_Exception e = false ->
  cache_miss w env client_id case_id scope use_cache ->
  fst (build_context az w env client_id case_id scope include_dimensions
         use_cache) = Raise AttributeError.
Proof.
  intros Hdims Hd Hv Hr He Hmiss.
  rewrite (build_context_miss _ _ _ _ _ _ _ _ Hmiss), Hdims. cbv zeta.
  unfold _build_dimensions_parallel.
  rewrite (make_response_raised env case_id _ name e Hv); [reflexivity | ].
  apply in_map_iff. exists name. split.
  - unfold task. now rewrite Hr, He.
  - unfold task_names. apply filter_In. split; [exact Hv | now apply mem_In].
Qed.

(** X15. A request whose dimension selection succeeds never fails, whatever
    the cache holds and whatever the requested analyzers return or raise, as
    long as what they raise is an instance of [Exception]; when it is not
    served from the cache, its response is flagged as not cached, has a
    score within [[0,1]], counts as populated exactly the dimensions whose
    analyzer succeeded, and leaves every dimension that was not requested
    absent.  When a requested analyzer raises anything else (a cancellation)
    and the cache does not answer, the request fails with an
    [AttributeError]. *)
Theorem build_context_never_fails (az : Analyzers) (w : World) (env : Env)
    (client_id case_id scope : string)
    (include_dimensions : option (list string)) (use_cache : bool)
    (dims : list string) :
  _determine_dimensions scope include_dimensions = Ok dims ->
  (raise_exceptions_only az client_id case_id dims ->
   (exists r w',
      build_context az w env client_id case_id scope include_dimensions
        use_cache = (Ok r, w')) /\
   (cache_miss w env client_id case_id scope use_cache ->
    exists r w',
      build_context az w env client_id case_id scope include_dimensions
        use_cache = (Ok r, w') /\
      ContextResponse.cached r = false /\
      (0 <= ContextResponse.context_score r <= 1)%Q /\
      ContextResponse.get_dimension_count r
      = successful (fst (_build_dimensions_parallel az w client_id case_id dims)) /\
      (forall n, ~ In n dims -> dimension_of r n = None))) /\
  (forall name e,
     In name dims -> In name valid_dimensions ->
     analyze az name client_id case_id = Raise e -> is_Exception e = false ->
     cache_miss w env client_id case_id scope use_cache ->
     fst (build_context az w env client_id case_id scope include_dimensions
            use_cache) = Raise AttributeError).
Proof.
  intros Hdims.
  split; [ | intros name e Hd Hv Hr He Hm;
             exact (build_context_aborts _ _ _ _ _ _ _ _ _ _ _ Hdims Hd Hv Hr He Hm)].
  intros Hex.
  assert (Hmiss : cache_miss w env client_id case_id scope use_cache ->
    exists r w',
      build_context az w env client_id case_id scope include_dimensions use_cache
      = (Ok r, w') /\
      ContextResponse.cached r = false /\
      (0 <= ContextResponse.context_score r <= 1)%Q /\
      ContextResponse.get_dimension_count r
      = successful (fst (_build_dimensions_parallel az w client_id case_id dims)) /\
      (forall n, ~ In n dims -> dimension_of r n = None)).
  { intros Hmiss.
    rewrite (build_context_miss _ _ _ _ _ _ _ _ Hmiss), Hdims. cbv zeta.
    set (w0 := after_cache_check w env client_id case_id scope use_cache).
    destruct (make_response_fan_out az w0 env client_id case_id dims Hex)
      as [r [Hr [_ [Hb [Hc [_ [_ Hd]]]]]]].
    destruct (_build_dimensions_parallel az w0 client_id case_id dims)
      as [results w1] eqn:E.
    cbn [fst] in *. rewrite Hr.
    destruct (make_response_score _ _ _ _ Hr) as [_ [_ Hfresh]].
    exists r. eexists. split; [reflexivity | ].
    split; [exact Hfresh | ]. split; [exact Hb | ].
    assert (Hres : fst (_build_dimensions_parallel az w client_id case_id dims)
                   = results).
    { unfold _build_dimensions_parallel in *. now injection E as <- _. }
    rewrite Hres. split; [exact Hc | ].
    intros n Hn.
    assert (Hlook : get_result n results = None).
    { unfold get_result. rewrite lookup_absent; [reflexivity | ].
      intros Hin.
      pose proof (fan_out_spec az w client_id case_id dims)
        as [_ [_ [Hkeys _]]].
      rewrite Hres in Hkeys. apply Hkeys in Hin. tauto. }
    destruct (in_dec string_dec n valid_dimensions) as [Hv | Hv].
    - now rewrite (Hd n Hv).
    - unfold dimension_of.
      destruct (String.eqb_spec n "WHO") as [-> | _];
        [exfalso; apply Hv; simpl; auto 10 | ].
      destruct (String.eqb_spec n "WHAT") as [-> | _];
        [exfalso; apply Hv; simpl; auto 10 | ].
      destruct (String.eqb_spec n "WHERE") as [-> | _];
        [exfalso; apply Hv; simpl; auto 10 | ].
      destruct (String.eqb_spec n "WHEN") as [-> | _];
        [exfalso; apply Hv; simpl; auto 10 | ].
      destruct (String.eqb_spec n "WHY") as [-> | _];
        [exfalso; apply Hv; simpl; auto 10 | ].
      reflexivity. }
  split; [ | exact Hmiss].
  destruct use_cache.
  - destruct (_check_cache w client_id case_id scope (now_start env))
      as [[cached | ] w0] eqn:E.
    + unfold build_context. rewrite E. eauto.
    + destruct Hmiss as [r [w' [H _]]]; [right; now rewrite E | eauto].
  - destruct Hmiss as [r [w' [H _]]]; [now left | eauto].
Qed.

(** The failing analyzer of the sample raises an instance of
    [Exception]. *)
Lemma why_fails_exceptions_only :
  raise_exceptions_only why_fails "client-1" "case-1" valid_dimensions.
Proof.
  intros n e Hn He. simpl in Hn.
  destruct Hn as [<- | [<- | [<- | [<- | [<- | []]]]]];
    try discriminate He. now injection He as <-.
Qed.

Lemma build_context_never_fails_witness :
  (exists r w',
     build_context why_fails fresh_world sample_env "client-1" "case-1"
       "comprehensive" None false = (Ok r, w')) /\
  fst (build_context why_cancelled fresh_world sample_env "client-1" "case-1"
         "comprehensive" None false) = Raise AttributeError.
Proof.
  split.
  - apply (proj1 (build_context_never_fails why_fails fresh_world sample_env
                    "client-1" "case-1" "comprehensive" None false
                    valid_dimensions eq_refl)).
    exact why_fails_exceptions_only.
  - apply (proj2 (build_context_never_fails why_cancelled fresh_world
                    sample_env "client-1" "case-1" "comprehensive" None false
                    valid_dimensions eq_refl) "WHY" CancelledError).
    + simpl. auto 10.
    + simpl. auto 10.
    + reflexivity.
    + reflexivity.
    + now left.
Defined.

(** A request that bypasses the cache leaves the cache manager alone. *)
Lemma bypass_keeps_cache (az : Analyzers) (w : World) (env : Env)
    (client_id case_id scope : string)
    (include_dimensions : option (list string)) :
  cache_manager
    (snd (build_context az w env client_id case_id scope include_dimensions
            false))
  = cache_manager w.
Proof.
  unfold build_context.
  destruct (_determine_dimensions scope include_dimensions) as [dims | e];
    [ | reflexivity].
  unfold _build_dimensions_parallel.
  destruct (make_response env case_id _) as [r | e]; [ | reflexivity].
  rewrite andb_false_r. reflexivity.
Qed.

(** X16. With the cache bypassed a request changes nothing in the cache
    manager, whatever its outcome: no lookup is counted and nothing is
    stored, even when the response is complete. *)
Theorem bypassed_cache_is_untouched (az : Analyzers) (w : World) (env : Env)
    (client_id case_id scope : string)
    (include_dimensions : option (list string)) :
  cache_manager
    (snd (build_context az w env client_id case_id scope include_dimensions
            false))
  = cache_manager w.
Proof. exact (bypass_keeps_cache az w env client_id case_id scope include_dimensions). Qed.

Section CacheInteraction.

Lemma memory_ready_get {V} (m : CacheManager.t V) client_id case_id scope d now :
  memory_ready m ->
  memory_ready (snd (CacheManager.get m client_id case_id scope d now)).
Proof.
  intros [mc [Hmc [Hwf Hmax]]]. unfold memory_ready.
  rewrite memory_tier_get, Hmc. cbn [option_map].
  eexists. split; [reflexivity | ]. split; [now apply get_wf | ].
  now rewrite get_max_size.
Qed.

Lemma check_cache_manager (w : World) client_id case_id scope now :
  cache_manager (snd (_check_cache w client_id case_id scope now))
  = snd (CacheManager.get (cache_manager w) client_id case_id scope None now) /\
  fst (_check_cache w client_id case_id scope now)
  = fst (CacheManager.get (cache_manager w) client_id case_id scope None now).
Proof.
  unfold _check_cache. now destruct (CacheManager.get _ _ _ _ _ _).
Qed.

(** The state left by a fresh response. *)
Lemma build_context_fresh_state (az : Analyzers) (w : World) (env : Env)
    (client_id case_id scope : string)
    (include_dimensions : option (list string)) (use_cache : bool)
    (r : ContextResponse.t) (w' : World) :
  build_context az w env client_id case_id scope include_dimensions use_cache
  = (Ok r, w') ->
  ContextResponse.cached r = false ->
  let w0 := after_cache_check w env client_id case_id scope use_cache in
  cache_manager w'
  = if ContextResponse.is_complete r && use_cache
    then CacheManager.set (cache_manager w0) client_id case_id scope r "active"
           None (now_end env)
    else cache_manager w0.
Proof.
  intros Hb Hfresh w0.
  pose proof (fresh_response_missed _ _ _ _ _ _ _ _ _ _ Hb Hfresh) as Hmiss.
  rewrite (build_context_miss _ _ _ _ _ _ _ _ Hmiss) in Hb. cbv zeta in Hb.
  fold w0 in Hb.
  destruct (_determine_dimensions scope include_dimensions) as [dims | ];
    [ | discriminate].
  unfold _build_dimensions_parallel in Hb.
  destruct (make_response env case_id _) as [r0 | ]; [ | discriminate].
  injection Hb as -> <-.
  now destruct (ContextResponse.is_complete r && use_cache).
Qed.

End CacheInteraction.

Lemma manager_run_app {V} (m : CacheManager.t V) (a b : list (ManagerOp V)) :
  manager_run m (a ++ b) = manager_run (manager_run m a) b.
Proof. unfold manager_run. apply fold_left_app. Qed.

(** A request that uses the cache, in a world whose cache manager was
    written to and has only been read since, is answered by the written
    response. *)
Lemma cached_request (m : CacheManager.t Cached) (w1 : World)
    (client_id case_id scope : string) (r : ContextResponse.t)
    (written : datetime) (ops : list (ManagerOp Cached)) (q : Request) :
  memory_ready m ->
  cache_manager w1
  = manager_run
      (CacheManager.set m client_id case_id scope r "active" None written) ops ->
  (forall op, In op ops -> manager_read_before (written + 600) op) ->
  req_use_cache q = true ->
  now_start (req_env q) < written + 600 ->
  request w1 client_id case_id scope q
  = (Ok (ContextResponse.set_cached r true),
     with_cache_manager w1
       (manager_run
          (CacheManager.set m client_id case_id scope r "active" None written)
          (ops ++ [MGet client_id case_id scope None (now_start (req_env q))]))).
Proof.
  intros Hready Hcm Hops Huse Hsoon.
  pose proof (manager_set_reads_get Cached m client_id case_id scope r "active"
                None written (now_start (req_env q)) ops Hready) as H.
  cbv zeta in H. destruct H as [Hhit _]. specialize (Hhit Hops Hsoon).
  rewrite <- Hcm in Hhit.
  unfold request, build_context. rewrite Huse. unfold _check_cache.
  destruct (CacheManager.get (cache_manager w1) client_id case_id scope None
              (now_start (req_env q))) as [cached cm] eqn:E.
  cbn [fst] in Hhit. subst cached.
  rewrite manager_run_app, <- Hcm. unfold manager_run at 1.
  cbn [fold_left manager_step]. now rewrite E.
Qed.

(** The cache manager after later requests for the same tenant, case and
    scope has only been read. *)
Lemma serve_reads (m : CacheManager.t Cached)
    (client_id case_id scope : string) (r : ContextResponse.t)
    (written : datetime) (between : list Request) (w1 : World)
    (ops : list (ManagerOp Cached)) :
  memory_ready m ->
  cache_manager w1
  = manager_run
      (CacheManager.set m client_id case_id scope r "active" None written) ops ->
  (forall op, In op ops -> manager_read_before (written + 600) op) ->
  (forall p, In p between -> req_use_cache p = true ->
             now_start (req_env p) < written + 600) ->
  exists ops',
    cache_manager (serve w1 client_id case_id scope between)
    = manager_run
        (CacheManager.set m client_id case_id scope r "active" None written)
        ops' /\
    (forall op, In op ops' -> manager_read_before (written + 600) op).
Proof.
  intros Hready. revert w1 ops.
  induction between as [ | p between IH]; intros w1 ops Hcm Hops Hsoon.
  - exists ops. now split.
  - unfold serve. cbn [fold_left].
    fold (serve (snd (request w1 client_id case_id scope p)) client_id case_id
            scope between).
    assert (Hrest : forall p', In p' between -> req_use_cache p' = true ->
                      now_start (req_env p') < written + 600)
      by (intros p' Hin; apply Hsoon; now right).
    destruct (req_use_cache p) eqn:Huse.
    + rewrite (cached_request m w1 client_id case_id scope r written ops p
                 Hready Hcm Hops Huse (Hsoon p (or_introl eq_refl) Huse)).
      cbn [snd].
      apply (IH _ (ops ++ [MGet client_id case_id scope None
                             (now_start (req_env p))]));
        [reflexivity | | exact Hrest].
      intros op Hin. apply in_app_or in Hin. destruct Hin as [Hin | [<- | []]].
      * now apply Hops.
      * cbn [manager_read_before]. exact (Hsoon p (or_introl eq_refl) Huse).
    + apply (IH _ ops); [ | exact Hops | exact Hrest].
      unfold request. rewrite Huse, bypass_keeps_cache. exact Hcm.
Qed.

(** X17. A complete response built with the cache enabled is stored, and
    every request for the same tenant, case and scope that starts within
    600 seconds of the write is answered by that very response, flagged as
    cached, without any analyzer being awaited, whatever such requests and
    whatever requests bypassing the cache were served in between, as long
    as nothing else reaches the cache in between (an invalidation, or the
    write of another entry, may remove the response).  The explicit
    dimension list of the later requests plays no part, since the key of
    the cache does not contain it. *)
Theorem complete_response_is_served_from_cache
    (az : Analyzers) (w : World) (env : Env)
    (client_id case_id scope : string)
    (include_dimensions : option (list string))
    (r : ContextResponse.t) (w' : World)
    (between : list Request) (q : Request) :
  memory_ready (cache_manager w) ->
  build_context az w env client_id case_id scope include_dimensions true
  = (Ok r, w') ->
  ContextResponse.cached r = false ->
  ContextResponse.is_complete r = true ->
  (forall p, In p (q :: between) -> req_use_cache p = true ->
             now_start (req_env p) < now_end env + 600) ->
  req_use_cache q = true ->
  let w1 := serve w' client_id case_id scope between in
  exists w2,
    request w1 client_id case_id scope q
    = (Ok (ContextResponse.set_cached r true), w2) /\
    analyzer_calls w2 = analyzer_calls w1.
Proof.
  intros Hready Hb Hfresh Hcomplete Hsoon Huse w1.
  pose proof (build_context_fresh_state _ _ _ _ _ _ _ _ _ _ Hb Hfresh) as Hcm.
  cbv zeta in Hcm. rewrite Hcomplete in Hcm. cbn [andb] in Hcm.
  assert (Hready0 : memory_ready
                      (cache_manager
                         (after_cache_check w env client_id case_id scope true))).
  { unfold after_cache_check.
    rewrite (proj1 (check_cache_manager w client_id case_id scope (now_start env))).
    now apply memory_ready_get. }
  destruct (serve_reads _ client_id case_id scope r (now_end env) between w' []
              Hready0 Hcm ltac:(intros ? [])
              ltac:(intros p Hin; apply Hsoon; now right))
    as [ops [Hcm1 Hops]].
  fold w1 in Hcm1.
  rewrite (cached_request _ w1 client_id case_id scope r (now_end env) ops q
             Hready0 Hcm1 Hops Huse (Hsoon q (or_introl eq_refl) Huse)).
  eexists. split; reflexivity.
Qed.

Lemma complete_response_is_served_from_cache_witness :
  exists r w' w2,
    build_context rich_analyzers fresh_world sample_env "client-1" "case-1"
      "minimal" None true = (Ok r, w') /\
    request (serve w' "client-1" "case-1" "minimal" sample_requests)
      "client-1" "case-1" "minimal" unvalidated_request
    = (Ok (ContextResponse.set_cached r true), w2) /\
    analyzer_calls w2
    = analyzer_calls (serve w' "client-1" "case-1" "minimal" sample_requests).
Proof.
  assert (E : exists r w',
             build_context rich_analyzers fresh_world sample_env "client-1"
               "case-1" "minimal" None true = (Ok r, w') /\
             ContextResponse.cached r = false /\
             ContextResponse.is_complete r = true).
  { eexists. eexists. split; [vm_compute; reflexivity | ]. split; reflexivity. }
  destruct E as [r [w' [E [Hfresh Hcomplete]]]].
  destruct (complete_response_is_served_from_cache rich_analyzers
              fresh_world sample_env "client-1" "case-1" "minimal"
              None r w' sample_requests unvalidated_request) as [w2 H].
  - eexists. split; [reflexivity | ]. split; [constructor | simpl; lia].
  - exact E.
  - exact Hfresh.
  - exact Hcomplete.
  - intros p [<- | [<- | [<- | []]]]; simpl; intros; try lia; discriminate.
  - reflexivity.
  - exists r, w', w2. split; [exact E | exact H].
Defined.

(** X18. An incomplete response is never stored: after it, the cache
    manager is as the pre-check of the cache left it (or untouched, with the
    cache bypassed), and the count of writes has not moved. *)
Theorem incomplete_response_is_not_cached
    (az : Analyzers) (w : World) (env : Env) (client_id case_id scope : string)
    (include_dimensions : option (list string)) (use_cache : bool)
    (r : ContextResponse.t) (w' : World) :
  build_context az w env client_id case_id scope include_dimensions use_cache
  = (Ok r, w') ->
  ContextResponse.cached r = false ->
  ContextResponse.is_complete r = false ->
  cache_manager w'
  = cache_manager (after_cache_check w env client_id case_id scope use_cache) /\
  CacheManager.total_sets (CacheManager.stats (cache_manager w'))
  = CacheManager.total_sets (CacheManager.stats (cache_manager w)).
Proof.
  intros Hb Hfresh Hincomplete.
  pose proof (build_context_fresh_state _ _ _ _ _ _ _ _ _ _ Hb Hfresh) as Hcm.
  cbv zeta in Hcm. rewrite Hincomplete in Hcm. cbn [andb] in Hcm.
  split; [exact Hcm | ]. rewrite Hcm. unfold after_cache_check.
  destruct use_cache; [ | reflexivity].
  rewrite (proj1 (check_cache_manager w client_id case_id scope (now_start env))).
  rewrite get_spec. cbv zeta.
  destruct (CacheManager.memory_tier (cache_manager w)) as [mc | ].
  - destruct (fst (LRUCache.get mc _ _)); cbn [snd].
    + reflexivity.
    + unfold slow_misses. simpl.
      destruct (CacheManager.enable_redis_cache (cache_manager w)),
        (CacheManager.enable_db_cache (cache_manager w)); reflexivity.
  - cbn [snd]. unfold slow_misses. simpl.
    destruct (CacheManager.enable_redis_cache (cache_manager w)),
      (CacheManager.enable_db_cache (cache_manager w)); reflexivity.
Qed.

Lemma incomplete_response_is_not_cached_witness :
  exists r w',
    build_context steady_analyzers fresh_world sample_env "client-1" "case-1"
      "comprehensive" None true = (Ok r, w') /\
    CacheManager.total_sets (CacheManager.stats (cache_manager w'))
    = CacheManager.total_sets (CacheManager.stats (cache_manager fresh_world)).
Proof.
  assert (E : exists r w',
             build_context steady_analyzers fresh_world sample_env "client-1"
               "case-1" "comprehensive" None true = (Ok r, w') /\
             ContextResponse.cached r = false /\
             ContextResponse.is_complete r = false).
  { eexists. eexists. split; [vm_compute; reflexivity | ]. split; reflexivity. }
  destruct E as [r [w' [E [Hfresh Hincomplete]]]].
  exists r, w'. split; [exact E | ].
  apply (incomplete_response_is_not_cached steady_analyzers fresh_world
           sample_env "client-1" "case-1" "comprehensive" None true r w'
           E Hfresh Hincomplete).
Defined.

(* ---------------------------------------------------------------------- *)
(** ** The warm-up route *)

Section Warmup.

Import CacheRoutes.

Lemma warmup_step_effect (az : Analyzers) (client_id scope : string)
    (acc : Results * World) (request : string * Env) :
  let acc' := warmup_step az client_id scope acc request in
  cache_manager (snd acc') = cache_manager (snd acc) /\
  successful (fst acc') + failed (fst acc')
  = successful (fst acc) + failed (fst acc) + 1 /\
  total_cases (fst acc') = total_cases (fst acc) /\
  0 <= successful (fst acc') - successful (fst acc) /\
  0 <= failed (fst acc') - failed (fst acc).
Proof.
  destruct acc as [results w]. destruct request as [case_id env].
  cbv zeta. unfold warmup_step.
  pose proof (bypass_keeps_cache az w env client_id case_id scope None)
    as Hcm.
  destruct (build_context az w env client_id case_id scope None false)
    as [[r | e] w']; cbn [fst snd] in *; simpl; repeat split; auto; lia.
Qed.

Lemma warmup_fold (az : Analyzers) (client_id scope : string)
    (requests : list (string * Env)) (acc : Results * World) :
  let acc' := fold_left (warmup_step az client_id scope) requests acc in
  cache_manager (snd acc') = cache_manager (snd acc) /\
  successful (fst acc') + failed (fst acc')
  = successful (fst acc) + failed (fst acc) + Z.of_nat (List.length requests) /\
  total_cases (fst acc') = total_cases (fst acc) /\
  successful (fst acc) <= successful (fst acc') /\
  failed (fst acc) <= failed (fst acc').
Proof.
  revert acc. induction requests as [ | request requests IH]; intros acc.
  - simpl. repeat split; lia.
  - cbv zeta. cbn [fold_left].
    pose proof (warmup_step_effect az client_id scope acc request) as Hs.
    cbv zeta in Hs. destruct Hs as [S1 [S2 [S3 [S4 S5]]]].
    specialize (IH (warmup_step az client_id scope acc request)).
    cbv zeta in IH. destruct IH as [I1 [I2 [I3 [I4 I5]]]].
    rewrite I1, I2, I3, S1, S3. cbn [List.length]. rewrite Nat2Z.inj_succ.
    repeat split; lia.
Qed.

End Warmup.

(** X19. The warm-up route builds every listed case with the cache
    bypassed, so it stores nothing: the cache manager is the same after the
    warm-up as before it, however complete the contexts built.  Its report
    counts every listed case once, as successful or as failed. *)
Theorem warmup_stores_nothing (az : Analyzers) (w : World) (client_id : string)
    (case_ids : list (string * Env)) (scope : string) :
  let r := CacheRoutes.warmup_cache az w client_id case_ids scope in
  cache_manager (snd r) = cache_manager w /\
  CacheRoutes.total_cases (fst r) = Z.of_nat (List.length case_ids) /\
  CacheRoutes.successful (fst r) + CacheRoutes.failed (fst r)
  = CacheRoutes.total_cases (fst r) /\
  0 <= CacheRoutes.successful (fst r) /\ 0 <= CacheRoutes.failed (fst r).
Proof.
  cbv zeta. unfold CacheRoutes.warmup_cache.
  pose proof (warmup_fold az client_id scope case_ids
                (CacheRoutes.make_results (Z.of_nat (List.length case_ids)) 0 0 [],
                 w)) as H.
  cbv zeta in H. cbn [fst snd CacheRoutes.successful CacheRoutes.failed
                      CacheRoutes.total_cases] in H.
  destruct H as [H1 [H2 [H3 [H4 H5]]]].
  repeat split; try assumption; lia.
Qed.

(* ---------------------------------------------------------------------- *)
(** ** The display name *)

(** The [hasattr] guard of the name only rejects what the test of the name
    rejects as well. *)
Lemma case_name_guard (c : DimensionContext) (b : bool) :
  has_case_name c && (Str.truthy (context_case_name c) && b)
  = Str.truthy (context_case_name c) && b.
Proof. destruct c; reflexivity. Qed.

(** X20. The display name of a response is either the placeholder made
    from the case id or a non-empty name carried by one of the successful
    dimension results; it is the placeholder exactly when every successful
    result carries an empty name or the placeholder itself (in particular
    when every analyzer failed). *)
Theorem case_name_resolution
    (results : list (string * option DimensionContext)) (case_id : string) :
  let name := _get_case_name results case_id in
  (name <> placeholder_name case_id ->
   name <> "" /\ named_by results name) /\
  (name = placeholder_name case_id <->
   forall dimension context,
     In (dimension, Some context) results ->
     context_case_name context = "" \/
     context_case_name context = placeholder_name case_id).
Proof.
  cbv zeta. induction results as [ | [dimension [context | ]] results IH];
    cbn [_get_case_name]; rewrite ?case_name_guard.
  - split; [congruence | ]. split; [intros _ ? ? [] | reflexivity].
  - destruct (Str.truthy (context_case_name context)) eqn:T;
      destruct (String.eqb_spec (context_case_name context)
                  (placeholder_name case_id)) as [Ep | Np]; cbn [andb negb].
    + destruct IH as [IH1 IH2]. split.
      * intros Hn. destruct (IH1 Hn) as [H1 [d c Hin Hc]].
        split; [exact H1 | ]. apply (named_by_intro _ _ d c); [now right | exact Hc].
      * rewrite IH2. split.
        -- intros H d c [[= <- <-] | Hin]; [now right | now apply (H d)].
        -- intros H d c Hin. apply (H d). now right.
    + split.
      * intros _. split.
        -- intros E. rewrite E in T. discriminate.
        -- apply (named_by_intro _ _ dimension context); [now left | reflexivity].
      * split; [congruence | ].
        intros H. destruct (H dimension context (or_introl eq_refl)) as [E | E].
        -- rewrite E in T. discriminate.
        -- contradiction.
    + destruct IH as [IH1 IH2]. split.
      * intros Hn. destruct (IH1 Hn) as [H1 [d c Hin Hc]].
        split; [exact H1 | ]. apply (named_by_intro _ _ d c); [now right | exact Hc].
      * rewrite IH2. split.
        -- intros H d c [[= <- <-] | Hin]; [now right | now apply (H d)].
        -- intros H d c Hin. apply (H d). now right.
    + destruct IH as [IH1 IH2]. split.
      * intros Hn. destruct (IH1 Hn) as [H1 [d c Hin Hc]].
        split; [exact H1 | ]. apply (named_by_intro _ _ d c); [now right | exact Hc].
      * rewrite IH2. split.
        -- intros H d c [[= <- <-] | Hin]; [ | now apply (H d)].
           left. destruct (context_case_name context); [reflexivity | discriminate].
        -- intros H d c Hin. apply (H d). now right.
  - destruct IH as [IH1 IH2]. split.
    + intros Hn. destruct (IH1 Hn) as [H1 [d c Hin Hc]].
      split; [exact H1 | ]. apply (named_by_intro _ _ d c); [now right | exact Hc].
    + rewrite IH2. split.
      * intros H d c [[=] | Hin]. now apply (H d).
      * intros H d c Hin. apply (H d). now right.
Qed.

Lemma case_name_resolution_witness :
  _get_case_name mixed_results "case-1" <> "" /\
  named_by mixed_results (_get_case_name mixed_results "case-1").
Proof.
  apply (proj1 (case_name_resolution mixed_results "case-1")).
  discriminate.
Defined.

(* ---------------------------------------------------------------------- *)
(** ** Quality of a single dimension *)

Lemma tenth_as_fraction (n : Z) : (inject_Z n / 10 == n # 10)%Q.
Proof. unfold Qeq, Qdiv, Qmult, Qinv, inject_Z. simpl. lia. Qed.

Lemma tenth_threshold (n : Z) :
  Qle_bool (85 # 100) (Qmin 1 (inject_Z n / 10)) = true <-> 9 <= n.
Proof.
  rewrite Qle_bool_iff, tenth_as_fraction.
  destruct (Q.min_spec 1 (n # 10)) as [[Hlt ->] | [Hle ->]].
  - unfold Qlt in Hlt. simpl in Hlt. split; [lia | intros _; discriminate].
  - unfold Qle in *. simpl in *. lia.
Qed.

Lemma analyze_agrees (az : Analyzers) (name client_id case_id : string)
    (c : DimensionContext) :
  In name valid_dimensions ->
  analyze az name client_id case_id = Ok c -> agrees name c = true.
Proof.
  intros Hin H. unfold valid_dimensions in Hin. simpl in Hin.
  destruct Hin as [<- | [<- | [<- | [<- | [<- | []]]]]];
    unfold analyze, wrap in H; simpl in H;
    match type of H with
    | match ?a with _ => _ end = _ => destruct a; [ | discriminate]
    end; injection H as <-; reflexivity.
Qed.

(** The score of a counted dimension is the saturated tenth of its number
    of data points. *)
Lemma score_of_count (name : string) (c : DimensionContext) :
  In name ["WHO"; "WHAT"; "WHY"] -> agrees name c = true ->
  exists n,
    _count_data_points name (Some c) = Ok n /\ 0 <= n /\
    _score_dimension name (Some c) = Ok (Qmin 1 (inject_Z n / 10))%Q.
Proof.
  intros Hin Hag. simpl in Hin.
  destruct Hin as [<- | [<- | [<- | []]]]; destruct c; try discriminate;
    eexists; (split; [reflexivity | split; [ | reflexivity]]);
    unfold count; lia.
Qed.

(** X21. For WHO, WHAT and WHY (in any letter case) whose analyzer returns
    a context, the quality operation returns metrics: the number of data
    points, its saturated tenth as completeness, the fixed confidence 0.9,
    and a sufficiency flag that holds exactly from nine data points on.  The
    analyzer is awaited once and the cache is not involved. *)
Theorem quality_of_counted_dimension (az : Analyzers) (w : World)
    (client_id case_id dimension_name : string) (c : DimensionContext) :
  In (Str.upper dimension_name) ["WHO"; "WHAT"; "WHY"] ->
  analyze az (Str.upper dimension_name) client_id case_id = Ok c ->
  exists m n,
    get_dimension_quality az w client_id case_id dimension_name
    = (Ok m, log_call w (Str.upper dimension_name)) /\
    _count_data_points (Str.upper dimension_name) (Some c) = Ok n /\
    DimensionQualityMetrics.dimension_name m = Str.upper dimension_name /\
    DimensionQualityMetrics.data_points m = n /\
    DimensionQualityMetrics.completeness_score m
    = (Qmin 1 (inject_Z n / 10))%Q /\
    DimensionQualityMetrics.confidence_avg m = (9 # 10)%Q /\
    (DimensionQualityMetrics.is_sufficient m = true <-> 9 <= n).
Proof.
  intros Hin Han.
  assert (Hvalid : In (Str.upper dimension_name) valid_dimensions).
  { simpl in Hin. unfold valid_dimensions. simpl. tauto. }
  pose proof (analyze_agrees _ _ _ _ _ Hvalid Han) as Hag.
  destruct (score_of_count _ _ Hin Hag) as [n [Hcount [Hn Hscore]]].
  unfold get_dimension_quality.
  apply mem_In in Hvalid. rewrite Hvalid. cbn [negb].
  rewrite Han. cbv beta iota delta [bind]. rewrite Hscore, Hcount.
  cbv beta iota delta [bind]. unfold DimensionQualityMetrics.new.
  assert (Hunit : in_unit_interval (Qmin 1 (inject_Z n / 10)) = true).
  { unfold in_unit_interval. pose proof (saturated_tenth_bounds n Hn) as [? ?].
    apply andb_true_iff. split; now apply Qle_bool_iff. }
  rewrite Hunit. cbn [negb].
  change (in_unit_interval (9 # 10)) with true. cbn [negb].
  eexists. exists n. split; [reflexivity | ].
  cbn [DimensionQualityMetrics.dimension_name DimensionQualityMetrics.data_points
       DimensionQualityMetrics.completeness_score
       DimensionQualityMetrics.confidence_avg
       DimensionQualityMetrics.is_sufficient].
  repeat split; try reflexivity; apply tenth_threshold.
Qed.

Lemma quality_of_counted_dimension_witness :
  exists m n,
    get_dimension_quality rich_analyzers fresh_world "client-1" "case-1" "who"
    = (Ok m, log_call fresh_world "WHO") /\
    _count_data_points "WHO"
      (Some (Who (WhoContext.make "case-1" "Acme v. Bolt" ten_parties [] [] [])))
    = Ok n /\
    DimensionQualityMetrics.dimension_name m = "WHO" /\
    DimensionQualityMetrics.data_points m = n /\
    DimensionQualityMetrics.completeness_score m
    = (Qmin 1 (inject_Z n / 10))%Q /\
    DimensionQualityMetrics.confidence_avg m = (9 # 10)%Q /\
    (DimensionQualityMetrics.is_sufficient m = true <-> 9 <= n).
Proof.
  apply (quality_of_counted_dimension rich_analyzers fresh_world "client-1"
           "case-1" "who").
  - simpl. auto.
  - reflexivity.
Defined.

(** X22. For WHERE the quality operation reports a third of the number of
    non-empty fields among jurisdiction, court and venue as completeness,
    but counts data points all or nothing: three when all three fields are
    set and none otherwise, so that two fields out of three give a
    completeness of two thirds with no data point.  The dimension is
    sufficient exactly when all three fields are set. *)
Theorem quality_of_where_dimension (az : Analyzers) (w : World)
    (client_id case_id dimension_name : string) (c : WhereContext.t) :
  Str.upper dimension_name = "WHERE" ->
  where_analyzer az client_id case_id = Ok c ->
  exists m,
    get_dimension_quality az w client_id case_id dimension_name
    = (Ok m, log_call w "WHERE") /\
    DimensionQualityMetrics.completeness_score m
    = (inject_Z (filled_fields c) / 3)%Q /\
    DimensionQualityMetrics.data_points m
    = (if filled_fields c =? 3 then 3 else 0) /\
    DimensionQualityMetrics.is_sufficient m = (filled_fields c =? 3).
Proof.
  intros Hname Han. unfold get_dimension_quality. rewrite Hname.
  change (Str.mem "WHERE" valid_dimensions) with true. cbn [negb].
  change (analyze az "WHERE" client_id case_id)
    with (wrap Where (where_analyzer az client_id case_id)).
  rewrite Han. cbv beta iota delta [bind wrap].
  change (_score_dimension "WHERE" (Some (Where c)))
    with (@Ok Exn Q (inject_Z (filled_fields c) / 3)%Q).
  change (_count_data_points "WHERE" (Some (Where c)))
    with (@Ok Exn Z
            (if Str.truthy (WhereContext.primary_jurisdiction c)
                && Str.truthy (WhereContext.court c)
                && Str.truthy (WhereContext.venue c)
             then 3 else 0)).
  cbv beta iota delta [bind]. unfold DimensionQualityMetrics.new, filled_fields.
  destruct (Str.truthy (WhereContext.primary_jurisdiction c)),
    (Str.truthy (WhereContext.court c)), (Str.truthy (WhereContext.venue c));
    eexists; (split; [reflexivity | ]); repeat split.
Qed.

Lemma quality_of_where_dimension_witness :
  exists m,
    get_dimension_quality steady_analyzers fresh_world "client-1" "case-1" "Where"
    = (Ok m, log_call fresh_world "WHERE") /\
    DimensionQualityMetrics.completeness_score m
    = (inject_Z (filled_fields boston_where) / 3)%Q /\
    DimensionQualityMetrics.data_points m
    = (if filled_fields boston_where =? 3 then 3 else 0) /\
    DimensionQualityMetrics.is_sufficient m = (filled_fields boston_where =? 3).
Proof.
  apply (quality_of_where_dimension steady_analyzers fresh_world "client-1"
           "case-1" "Where" boston_where); reflexivity.
Defined.

(* ---------------------------------------------------------------------- *)
(** ** Failures of the single-dimension operations *)

(** X23. The two single-dimension operations compare the upper-cased name
    with the five legal names: an unknown name is rejected before any
    analyzer is awaited, and, unlike the composite operation, an exception
    of the analyzer is not absorbed but reaches the caller. *)
Theorem single_dimension_operations_fail (az : Analyzers) (w : World)
    (client_id case_id dimension_name : string) :
  let name := Str.upper dimension_name in
  (~ In name valid_dimensions ->
   get_dimension_quality az w client_id case_id dimension_name
   = (Raise (InvalidDimension name), w) /\
   refresh_dimension az w client_id case_id dimension_name
   = (Raise (InvalidDimension name), w)) /\
  (forall e,
     In name valid_dimensions ->
     analyze az name client_id case_id = Raise e ->
     get_dimension_quality az w client_id case_id dimension_name
     = (Raise e, log_call w name) /\
     refresh_dimension az w client_id case_id dimension_name
     = (Raise e, log_call w name)).
Proof.
  cbv zeta. unfold get_dimension_quality, refresh_dimension. split.
  - intros Hn.
    destruct (Str.mem (Str.upper dimension_name) valid_dimensions) eqn:E.
    + apply mem_In in E. contradiction.
    + split; reflexivity.
  - intros e Hin Han. apply mem_In in Hin. rewrite Hin, Han. split; reflexivity.
Qed.

Lemma single_dimension_operations_fail_witness :
  get_dimension_quality why_fails fresh_world "client-1" "case-1" "why"
  = (Raise (AnalyzerError "graph service unreachable"),
     log_call fresh_world "WHY") /\
  refresh_dimension why_fails fresh_world "client-1" "case-1" "why"
  = (Raise (AnalyzerError "graph service unreachable"),
     log_call fresh_world "WHY").
Proof.
  apply (proj2 (single_dimension_operations_fail why_fails fresh_world
                  "client-1" "case-1" "why")).
  - simpl. auto 10.
  - reflexivity.
Defined.

(* ---------------------------------------------------------------------- *)
(** ** Refreshing a dimension and the cache *)

(** The outcome of a request and the cache it leaves depend on the world
    only through its cache manager. *)
Lemma build_context_cache_only (az : Analyzers) (w1 w2 : World) (env : Env)
    (client_id case_id scope : string)
    (include_dimensions : option (list string)) (use_cache : bool) :
  cache_manager w1 = cache_manager w2 ->
  fst (build_context az w1 env client_id case_id scope include_dimensions
         use_cache)
  = fst (build_context az w2 env client_id case_id scope include_dimensions
           use_cache) /\
  cache_manager
    (snd (build_context az w1 env client_id case_id scope include_dimensions
            use_cache))
  = cache_manager
      (snd (build_context az w2 env client_id case_id scope include_dimensions
              use_cache)).
Proof.
  intros H. unfold build_context, _check_cache. rewrite H.
  destruct use_cache.
  - destruct (CacheManager.get (cache_manager w2) client_id case_id scope None
                (now_start env)) as [[cached | ] cm]; [split; reflexivity | ].
    destruct (_determine_dimensions scope include_dimensions) as [dims | e];
      [ | split; reflexivity].
    unfold _build_dimensions_parallel. cbn [cache_manager with_cache_manager].
    destruct (make_response env case_id _) as [r | e]; [ | split; reflexivity].
    destruct (ContextResponse.is_complete r); split; reflexivity.
  - destruct (_determine_dimensions scope include_dimensions) as [dims | e];
      [ | split; [reflexivity | exact H]].
    unfold _build_dimensions_parallel.
    destruct (make_response env case_id _) as [r | e];
      [ | split; [reflexivity | exact H]].
    destruct (ContextResponse.is_complete r); split; try reflexivity; exact H.
Qed.

(** X24. Refreshing a dimension, or asking for its quality, never reaches
    the cache: the cache manager is left as it was, so that any later
    request gets the response it would have got without the refresh, a
    cached composite included. *)
Theorem refresh_does_not_reach_the_cache (az az' : Analyzers) (w : World)
    (env : Env) (client_id case_id dimension_name : string)
    (client_id' case_id' scope : string)
    (include_dimensions : option (list string)) (use_cache : bool) :
  let refreshed := snd (refresh_dimension az w client_id case_id dimension_name) in
  let measured :=
    snd (get_dimension_quality az w client_id case_id dimension_name) in
  cache_manager refreshed = cache_manager w /\
  cache_manager measured = cache_manager w /\
  fst (build_context az' refreshed env client_id' case_id' scope
         include_dimensions use_cache)
  = fst (build_context az' w env client_id' case_id' scope include_dimensions
           use_cache) /\
  fst (build_context az' measured env client_id' case_id' scope
         include_dimensions use_cache)
  = fst (build_context az' w env client_id' case_id' scope include_dimensions
           use_cache).
Proof.
  cbv zeta.
  assert (H1 : cache_manager
                 (snd (refresh_dimension az w client_id case_id dimension_name))
               = cache_manager w).
  { unfold refresh_dimension.
    now destruct (negb (Str.mem (Str.upper dimension_name) valid_dimensions)). }
  assert (H2 : cache_manager
                 (snd (get_dimension_quality az w client_id case_id
                         dimension_name))
               = cache_manager w).
  { unfold get_dimension_quality.
    now destruct (negb (Str.mem (Str.upper dimension_name) valid_dimensions)). }
  split; [exact H1 | ]. split; [exact H2 | ]. split.
  - apply build_context_cache_only, H1.
  - apply build_context_cache_only, H2.
Qed.

(* ---------------------------------------------------------------------- *)
(** ** The WHEN analyzer of the source *)

Lemma analyze_lists (answer : result Exn (option WhenAnalyzer.CaseData))
    (client_id case_id : string) (now : datetime) :
  let c := WhenAnalyzer.analyze answer client_id case_id now in
  WhenContext.timeline c = [] /\ WhenContext.upcoming_deadlines c = [] /\
  WhenContext.past_deadlines c = [].
Proof.
  cbv zeta. unfold WhenAnalyzer.analyze.
  destruct (WhenAnalyzer.row_filing_date (WhenAnalyzer._query_case_dates answer));
    destruct (WhenAnalyzer.row_case_name (WhenAnalyzer._query_case_dates answer));
    destruct (WhenAnalyzer.optional_dates_valid
                (WhenAnalyzer._query_case_dates answer));
    repeat split.
Qed.

Lemma when_score_without_points (c : WhenContext.t) :
  when_data_points c = 0 ->
  (score_or_zero "WHEN" (Some (When c)) == 3 # 10)%Q.
Proof.
  intros H. unfold score_or_zero. rewrite score_when, H. reflexivity.
Qed.

(** X25. Whatever the relational store answers (a row, no row, a failure,
    null or rejected columns), the WHEN analyzer of the source returns a
    context for the requested case, without timeline events or deadlines and
    hence without a next deadline; a stored filing date and case name are
    kept when both are accepted and none of the five optional date columns
    is rejected by the validation of the model; a rejected optional date, or
    a failing query, gives the fallback context.  The returned context has
    no data point, scores exactly 0.3 (the share of the filing date) and is
    reported as insufficient by the quality operation. *)
Theorem source_when_analysis (az : Analyzers) (w : World)
    (store : string -> string -> result Exn (option WhenAnalyzer.CaseData))
    (now : datetime) (client_id case_id dimension_name : string) :
  Str.upper dimension_name = "WHEN" ->
  when_analyzer az client_id case_id
  = source_when_analyzer store now client_id case_id ->
  let c := WhenAnalyzer.analyze (store client_id case_id) client_id case_id now in
  WhenContext.case_id c = case_id /\
  when_data_points c = 0 /\
  WhenContextMethods.get_next_deadline c = None /\
  (forall row d s,
     store client_id case_id = Ok (Some row) ->
     WhenAnalyzer.row_filing_date row = WhenAnalyzer.Value d ->
     WhenAnalyzer.row_case_name row = WhenAnalyzer.Value s ->
     WhenAnalyzer.optional_dates_valid row = true ->
     WhenContext.filing_date c = d /\ WhenContext.case_name c = s) /\
  (forall row,
     store client_id case_id = Ok (Some row) ->
     WhenAnalyzer.optional_dates_valid row = false ->
     c = WhenAnalyzer.fallback case_id now) /\
  (forall e, store client_id case_id = Raise e ->
             c = WhenAnalyzer.fallback case_id now) /\
  (score_or_zero "WHEN" (Some (When c)) == 3 # 10)%Q /\
  exists m,
    get_dimension_quality az w client_id case_id dimension_name
    = (Ok m, log_call w "WHEN") /\
    DimensionQualityMetrics.data_points m = 0 /\
    (DimensionQualityMetrics.completeness_score m == 3 # 10)%Q /\
    DimensionQualityMetrics.is_sufficient m = false.
Proof.
  intros Hname Han. cbv zeta.
  pose proof (analyze_lists (store client_id case_id) client_id case_id now)
    as Hl. cbv zeta in Hl. destruct Hl as [Ht [Hu Hp]].
  assert (H0 : when_data_points
                 (WhenAnalyzer.analyze (store client_id case_id) client_id
                    case_id now) = 0).
  { unfold when_data_points. now rewrite Ht, Hu, Hp. }
  split; [ | split; [exact H0 | split; [ | split; [ | split; [ | split;
                                                              [ | split]]]]]].
  - unfold WhenAnalyzer.analyze.
    destruct (WhenAnalyzer.row_filing_date
                (WhenAnalyzer._query_case_dates (store client_id case_id)));
      destruct (WhenAnalyzer.row_case_name
                  (WhenAnalyzer._query_case_dates (store client_id case_id)));
      destruct (WhenAnalyzer.optional_dates_valid
                  (WhenAnalyzer._query_case_dates (store client_id case_id)));
      reflexivity.
  - unfold WhenContextMethods.get_next_deadline. now rewrite Hu.
  - intros row d s Hrow Hd Hs Hopt. unfold WhenAnalyzer.analyze.
    rewrite Hrow. cbn [WhenAnalyzer._query_case_dates]. rewrite Hd, Hs, Hopt.
    split; reflexivity.
  - intros row Hrow Hopt. unfold WhenAnalyzer.analyze.
    rewrite Hrow. cbn [WhenAnalyzer._query_case_dates]. rewrite Hopt.
    destruct (WhenAnalyzer.row_filing_date row);
      destruct (WhenAnalyzer.row_case_name row); reflexivity.
  - intros e He. rewrite He. reflexivity.
  - now apply when_score_without_points.
  - unfold get_dimension_quality. rewrite Hname.
    change (Str.mem "WHEN" valid_dimensions) with true. cbn [negb].
    change (analyze az "WHEN" client_id case_id)
      with (wrap When (when_analyzer az client_id case_id)).
    rewrite Han. unfold source_when_analyzer. cbv beta iota delta [bind wrap].
    rewrite score_when.
    change (_count_data_points "WHEN" (Some (When ?c)))
      with (@Ok Exn Z (when_data_points c)).
    rewrite H0. cbv beta iota delta [bind].
    eexists. split; [reflexivity | ]. repeat split.
Qed.

Lemma source_when_analysis_witness :
  let c := WhenAnalyzer.analyze (docketed_store "client-1" "case-1") "client-1"
             "case-1" 1000 in
  WhenContext.case_id c = "case-1" /\
  when_data_points c = 0 /\
  WhenContextMethods.get_next_deadline c = None /\
  (forall row d s,
     docketed_store "client-1" "case-1" = Ok (Some row) ->
     WhenAnalyzer.row_filing_date row = WhenAnalyzer.Value d ->
     WhenAnalyzer.row_case_name row = WhenAnalyzer.Value s ->
     WhenAnalyzer.optional_dates_valid row = true ->
     WhenContext.filing_date c = d /\ WhenContext.case_name c = s) /\
  (forall row,
     docketed_store "client-1" "case-1" = Ok (Some row) ->
     WhenAnalyzer.optional_dates_valid row = false ->
     c = WhenAnalyzer.fallback "case-1" 1000) /\
  (forall e, docketed_store "client-1" "case-1" = Raise e ->
             c = WhenAnalyzer.fallback "case-1" 1000) /\
  (score_or_zero "WHEN" (Some (When c)) == 3 # 10)%Q /\
  exists m,
    get_dimension_quality docketed_analyzers fresh_world "client-1" "case-1"
      "when"
    = (Ok m, log_call fresh_world "WHEN") /\
    DimensionQualityMetrics.data_points m = 0 /\
    (DimensionQualityMetrics.completeness_score m == 3 # 10)%Q /\
    DimensionQualityMetrics.is_sufficient m = false.
Proof.
  apply (source_when_analysis docketed_analyzers fresh_world docketed_store 1000
           "client-1" "case-1" "when"); reflexivity.
Defined.

(* ---------------------------------------------------------------------- *)
(** ** Completeness with the WHEN analyzer of the source *)

Lemma score_or_zero_unit (name : string) (o : option DimensionContext) :
  name <> "WHEN" -> (0 <= score_or_zero name o <= 1)%Q.
Proof.
  intros Hne. unfold score_or_zero.
  destruct (_score_dimension name o) as [q | ] eqn:E.
  - exact (score_other_dimensions_bounded _ _ _ Hne E).
  - split; discriminate.
Qed.

Lemma calculate_context_score_standard who what where_ when :
  _calculate_context_score (standard_results who what where_ when)
  = Ok (Qmin 1
          (Qmax 0
             (sum [score_or_zero "WHO" (option_map Who who);
                   score_or_zero "WHAT" (option_map What what);
                   score_or_zero "WHERE" (option_map Where where_);
                   score_or_zero "WHEN" (option_map When when)] / 4
              * (inject_Z (ContextResponse.populated who
                           + ContextResponse.populated what
                           + ContextResponse.populated where_
                           + ContextResponse.populated when) / 4))))%Q.
Proof.
  unfold _calculate_context_score.
  change (count (List.length (standard_results who what where_ when)) =? 0)
    with false.
  replace (dimension_scores (standard_results who what where_ when))
    with (@Ok Exn _
            [score_or_zero "WHO" (option_map Who who);
             score_or_zero "WHAT" (option_map What what);
             score_or_zero "WHERE" (option_map Where where_);
             score_or_zero "WHEN" (option_map When when)])
    by (destruct who, what, where_, when; reflexivity).
  cbn [bind]. rewrite successful_count.
  destruct who, what, where_, when; reflexivity.
Qed.

Lemma quarter_product (x k : Q) : (x / 4 * (k / 4) == x * k * (1 # 16))%Q.
Proof. field. Qed.

Lemma populated_bounds {A} (o : option A) :
  0 <= ContextResponse.populated o <= 1.
Proof. destruct o; simpl; lia. Qed.

(** The composite of a standard-scope fan-out whose WHEN result has no data
    point. *)
Lemma standard_composite_bound who what where_ (c : WhenContext.t) :
  when_data_points c = 0 ->
  forall s, _calculate_context_score (standard_results who what where_ (Some c))
            = Ok s ->
  (s <= 33 # 40)%Q.
Proof.
  intros H0 s Hs. rewrite calculate_context_score_standard in Hs.
  injection Hs as <-.
  pose proof (score_or_zero_unit "WHO" (option_map Who who)
                ltac:(discriminate)) as [? ?].
  pose proof (score_or_zero_unit "WHAT" (option_map What what)
                ltac:(discriminate)) as [? ?].
  pose proof (score_or_zero_unit "WHERE" (option_map Where where_)
                ltac:(discriminate)) as [? ?].
  pose proof (when_score_without_points c H0) as Hw. cbn [option_map].
  unfold sum. cbn [fold_left].
  generalize dependent (score_or_zero "WHO" (option_map Who who)).
  generalize dependent (score_or_zero "WHAT" (option_map What what)).
  generalize dependent (score_or_zero "WHERE" (option_map Where where_)).
  generalize dependent (score_or_zero "WHEN" (Some (When c))).
  intros qn Hn qe ? ? qa ? ? qo ? ?.
  rewrite quarter_product.
  assert (Hk : (0 <= inject_Z (ContextResponse.populated who
                               + ContextResponse.populated what
                               + ContextResponse.populated where_
                               + 1) <= 4)%Q).
  { pose proof (populated_bounds who). pose proof (populated_bounds what).
    pose proof (populated_bounds where_). split.
    - change 0%Q with (inject_Z 0). rewrite <- Zle_Qle. lia.
    - change 4%Q with (inject_Z 4). rewrite <- Zle_Qle. lia. }
  generalize dependent (inject_Z (ContextResponse.populated who
                               + ContextResponse.populated what
                               + ContextResponse.populated where_
                               + 1)).
  intros k [Hk0 Hk4].
  assert (Hsum : (0 <= 0 + qo + qa + qe + qn <= 33 # 10)%Q) by (split; lra).
  generalize dependent (0 + qo + qa + qe + qn)%Q. intros t [Ht0 Ht1].
  assert (Hprod : (t * k <= (33 # 10) * 4)%Q).
  { apply Qle_trans with (t * 4)%Q.
    - rewrite (Qmult_comm t k), (Qmult_comm t 4).
      apply Qmult_le_compat_r; assumption.
    - apply Qmult_le_compat_r; [assumption | discriminate]. }
  assert (Hnn : (0 <= t * k)%Q) by (apply Qmult_le_0_compat; assumption).
  destruct (Q.min_spec 1 (Qmax 0 (t * k * (1 # 16)))) as [[? E1] | [? E1]];
    destruct (Q.max_spec 0 (t * k * (1 # 16))) as [[? E2] | [? E2]];
    revert E1 E2;
    generalize dependent (Qmin 1 (Qmax 0 (t * k * (1 # 16))));
    generalize dependent (Qmax 0 (t * k * (1 # 16)));
    generalize dependent (t * k)%Q; intros; lra.
Qed.

Lemma fan_out_standard (az : Analyzers) (w : World) (client_id case_id : string) :
  fst (_build_dimensions_parallel az w client_id case_id
         ["WHO"; "WHAT"; "WHERE"; "WHEN"])
  = [("WHO", gathered Who (who_analyzer az client_id case_id));
     ("WHAT", gathered What (what_analyzer az client_id case_id));
     ("WHERE", gathered Where (where_analyzer az client_id case_id));
     ("WHEN", gathered When (when_analyzer az client_id case_id))].
Proof. rewrite fan_out_results. reflexivity. Qed.

(** X26. With the WHEN analyzer of the source, a freshly built response for
    the standard scope (WHO, WHAT, WHERE, WHEN) scores at most 0.825,
    whatever the other three analyzers return: it is never complete, and
    therefore never stored in the cache. *)
Theorem standard_scope_is_never_complete (az : Analyzers) (w w' : World)
    (env : Env)
    (store : string -> string -> result Exn (option WhenAnalyzer.CaseData))
    (now : datetime) (client_id case_id : string) (use_cache : bool)
    (r : ContextResponse.t) :
  when_analyzer az client_id case_id
  = source_when_analyzer store now client_id case_id ->
  build_context az w env client_id case_id "standard" None use_cache
  = (Ok r, w') ->
  ContextResponse.cached r = false ->
  (ContextResponse.context_score r <= 33 # 40)%Q /\
  ContextResponse.is_complete r = false /\
  cache_manager w'
  = cache_manager (after_cache_check w env client_id case_id "standard" use_cache).
Proof.
  intros Han Hb Hfresh.
  destruct (build_context_fresh _ _ _ _ _ _ _ _ _ _ Hb Hfresh)
    as [dims [Hd Hm]].
  injection Hd as <-. rewrite fan_out_standard, Han in Hm.
  unfold source_when_analyzer in Hm. cbn [gathered] in Hm.
  pose proof (make_response_typed _ _ _ _ Hm) as Hty.
  destruct (gathered_cases Who (who_analyzer az client_id case_id))
    as [E1 | [e1 [_ [_ E1]]]];
    [ | exfalso; apply (Hty "WHO" e1); [simpl; auto 10 | rewrite E1; simpl; auto 10]].
  destruct (gathered_cases What (what_analyzer az client_id case_id))
    as [E2 | [e2 [_ [_ E2]]]];
    [ | exfalso; apply (Hty "WHAT" e2); [simpl; auto 10 | rewrite E2; simpl; auto 10]].
  destruct (gathered_cases Where (where_analyzer az client_id case_id))
    as [E3 | [e3 [_ [_ E3]]]];
    [ | exfalso; apply (Hty "WHERE" e3); [simpl; auto 10 | rewrite E3; simpl; auto 10]].
  clear Hty. rewrite E1, E2, E3 in Hm.
  destruct (make_response_score _ _ _ _ Hm) as [Hs [Hc _]].
  pose proof (analyze_lists (store client_id case_id) client_id case_id now)
    as Hl. cbv zeta in Hl. destruct Hl as [Ht [Hu Hp]].
  assert (H0 : when_data_points
                 (WhenAnalyzer.analyze (store client_id case_id) client_id
                    case_id now) = 0).
  { unfold when_data_points. now rewrite Ht, Hu, Hp. }
  pose proof (standard_composite_bound _ _ _ _ H0 _ Hs) as Hle.
  assert (Hinc : ContextResponse.is_complete r = false).
  { rewrite Hc. apply not_true_is_false. intros Hq.
    apply Qle_bool_iff in Hq. unfold COMPLETENESS_THRESHOLD in Hq. lra. }
  split; [exact Hle | ]. split; [exact Hinc | ].
  pose proof (build_context_fresh_state _ _ _ _ _ _ _ _ _ _ Hb Hfresh) as Hcm.
  cbv zeta in Hcm. rewrite Hinc in Hcm. exact Hcm.
Qed.

Lemma standard_scope_is_never_complete_witness :
  exists r w',
    build_context source_when_analyzers fresh_world sample_env "client-1"
      "case-1" "standard" None true = (Ok r, w') /\
    (ContextResponse.context_score r <= 33 # 40)%Q /\
    ContextResponse.is_complete r = false /\
    cache_manager w'
    = cache_manager
        (after_cache_check fresh_world sample_env "client-1" "case-1"
           "standard" true).
Proof.
  destruct (build_context source_when_analyzers fresh_world sample_env
              "client-1" "case-1" "standard" None true) as [[r | e] w'] eqn:E;
    [ | vm_compute in E; discriminate].
  exists r, w'. split; [reflexivity | ].
  apply (standard_scope_is_never_complete source_when_analyzers fresh_world w'
           sample_env empty_store 1000 "client-1" "case-1" true r).
  - reflexivity.
  - exact E.
  - vm_compute in E. injection E as <- _. reflexivity.
Defined.

(* ---------------------------------------------------------------------- *)
(** ** Deadlines, urgency and case age *)

Lemma earliest_spec (rest : list Deadline) (best : Deadline) :
  In (WhenContextMethods.earliest best rest) (best :: rest) /\
  deadline_date (WhenContextMethods.earliest best rest) <= deadline_date best /\
  (forall d, In d rest ->
             deadline_date (WhenContextMethods.earliest best rest)
             <= deadline_date d).
Proof.
  revert best. induction rest as [ | d rest IH]; intros best;
    cbn [WhenContextMethods.earliest].
  - split; [now left | ]. split; [lia | intros ? []].
  - destruct (Z.ltb_spec (deadline_date d) (deadline_date best)) as [Hlt | Hge].
    + destruct (IH d) as [Hin [Hle Hall]]. split; [ | split].
      * destruct Hin as [<- | Hin]; [right; now left | right; now right].
      * lia.
      * intros d' [<- | Hd']; [exact Hle | now apply Hall].
    + destruct (IH best) as [Hin [Hle Hall]]. split; [ | split].
      * destruct Hin as [<- | Hin]; [now left | right; now right].
      * exact Hle.
      * intros d' [<- | Hd']; [lia | now apply Hall].
Qed.

(** The earliest deadline is the first one of its date. *)
Lemma earliest_split (rest : list Deadline) (best : Deadline) :
  exists pre post,
    best :: rest = pre ++ WhenContextMethods.earliest best rest :: post /\
    (forall d, In d pre ->
               deadline_date (WhenContextMethods.earliest best rest)
               < deadline_date d).
Proof.
  revert best. induction rest as [ | d rest IH]; intros best;
    cbn [WhenContextMethods.earliest].
  - exists [], []. split; [reflexivity | intros ? []].
  - destruct (Z.ltb_spec (deadline_date d) (deadline_date best)) as [Hlt | Hge].
    + destruct (IH d) as [pre [post [E Hpre]]].
      destruct (earliest_spec rest d) as [_ [Hle _]].
      exists (best :: pre), post. split.
      * cbn [app]. now rewrite E.
      * intros d' [<- | Hd']; [lia | now apply Hpre].
    + destruct (IH best) as [[ | p pre] [post [E Hpre]]].
      * cbn [app] in E. injection E as E1 E2.
        exists [], (d :: rest). split; [cbn [app]; now rewrite <- E1 | ].
        intros ? [].
      * cbn [app] in E. injection E as <- E2.
        exists (best :: d :: pre), post. split.
        -- cbn [app]. do 2 f_equal. exact E2.
        -- pose proof (Hpre best (or_introl eq_refl)) as Hb.
           intros d' [<- | [<- | Hd']];
             [exact Hb | lia | apply Hpre; now right].
Qed.

(** X27. The next deadline of a WHEN context is absent exactly when there is
    no upcoming deadline; otherwise it is one of the upcoming deadlines, no
    other upcoming deadline is due earlier, and every deadline listed before
    it is due strictly later: among deadlines of the same earliest date the
    first one is returned. *)
Theorem next_deadline_is_the_earliest (c : WhenContext.t) :
  match WhenContextMethods.get_next_deadline c with
  | None => WhenContext.upcoming_deadlines c = []
  | Some d =>
      (forall d', In d' (WhenContext.upcoming_deadlines c) ->
                  deadline_date d <= deadline_date d') /\
      exists pre post,
        WhenContext.upcoming_deadlines c = pre ++ d :: post /\
        (forall d', In d' pre -> deadline_date d < deadline_date d')
  end.
Proof.
  unfold WhenContextMethods.get_next_deadline.
  destruct (WhenContext.upcoming_deadlines c) as [ | best rest];
    [reflexivity | ].
  destruct (earliest_spec rest best) as [_ [Hle Hall]]. split.
  - intros d' [<- | Hd']; [exact Hle | now apply Hall].
  - apply earliest_split.
Qed.

Lemma next_deadline_is_the_earliest_witness :
  exists pre post,
    two_deadlines
    = pre ++ {| deadline_date := 400000; deadline_type := "motion" |} :: post /\
    (forall d', In d' pre -> 400000 < deadline_date d').
Proof.
  exact (proj2 (next_deadline_is_the_earliest deadline_when)).
Defined.

(* ---------------------------------------------------------------------- *)

Lemma days_monotone (a b : Z) :
  a <= b -> WhenContextMethods.days a <= WhenContextMethods.days b.
Proof. intros H. unfold WhenContextMethods.days. apply Z.div_le_mono; lia. Qed.

(** Some deadline is due within [n] days exactly when the earliest one
    is. *)
Lemma filter_due_within (n : Z) (now : datetime) (best : Deadline)
    (rest : list Deadline) :
  filter (due_within n now) (best :: rest) = []
  <-> due_within n now (WhenContextMethods.earliest best rest) = false.
Proof.
  destruct (earliest_spec rest best) as [Hin [Hle Hall]]. split.
  - intros Hnone.
    destruct (due_within n now (WhenContextMethods.earliest best rest)) eqn:E;
      [ | reflexivity].
    assert (Hf : In (WhenContextMethods.earliest best rest)
                   (filter (due_within n now) (best :: rest)))
      by (apply filter_In; split; assumption).
    rewrite Hnone in Hf. destruct Hf.
  - intros Hlate.
    destruct (filter (due_within n now) (best :: rest)) as [ | d l] eqn:E;
      [reflexivity | exfalso].
    assert (Hd : In d (filter (due_within n now) (best :: rest)))
      by (rewrite E; now left).
    apply filter_In in Hd. destruct Hd as [Hd Hdue].
    unfold due_within in *. apply Z.leb_le in Hdue. apply Z.leb_gt in Hlate.
    assert (Hord : deadline_date (WhenContextMethods.earliest best rest)
                   <= deadline_date d)
      by (destruct Hd as [<- | Hd]; [exact Hle | now apply Hall]).
    pose proof (days_monotone
                  (deadline_date (WhenContextMethods.earliest best rest) - now)
                  (deadline_date d - now) ltac:(lia)).
    lia.
Qed.

(** X28. The urgency of a list of deadlines is set by its earliest deadline
    alone, as returned by [get_next_deadline]: 0.3 without deadlines, 1.0
    when that deadline is due within seven days, 0.7 within thirty days and
    0.5 beyond; the case age passed to the function plays no part. *)
Theorem urgency_is_set_by_the_next_deadline (c : WhenContext.t)
    (case_age : Z) (now : datetime) :
  WhenAnalyzer._calculate_urgency (WhenContext.upcoming_deadlines c) case_age now
  = match WhenContextMethods.get_next_deadline c with
    | None => (3 # 10)%Q
    | Some d =>
        if due_within 7 now d then 1%Q
        else if due_within 30 now d then (7 # 10)%Q
        else (1 # 2)%Q
    end.
Proof.
  unfold WhenAnalyzer._calculate_urgency, WhenContextMethods.get_next_deadline.
  destruct (WhenContext.upcoming_deadlines c) as [ | best rest];
    [reflexivity | ].
  fold (due_within 7 now). fold (due_within 30 now).
  pose proof (filter_due_within 7 now best rest) as H7.
  pose proof (filter_due_within 30 now best rest) as H30.
  destruct (filter (due_within 7 now) (best :: rest)) as [ | d7 l7].
  - rewrite (proj1 H7 eq_refl).
    destruct (filter (due_within 30 now) (best :: rest)) as [ | d30 l30].
    + now rewrite (proj1 H30 eq_refl).
    + destruct (due_within 30 now (WhenContextMethods.earliest best rest));
        [reflexivity | ].
      now specialize (proj2 H30 eq_refl).
  - destruct (due_within 7 now (WhenContextMethods.earliest best rest));
      [reflexivity | ].
    now specialize (proj2 H7 eq_refl).
Qed.

(** X29. The case age is a number of whole days that is never negative: it
    is 0 for a filing date in the future or less than a day ago, and
    otherwise the number of complete days elapsed since the filing date. *)
Theorem case_age_counts_whole_days (c : WhenContext.t) (now : datetime) :
  let age := WhenContextMethods.calculate_case_age c now in
  0 <= age /\
  (now < WhenContext.filing_date c + 86400 -> age = 0) /\
  (WhenContext.filing_date c <= now ->
   86400 * age <= now - WhenContext.filing_date c < 86400 * (age + 1)).
Proof.
  cbv zeta. unfold WhenContextMethods.calculate_case_age, bool_datetime,
    WhenContextMethods.days.
  pose proof (Z.div_mod (now - WhenContext.filing_date c) 86400 ltac:(lia)).
  pose proof (Z.mod_pos_bound (now - WhenContext.filing_date c) 86400
                ltac:(lia)).
  split; [lia | ]. split; intros; nia.
Qed.

Lemma case_age_counts_whole_days_witness :
  86400 * WhenContextMethods.calculate_case_age saturated_when 1704267200
  <= 1704267200 - WhenContext.filing_date saturated_when
  < 86400 * (WhenContextMethods.calculate_case_age saturated_when 1704267200 + 1).
Proof.
  apply (proj2 (proj2 (case_age_counts_whole_days saturated_when 1704267200))).
  simpl. lia.
Defined.

(* ---------------------------------------------------------------------- *)
(** ** Quality metrics of an analyzer *)

Lemma total_bounds (qs : list Q) :
  (forall q, In q qs -> (0 <= q <= 1)%Q) ->
  (0 <= total qs <= inject_Z (Z.of_nat (List.length qs)))%Q.
Proof.
  induction qs as [ | q qs IH]; intros H.
  - simpl. split; discriminate.
  - cbn [total fold_right List.length]. rewrite Nat2Z.inj_succ.
    unfold Z.succ. rewrite inject_Z_plus.
    destruct (H q (or_introl eq_refl)) as [? ?].
    destruct IH as [? ?]; [intros q' Hq'; apply H; now right | ].
    fold (total qs). change (inject_Z 1) with 1%Q. split; lra.
Qed.

Lemma average_bounds (qs : list Q) :
  (forall q, In q qs -> (0 <= q <= 1)%Q) ->
  (0 <= DimensionAnalyzer.average qs <= 1)%Q.
Proof.
  intros H. unfold DimensionAnalyzer.average.
  destruct qs as [ | q qs]; [split; discriminate | ].
  pose proof (total_bounds _ H) as [Hlo Hhi].
  rewrite sum_total.
  assert (Hpos : (0 < inject_Z (Z.of_nat (List.length (q :: qs))))%Q).
  { change 0%Q with (inject_Z 0). rewrite <- Zlt_Qlt.
    cbn [List.length]. lia. }
  split.
  - apply Qle_shift_div_l; [exact Hpos | ]. lra.
  - apply Qle_shift_div_r; [exact Hpos | ]. lra.
Qed.

(** X30. The quality metrics an analyzer computes from a non-negative
    number of data points and confidences within [[0,1]] always pass the
    validation of the model: the completeness is the saturated tenth of the
    number of data points, the dimension is sufficient exactly from nine
    data points on, and the average confidence lies within [[0,1]], being 0
    when no confidence is given. *)
Theorem analyzer_quality_score (dimension_name : string) (data_points : Z)
    (confidence_scores : list Q) :
  0 <= data_points ->
  (forall q, In q confidence_scores -> (0 <= q <= 1)%Q) ->
  exists m,
    DimensionAnalyzer.calculate_quality_score dimension_name data_points
      confidence_scores = Ok m /\
    DimensionQualityMetrics.data_points m = data_points /\
    DimensionQualityMetrics.completeness_score m
    = (Qmin 1 (inject_Z data_points / 10))%Q /\
    (DimensionQualityMetrics.is_sufficient m = true <-> 9 <= data_points) /\
    (0 <= DimensionQualityMetrics.confidence_avg m <= 1)%Q /\
    (confidence_scores = [] -> DimensionQualityMetrics.confidence_avg m = 0%Q).
Proof.
  intros Hn Hq.
  unfold DimensionAnalyzer.calculate_quality_score, DimensionQualityMetrics.new.
  assert (Hc : in_unit_interval (Qmin 1 (inject_Z data_points / 10)) = true).
  { unfold in_unit_interval.
    pose proof (saturated_tenth_bounds data_points Hn) as [? ?].
    apply andb_true_iff. split; now apply Qle_bool_iff. }
  pose proof (average_bounds _ Hq) as [Hlo Hhi].
  assert (Ha : in_unit_interval (DimensionAnalyzer.average confidence_scores)
               = true).
  { unfold in_unit_interval. apply andb_true_iff.
    split; now apply Qle_bool_iff. }
  rewrite Hc, Ha. cbn [negb].
  eexists. split; [reflexivity | ].
  cbn [DimensionQualityMetrics.data_points
       DimensionQualityMetrics.completeness_score
       DimensionQualityMetrics.confidence_avg
       DimensionQualityMetrics.is_sufficient].
  split; [reflexivity | ]. split; [reflexivity | ].
  split; [apply tenth_threshold | ]. split; [now split | ].
  intros ->. reflexivity.
Qed.

Lemma analyzer_quality_score_witness :
  exists m,
    DimensionAnalyzer.calculate_quality_score "WHO" 9 [9 # 10; 1 # 2]%Q = Ok m /\
    DimensionQualityMetrics.data_points m = 9 /\
    DimensionQualityMetrics.completeness_score m
    = (Qmin 1 (inject_Z 9 / 10))%Q /\
    (DimensionQualityMetrics.is_sufficient m = true <-> 9 <= 9) /\
    (0 <= DimensionQualityMetrics.confidence_avg m <= 1)%Q /\
    ([9 # 10; 1 # 2]%Q = [] -> DimensionQualityMetrics.confidence_avg m = 0%Q).
Proof.
  apply (analyzer_quality_score "WHO" 9 [9 # 10; 1 # 2]%Q).
  - lia.
  - intros q [<- | [<- | []]]; split; discriminate.
Defined.

(* ====================================================================== *)
(** * The composite score in double precision *)
(* ====================================================================== *)

Section Binary64Facts.

Import PrimFloat SpecFloat FloatOps FloatAxioms.

(** ** Comparisons of binary64 numbers *)






(** ** Clamping *)



(** ** The score as the formula of the specification *)





(** ** The score is returned on typed results *)




(** ** The response of a request *)







(** The unclamped WHEN score in double precision: ten timeline events and a
    filing date score [1.3], outside the unit interval, as in the reading
    in exact rationals. *)
Lemma when_score_binary64 :
  Binary64._score_dimension "WHEN" (Some (When saturated_when))
  = Ok 1.3%float /\
  Binary64.in_unit_interval 1.3%float = false.
Proof. split; reflexivity. Qed.

(** On the same request the reading in exact rationals gives the score
    [17/20] and a complete response: the two readings part where the
    rounding of the additions reaches the threshold. *)
Lemma rational_reading_at_threshold :
  exists r w',
    build_context Binary64Spec.near_complete_analyzers fresh_world sample_env
      "client-1" "case-1" "comprehensive" Binary64Spec.four_dimensions true
    = (Ok r, w') /\
    (ContextResponse.context_score r == 17 # 20)%Q /\
    ContextResponse.is_complete r = true.
Proof.
  eexists. eexists. split; [vm_compute; reflexivity | ].
  split; reflexivity.
Qed.

End Binary64Facts.
